(** * The program graph of the GPU graph compiler (program.cpp)

    A shallow embedding of [cldnn::program] and of the structural
    operations, analyses and bookkeeping it implements in
    [src/plugins/intel_gpu/src/graph/program.cpp].

    Nodes live in a store indexed by addresses ([program_node*] in the
    source); the id-map [nodes_map] binds primitive ids to addresses, and
    dependency and user edges are lists of addresses, so that two names for
    the same node alias the same record exactly as two pointers do.

    Member functions are computations in a state-and-exception monad over
    the program: an exception leaves the program in the state reached at the
    [throw]. *)

From Stdlib Require Import ZArith List Bool SpecFloat.
From stdpp Require Import base option list gmap strings fin_maps pretty.

Local Open Scope string_scope.
Local Open Scope list_scope.
Local Open Scope Z_scope.

(** ** Scalars and tensors *)

(** [cldnn::data_types]. *)
Inductive data_types := bin | u8 | i8 | f16 | f32 | i32 | i64.

#[global] Instance data_types_eq_dec : EqDecision data_types.
Proof. solve_decision. Defined.

(** [cldnn::format], the members program.cpp names. *)
Inductive format :=
  | any | bfyx | yxfb | b_fs_yx_fsv16 | b_fs_zyx_fsv16 | fs_b_yx_fsv32
  | b_fs_zyx_fsv32 | bs_fs_yx_bsv16_fsv16.

#[global] Instance format_eq_dec : EqDecision format.
Proof. solve_decision. Defined.

(** [cldnn::tensor] is declared outside this translation unit; it is kept as
    its array of sizes: batch, feature, then the spatial extents x, y, z, w. *)
Definition tensor := list Z.

Definition tensor_dim_max : nat := 8.

(** [tensor(sizes, default_size)]: every extent starts at [default_size], the
    leading ones are overwritten by [sizes]. *)
Definition tensor_of_sizes (sizes : list Z) (default_size : Z) : tensor :=
  take tensor_dim_max (sizes ++ replicate (tensor_dim_max - length sizes) default_size).

Definition tensor_feature (t : tensor) (i : nat) : Z := nth (1 + i) t 0.
Definition tensor_spatial (t : tensor) (i : nat) : Z := nth (2 + i) t 0.

(** [spatial[i] = v] on a tensor. *)
Definition tensor_set_spatial (t : tensor) (i : nat) (v : Z) : tensor :=
  <[(2 + i)%nat := v]> t.

(** [cldnn::padding]: lower and upper extents. *)
Record padding := mk_padding { lower_size : tensor; upper_size : tensor }.

#[global] Instance padding_eq_dec : EqDecision padding.
Proof. solve_decision. Defined.

Record layout := mk_layout {
  data_type : data_types;
  fmt : format;
  size : tensor;
  data_padding : padding
}.

#[global] Instance layout_eq_dec : EqDecision layout.
Proof. solve_decision. Defined.

(** ** Primitive descriptors *)

Definition primitive_id := string.

(** The [type_id()] tags of the primitive kinds program.cpp distinguishes;
    [other_type] stands for the registered kinds it never names. *)
Inductive primitive_type_id :=
  | t_convolution | t_binary_convolution | t_deconvolution | t_pooling
  | t_data | t_input_layout | t_mutable_data | t_prior_box | t_assign
  | t_read_value | t_detection_output | t_proposal | t_split | t_crop
  | t_reorder | t_quantize | t_eltwise | t_fully_connected | t_gemm
  | t_generic_layer | t_concatenation | t_loop | t_activation | t_permute
  | t_reshape | t_custom_gpu_primitive | t_softmax | t_border | t_resample
  | t_depth_to_space | t_shuffle_channels | t_mvn | t_arg_max_min | t_dft
  | t_reduce | t_strided_slice | t_region_yolo | t_normalize | t_gather
  | t_scatter_nd_update | t_broadcast | t_ctc_loss | t_non_max_suppression
  | t_roi_align | t_adaptive_pooling | t_bucketize | t_roll | t_eye
  | t_generate_proposals | t_reverse | t_reorg_yolo
  | t_scatter_elements_update | t_experimental_detectron_detection_output
  | t_roi_pooling
  | other_type (name : string).

#[global] Instance primitive_type_id_eq_dec : EqDecision primitive_type_id.
Proof.
  intros x y. unfold Decision.
  destruct x, y; try (left; reflexivity); try (right; discriminate).
  destruct (decide (name = name0)) as [->|Hne]; [left; reflexivity|right; congruence].
Defined.

(** Kind-specific parameters read by program.cpp. *)
Record convolution_prim := mk_convolution {
  conv_with_output_size : bool;
  conv_output_size : tensor;
  conv_pad : list Z;
  conv_stride : list Z;
  conv_dilation : list Z;
  conv_groups : Z;
  conv_split : Z;
  conv_deformable_mode : bool;
  conv_weights_zero_points_term : bool;
  conv_activations_zero_points_term : bool
}.

(** [binary_convolution] always carries its output size: the descriptor has
    no [with_output_size] member. *)
Record binary_convolution_prim := mk_binary_convolution {
  bconv_output_size : tensor;
  bconv_pad : list Z;
  bconv_stride : list Z;
  bconv_dilation : list Z
}.

Record deconvolution_prim := mk_deconvolution {
  deconv_with_output_size : bool;
  deconv_output_size : tensor;
  deconv_pad : list Z;
  deconv_stride : list Z
}.

Record pooling_prim := mk_pooling {
  pool_with_output_size : bool;
  pool_output_size : tensor;
  pool_size : list Z;
  pool_pad : list Z;
  pool_stride : list Z
}.

(** [mvn]: the only parameter program.cpp reads. *)
Record mvn_prim := mk_mvn { mvn_across_channels : bool }.

(** The fields of [quantize_node] that [fuse_nodes] consults.  The two range
    values are single-precision floats in the source; only their order is
    used, and it is the IEEE comparison [SFltb]. *)
Record quantize_fields := mk_quantize {
  scale_shift_opt : bool;
  per_tensor_output_range : bool;
  output_lo_val : spec_float;
  output_hi_val : spec_float;
  need_clamp : bool;
  per_tensor_input_scale : bool;
  need_pre_shift : bool;
  per_tensor_input_shift : bool;
  need_post_scale : bool;
  per_tensor_output_scale : bool;
  need_post_shift : bool;
  per_tensor_output_shift : bool
}.

(** What [as<T>()] gives access to, by kind. *)
Definition typed_desc (t : primitive_type_id) : Type :=
  match t with
  | t_convolution => convolution_prim
  | t_binary_convolution => binary_convolution_prim
  | t_deconvolution => deconvolution_prim
  | t_pooling => pooling_prim
  | t_quantize => quantize_fields
  | t_mvn => mvn_prim
  | _ => unit
  end.

(** [cldnn::primitive]: the descriptor a node wraps.  [id] is the member
    that [rename] and [swap_names] overwrite through [const_cast]. *)
Record primitive := mk_primitive {
  id : primitive_id;
  type : primitive_type_id;
  typed : typed_desc type;
  origin_op_name : string;
  origin_op_type_name : string
}.

Definition with_id (new_id : primitive_id) (d : primitive) : primitive :=
  {| id := new_id; type := type d; typed := typed d;
     origin_op_name := origin_op_name d;
     origin_op_type_name := origin_op_type_name d |}.

Definition with_origin (name type_name : string) (d : primitive) : primitive :=
  {| id := id d; type := type d; typed := typed d;
     origin_op_name := name; origin_op_type_name := type_name |}.

Definition is_type (t : primitive_type_id) (d : primitive) : bool :=
  bool_decide (type d = t).

Definition as_convolution (d : primitive) : option convolution_prim :=
  match type d as t return typed_desc t → option convolution_prim with
  | t_convolution => Some
  | _ => λ _, None
  end (typed d).

Definition as_binary_convolution (d : primitive) : option binary_convolution_prim :=
  match type d as t return typed_desc t → option binary_convolution_prim with
  | t_binary_convolution => Some
  | _ => λ _, None
  end (typed d).

Definition as_deconvolution (d : primitive) : option deconvolution_prim :=
  match type d as t return typed_desc t → option deconvolution_prim with
  | t_deconvolution => Some
  | _ => λ _, None
  end (typed d).

Definition as_pooling (d : primitive) : option pooling_prim :=
  match type d as t return typed_desc t → option pooling_prim with
  | t_pooling => Some
  | _ => λ _, None
  end (typed d).

Definition as_quantize (d : primitive) : option quantize_fields :=
  match type d as t return typed_desc t → option quantize_fields with
  | t_quantize => Some
  | _ => λ _, None
  end (typed d).

Definition as_mvn (d : primitive) : option mvn_prim :=
  match type d as t return typed_desc t → option mvn_prim with
  | t_mvn => Some
  | _ => λ _, None
  end (typed d).

(** ** Nodes and the program *)

(** The address of a node ([program_node*]). *)
Definition node_ptr := positive.

Record program_node := mk_node {
  desc : primitive;
  dependencies : list node_ptr;
  users : list node_ptr;
  output_layout : layout;
  valid_output_layout : bool;
  constant : bool;
  data_flow : bool;
  output : bool;
  user_mark : Z;
  memory_dependencies : list primitive_id
}.

(** [node.id()] reads the descriptor's id. *)
Definition node_id (n : program_node) : primitive_id := id (desc n).

Definition set_desc (d : primitive) (n : program_node) : program_node :=
  {| desc := d; dependencies := dependencies n; users := users n;
     output_layout := output_layout n;
     valid_output_layout := valid_output_layout n; constant := constant n;
     data_flow := data_flow n; output := output n; user_mark := user_mark n;
     memory_dependencies := memory_dependencies n |}.

Definition set_dependencies (l : list node_ptr) (n : program_node) : program_node :=
  {| desc := desc n; dependencies := l; users := users n;
     output_layout := output_layout n;
     valid_output_layout := valid_output_layout n; constant := constant n;
     data_flow := data_flow n; output := output n; user_mark := user_mark n;
     memory_dependencies := memory_dependencies n |}.

Definition set_users (l : list node_ptr) (n : program_node) : program_node :=
  {| desc := desc n; dependencies := dependencies n; users := l;
     output_layout := output_layout n;
     valid_output_layout := valid_output_layout n; constant := constant n;
     data_flow := data_flow n; output := output n; user_mark := user_mark n;
     memory_dependencies := memory_dependencies n |}.

Definition set_output (b : bool) (n : program_node) : program_node :=
  {| desc := desc n; dependencies := dependencies n; users := users n;
     output_layout := output_layout n;
     valid_output_layout := valid_output_layout n; constant := constant n;
     data_flow := data_flow n; output := b; user_mark := user_mark n;
     memory_dependencies := memory_dependencies n |}.

(** [node.is_input()]: no dependencies. *)
Definition is_input (n : program_node) : bool :=
  bool_decide (dependencies n = []).

(** The part of [engine::configuration()] the program reads. *)
Record engine_configuration := mk_configuration {
  use_memory_pool : bool
}.

(** [cldnn::program].  [nodes] is the store that [program_node*] values
    point into; [nodes_map] owns the nodes by id.  A node that leaves
    [nodes_map] is dead even though the store keeps its last record. *)
Record program := mk_program {
  nodes : gmap node_ptr program_node;
  nodes_map : gmap primitive_id node_ptr;
  inputs : list node_ptr;
  outputs : list node_ptr;
  processing_order : list node_ptr;
  optimized_out : list primitive_id;
  optimized : list (primitive_id * list primitive_id);
  configuration : engine_configuration
}.

Definition set_nodes (m : gmap node_ptr program_node) (p : program) : program :=
  {| nodes := m; nodes_map := nodes_map p; inputs := inputs p;
     outputs := outputs p; processing_order := processing_order p;
     optimized_out := optimized_out p; optimized := optimized p;
     configuration := configuration p |}.

Definition set_nodes_map (m : gmap primitive_id node_ptr) (p : program) : program :=
  {| nodes := nodes p; nodes_map := m; inputs := inputs p;
     outputs := outputs p; processing_order := processing_order p;
     optimized_out := optimized_out p; optimized := optimized p;
     configuration := configuration p |}.

Definition set_inputs (l : list node_ptr) (p : program) : program :=
  {| nodes := nodes p; nodes_map := nodes_map p; inputs := l;
     outputs := outputs p; processing_order := processing_order p;
     optimized_out := optimized_out p; optimized := optimized p;
     configuration := configuration p |}.

Definition set_outputs (l : list node_ptr) (p : program) : program :=
  {| nodes := nodes p; nodes_map := nodes_map p; inputs := inputs p;
     outputs := l; processing_order := processing_order p;
     optimized_out := optimized_out p; optimized := optimized p;
     configuration := configuration p |}.

Definition set_processing_order (l : list node_ptr) (p : program) : program :=
  {| nodes := nodes p; nodes_map := nodes_map p; inputs := inputs p;
     outputs := outputs p; processing_order := l;
     optimized_out := optimized_out p; optimized := optimized p;
     configuration := configuration p |}.

Definition set_optimized_out (l : list primitive_id) (p : program) : program :=
  {| nodes := nodes p; nodes_map := nodes_map p; inputs := inputs p;
     outputs := outputs p; processing_order := processing_order p;
     optimized_out := l; optimized := optimized p;
     configuration := configuration p |}.

Definition set_optimized (l : list (primitive_id * list primitive_id)) (p : program) : program :=
  {| nodes := nodes p; nodes_map := nodes_map p; inputs := inputs p;
     outputs := outputs p; processing_order := processing_order p;
     optimized_out := optimized_out p; optimized := l;
     configuration := configuration p |}.

(** ** Computations on the program *)

Inductive exn :=
  | runtime_error (what : string)
  | invalid_argument (what : string)
  | out_of_range.

Inductive outcome (A : Type) :=
  | Ok (a : A)
  | Throw (e : exn).
Arguments Ok {A} a.
Arguments Throw {A} e.

(** A member function: it runs on the program and either returns or throws,
    and in both cases leaves the program it has reached. *)
Definition M (A : Type) : Type := program → outcome A * program.

#[global] Instance M_ret : MRet M := λ A a p, (Ok a, p).

#[global] Instance M_bind : MBind M := λ A B f m p,
  match m p with
  | (Ok a, p') => f a p'
  | (Throw e, p') => (Throw e, p')
  end.

Definition throw {A} (e : exn) : M A := λ p, (Throw e, p).
Definition get_program : M program := λ p, (Ok p, p).
Definition modify (f : program → program) : M unit := λ p, (Ok tt, f p).

(** Reading through a [program_node&]: the referent is live by construction
    in the source; a dangling address has no behaviour to model and is
    reported as [out_of_range]. *)
Definition read_node (n : node_ptr) : M program_node := λ p,
  match nodes p !! n with
  | Some x => (Ok x, p)
  | None => (Throw out_of_range, p)
  end.

(** Writing through a [program_node&]. *)
Definition update_node (n : node_ptr) (f : program_node → program_node) : M unit :=
  modify (λ p, set_nodes (alter f n (nodes p)) p).

(** [for (auto& x : xs) body(x)] *)
Fixpoint for_each {A} (xs : list A) (body : A → M unit) : M unit :=
  match xs with
  | [] => mret tt
  | x :: rest => body x;; for_each rest body
  end.

(** [when_ c m]: [if (c) m;]. *)
Definition when_ (c : bool) (m : M unit) : M unit := if c then m else mret tt.

(** ** The processing order *)

(** Modelled from the spec: [nodes_ordering] (§4.4) is declared outside
    program.cpp.  It is a sequence of nodes, looked up by node, with
    [insert(before, n)], [insert_next(after, n)] and [erase(n)].  The spec
    does not say what a lookup of an absent node does; the model reports it
    as [out_of_range], in [erase] as in the two insertions, and no statement
    below depends on that case. *)
Module nodes_ordering.

Fixpoint insert_before (key n : node_ptr) (l : list node_ptr) : option (list node_ptr) :=
  match l with
  | [] => None
  | x :: rest =>
      if decide (x = key) then Some (n :: x :: rest)
      else cons x <$> insert_before key n rest
  end.

Fixpoint insert_after (key n : node_ptr) (l : list node_ptr) : option (list node_ptr) :=
  match l with
  | [] => None
  | x :: rest =>
      if decide (x = key) then Some (x :: n :: rest)
      else cons x <$> insert_after key n rest
  end.

Definition erase_node (n : node_ptr) (l : list node_ptr) : list node_ptr :=
  filter (λ x, x ≠ n) l.

Definition insert (key n : node_ptr) : M unit := λ p,
  match insert_before key n (processing_order p) with
  | Some l => (Ok tt, set_processing_order l p)
  | None => (Throw out_of_range, p)
  end.

Definition insert_next (key n : node_ptr) : M unit := λ p,
  match insert_after key n (processing_order p) with
  | Some l => (Ok tt, set_processing_order l p)
  | None => (Throw out_of_range, p)
  end.

Definition erase (n : node_ptr) : M unit := λ p,
  if bool_decide (n ∈ processing_order p) then
    (Ok tt, set_processing_order (erase_node n (processing_order p)) p)
  else (Throw out_of_range, p).

End nodes_ordering.

(** ** Structural operations *)

(** [std::list::remove] and the erase-remove idiom on a vector: every
    occurrence goes. *)
Definition remove_all (n : node_ptr) (l : list node_ptr) : list node_ptr :=
  filter (λ x, x ≠ n) l.

(** [program::add_connection] *)
Definition add_connection (prev next : node_ptr) : M unit :=
  update_node prev (λ n, set_users (users n ++ [next]) n);;
  update_node next (λ n, set_dependencies (dependencies n ++ [prev]) n).

(** [program::remove_connection] *)
Definition remove_connection (prev next : node_ptr) : M unit :=
  update_node prev (λ n, set_users (remove_all next (users n)) n);;
  update_node next (λ n, set_dependencies (remove_all prev (dependencies n)) n).

(** [std::map::emplace]: an existing binding wins. *)
Definition emplace (k : primitive_id) (v : node_ptr)
    (m : gmap primitive_id node_ptr) : gmap primitive_id node_ptr :=
  match m !! k with
  | Some _ => m
  | None => <[k := v]> m
  end.

(** [program::rename] *)
Definition rename (node : node_ptr) (new_id : primitive_id) : M unit :=
  p ← get_program;
  if bool_decide (is_Some (nodes_map p !! new_id)) then
    throw (runtime_error
      ("Trying to rename program_node but node with id " +:+ new_id +:+ " already exists"))
  else
    n ← read_node node;
    if output n then
      throw (invalid_argument
        "Trying to rename an output node. If you intend to do that, please clear 'output' flag manually.")
    else
      match nodes_map p !! node_id n with
      | None => mret tt
      | Some node_ptr =>
          modify (λ p, set_nodes_map
                         (delete (node_id n) (emplace new_id node_ptr (nodes_map p))) p);;
          update_node node (λ n, set_desc (with_id new_id (desc n)) n)
      end.

(** [program::swap_names]: [nodes_map.at] throws on an unbound id. *)
Definition swap_names (node1 node2 : node_ptr) : M unit :=
  n1 ← read_node node1;
  n2 ← read_node node2;
  p ← get_program;
  match nodes_map p !! node_id n1, nodes_map p !! node_id n2 with
  | Some x, Some y =>
      modify (λ p, set_nodes_map
                     (<[node_id n2 := x]> (<[node_id n1 := y]> (nodes_map p))) p);;
      update_node node1 (λ n, set_desc (with_id (node_id n2) (desc n)) n);;
      update_node node2 (λ n, set_desc (with_id (node_id n1) (desc n)) n)
  | _, _ => throw out_of_range
  end.

Section build.

(** [is_debug_build()]: fixed when the library is compiled. *)
Variable is_debug_build : bool.

(** [program::remove_if_dangling] *)
Definition remove_if_dangling (node : node_ptr) : M bool :=
  n ← read_node node;
  if negb (bool_decide (users n = [])) then mret false
  else if negb (bool_decide (dependencies n = [])) then mret false
  else
    when_ (negb (output n) || is_debug_build) (
      when_ (is_input n)
        (modify (λ p, set_inputs (remove_all node (inputs p)) p));;
      p ← get_program;
      when_ (bool_decide (node ∈ processing_order p))
        (nodes_ordering.erase node);;
      modify (λ p, set_optimized_out (optimized_out p ++ [node_id n]) p);;
      modify (λ p, set_nodes_map (delete (node_id n) (nodes_map p)) p));;
    mret true.

End build.

(** ** Output layouts *)

(** Two readings of [program_node::get_output_layout() const], whose body
    lies outside program.cpp: the accessor that refuses to hand out a layout
    that is not valid, and the one that returns what is stored. *)
Definition checked_output_layout (n : program_node) : outcome layout :=
  if valid_output_layout n then Ok (output_layout n)
  else Throw (runtime_error ("Output layout not calculated for " +:+ node_id n +:+ " node")).

Definition stored_output_layout (n : program_node) : outcome layout :=
  Ok (output_layout n).

Section layouts.

(** The layout inference of the primitive registry (§4.2), which belongs
    to the primitive kinds and not to the program. *)
Variable calc_output_layout : node_ptr → M layout.

(** Modelled from the spec: [program_node::get_output_layout()] is defined
    outside program.cpp.  Following §3, a node's [output_layout] carries a
    [valid] flag; a valid layout is returned as stored, an invalid one is
    first recomputed by layout inference and stored as valid. *)
Definition get_output_layout (node : node_ptr) : M layout :=
  n ← read_node node;
  if valid_output_layout n then mret (output_layout n)
  else
    l ← calc_output_layout node;
    update_node node (λ n,
      {| desc := desc n; dependencies := dependencies n; users := users n;
         output_layout := l; valid_output_layout := true;
         constant := constant n; data_flow := data_flow n;
         output := output n; user_mark := user_mark n;
         memory_dependencies := memory_dependencies n |});;
    mret l.

(** The loop [while (!old_node.dependencies.empty())] of [replace].  Each
    round removes the front dependency from [old_node], so the number of
    dependencies bounds the number of rounds; [fuel] is that bound. *)
Fixpoint copy_dependencies (fuel : nat) (old_node new_node : node_ptr) : M unit :=
  old ← read_node old_node;
  match dependencies old with
  | [] => mret tt
  | dep :: _ =>
      match fuel with
      | O => throw (runtime_error "copy_dependencies: bound exceeded")
      | S fuel' =>
          add_connection dep new_node;;
          remove_connection dep old_node;;
          copy_dependencies fuel' old_node new_node
      end
  end.

(** [for (auto& users_dep : user->dependencies) if (users_dep == &old_node)
    { users_dep = &new_node; break; }] *)
Fixpoint replace_first (old_node new_node : node_ptr) (l : list node_ptr) : list node_ptr :=
  match l with
  | [] => []
  | x :: rest =>
      if decide (x = old_node) then new_node :: rest
      else x :: replace_first old_node new_node rest
  end.

(** [program::replace] *)
Definition replace (old_node new_node : node_ptr) : M unit :=
  new ← read_node new_node;
  if negb (bool_decide (dependencies new = [])) || negb (bool_decide (users new = [])) then
    throw (invalid_argument "Node which is about to replace other node should be detached")
  else if output new then
    throw (invalid_argument
      "Replacement node shouldn't be marked as an output since it's impossible to rename such node.")
  else
    old ← read_node old_node;
    let id := node_id old in
    l ← get_output_layout old_node;
    old ← read_node old_node;
    update_node new_node (λ n,
      {| desc := desc n; dependencies := dependencies n; users := users n;
         output_layout := l; valid_output_layout := valid_output_layout old;
         constant := constant n; data_flow := data_flow n;
         output := output n; user_mark := user_mark n;
         memory_dependencies := memory_dependencies n |});;
    (* copy old's dependencies *)
    copy_dependencies (length (dependencies old)) old_node new_node;;
    (* append users *)
    old ← read_node old_node;
    for_each (users old) (λ user,
      update_node new_node (λ n, set_users (users n ++ [user]) n);;
      update_node user (λ u,
        set_dependencies (replace_first old_node new_node (dependencies u)) u));;
    update_node old_node (set_users []);;
    (* copy node's state *)
    old ← read_node old_node;
    let old_was_output := output old in
    when_ (output old) (
      update_node old_node (set_output false);;
      modify (λ p, set_outputs (remove_all old_node (outputs p)) p));;
    new ← read_node new_node;
    when_ (is_input new) (modify (λ p, set_inputs (inputs p ++ [new_node]) p));;
    old ← read_node old_node;
    when_ (is_input old) (modify (λ p, set_inputs (remove_all old_node (inputs p)) p));;
    update_node new_node (λ n,
      {| desc := with_origin (origin_op_name (desc old))
                             (origin_op_type_name (desc old)) (desc n);
         dependencies := dependencies n; users := users n;
         output_layout := output_layout n;
         valid_output_layout := valid_output_layout n;
         constant := constant old; data_flow := data_flow old;
         output := output n; user_mark := user_mark old;
         memory_dependencies := memory_dependencies n |});;
    nodes_ordering.insert old_node new_node;;
    p ← get_program;
    when_ (bool_decide (old_node ∈ processing_order p)) (nodes_ordering.erase old_node);;
    modify (λ p, set_nodes_map (delete id (nodes_map p)) p);;
    rename new_node id;;
    (* mark new node as an output after renaming *)
    when_ old_was_output (
      update_node new_node (set_output true);;
      modify (λ p, set_outputs (outputs p ++ [new_node]) p)).

End layouts.

(** ** Fusing: the dependencies a host inherits from its peer *)

(** The body of [if (q_node.get_scale_shift_opt())] in [fuse_nodes]:
    [can_drop_input] after its six [|=] updates, for peer input [i]. *)
Definition can_drop_input (q : quantize_fields) (i : nat) : bool :=
  let can_drop_input := false in
  let out_range_usage :=
    per_tensor_output_range q && SFltb (output_lo_val q) (output_hi_val q) in
  let can_drop_input := can_drop_input ||
    (((i =? 1)%nat || (i =? 2)%nat) &&
     (out_range_usage || (negb out_range_usage && negb (need_clamp q)))) in
  let can_drop_input := can_drop_input || ((i =? 3)%nat || (i =? 4)%nat) in
  let can_drop_input := can_drop_input ||
    ((i =? 5)%nat && per_tensor_input_scale q) in
  let can_drop_input := can_drop_input ||
    ((i =? 6)%nat && (negb (need_pre_shift q) || per_tensor_input_shift q)) in
  let can_drop_input := can_drop_input ||
    ((i =? 7)%nat && (negb (need_post_scale q) || per_tensor_output_scale q)) in
  let can_drop_input := can_drop_input ||
    ((i =? 8)%nat && (negb (need_post_shift q) || per_tensor_output_shift q)) in
  can_drop_input.

(** Whether the loop skips peer input [i] by the quantize rule. *)
Definition quantize_drops (peer : program_node) (i : nat) : bool :=
  match as_quantize (desc peer) with
  | Some q => scale_shift_opt q && can_drop_input q i
  | None => false
  end.

(** The loop [for (size_t i = 0; i < peer_node.get_dependencies().size(); i++)]
    of [fuse_nodes], from index [i] on; [deps] are the peer's dependencies
    still to visit.  It carries [local_desc.deps] and [deps_idx]. *)
Fixpoint add_peer_dependencies (fused_node : node_ptr) (peer : program_node)
    (i : nat) (deps : list node_ptr)
    (local_deps : list (primitive_id * nat)) (deps_idx : nat)
    : M (list (primitive_id * nat) * nat) :=
  match deps with
  | [] => mret (local_deps, deps_idx)
  | dep_ptr :: rest =>
      dep ← read_node dep_ptr;
      fused ← read_node fused_node;
      if bool_decide (node_id dep = node_id fused) then
        add_peer_dependencies fused_node peer (S i) rest local_deps (S deps_idx)
      else if quantize_drops peer i then
        add_peer_dependencies fused_node peer (S i) rest local_deps deps_idx
      else
        update_node fused_node (λ n, set_dependencies (dependencies n ++ [dep_ptr]) n);;
        update_node dep_ptr (λ n, set_users (users n ++ [fused_node]) n);;
        add_peer_dependencies fused_node peer (S i) rest
          (local_deps ++ [(node_id dep, deps_idx)]) (S deps_idx)
  end.

(** "Add new dependencies to the fused_node": lines 1100-1136 of
    [fuse_nodes], returning [local_desc.deps] and
    [local_desc.total_num_deps]. *)
Definition fuse_nodes_add_dependencies (fused_node peer_node : node_ptr)
    : M (list (primitive_id * nat) * nat) :=
  peer ← read_node peer_node;
  '(local_deps, deps_idx) ←
    add_peer_dependencies fused_node peer 0 (dependencies peer) [] 0%nat;
  mret (local_deps, Nat.min (length (dependencies peer)) deps_idx).

(** ** The optimized-out log *)

(** [std::find_if] followed by [erase(it)]: the first occurrence goes;
    [None] when there is none. *)
Fixpoint erase_first (x : primitive_id) (l : list primitive_id) : option (list primitive_id) :=
  match l with
  | [] => None
  | y :: rest =>
      if decide (x = y) then Some rest
      else cons y <$> erase_first x rest
  end.

Definition update_optimized_entry (optimized_primitive_id : primitive_id)
    (replaced_with_ids : list primitive_id)
    (e : primitive_id * list primitive_id) : primitive_id * list primitive_id :=
  match erase_first optimized_primitive_id e.2 with
  | Some second => (e.1, second ++ replaced_with_ids)
  | None => e
  end.

(** [program::add_optimized_primitive_info] *)
Definition add_optimized_primitive_info (optimized_primitive_id : primitive_id)
    (replaced_with_ids : list primitive_id) : M unit :=
  modify (λ p,
    set_optimized
      (map (update_optimized_entry optimized_primitive_id replaced_with_ids) (optimized p)
       ++ [(optimized_primitive_id, replaced_with_ids)]) p).

(** ** Inference precision *)

Section precision.

(** [data_type_traits::max_type] and [data_type_traits::is_quantized]
    (§4.11), declared with the layouts. *)
Variable max_type : data_types → data_types → data_types.
Variable is_quantized : data_types → bool.

(** [node.get_output_layout()] on a [const program_node&]: the accessor of
    [program_node], taken as given. *)
Variable get_output_layout_const : program_node → outcome layout.

(** The first loop of [get_inference_precision]: the types of the
    dependencies whose layout is valid. *)
Fixpoint valid_input_types (p : program) (deps : list node_ptr) : outcome (list data_types) :=
  match deps with
  | [] => Ok []
  | dep_ptr :: rest =>
      match nodes p !! dep_ptr with
      | None => Throw out_of_range
      | Some dep =>
          match valid_input_types p rest with
          | Throw e => Throw e
          | Ok dts =>
              if valid_output_layout dep then Ok (data_type (output_layout dep) :: dts)
              else Ok dts
          end
      end
  end.

(** The per-kind rules, reached once every layout is known to be valid. *)
Definition precision_by_kind (n : program_node) (input_dts : list data_types)
    (output_dt : data_types) : outcome data_types :=
  match input_dts with
  | [] => Throw out_of_range
  | dt0 :: others =>
      if is_type t_reorder (desc n) then Ok (max_type dt0 output_dt)
      else if is_type t_quantize (desc n) then
        if is_quantized output_dt then Ok output_dt
        else Ok (max_type dt0 output_dt)
      else if is_type t_eltwise (desc n) then Ok (foldl max_type dt0 others)
      else if is_type t_convolution (desc n) || is_type t_deconvolution (desc n)
              || is_type t_fully_connected (desc n) || is_type t_gemm (desc n) then
        match others with
        | [] => Throw (runtime_error
                  ("[clDNN] Invalid inputs count in node " +:+ node_id n +:+
                   " during stage info collection. Expected >= 2 inputs"))
        | dt1 :: _ =>
            if is_quantized dt0 && is_quantized dt1 then Ok dt0
            else Ok (max_type dt0 dt1)
        end
      else Ok dt0
  end.

(** [program::get_inference_precision], a [const] member: it reads the
    program and returns or throws. *)
Definition get_inference_precision (p : program) (node : node_ptr) : outcome data_types :=
  match nodes p !! node with
  | None => Throw out_of_range
  | Some n =>
      if is_input n then
        match get_output_layout_const n with
        | Ok l => Ok (data_type l)
        | Throw e => Throw e
        end
      else
        match valid_input_types p (dependencies n) with
        | Throw e => Throw e
        | Ok input_dts =>
            if negb (length input_dts =? length (dependencies n))%nat
               || negb (valid_output_layout n) then Ok f32
            else
              match get_output_layout_const n with
              | Throw e => Throw e
              | Ok l => precision_by_kind n input_dts (data_type l)
              end
        end
  end.

End precision.

(** ** Output-size handling analysis *)

(** [swor_mode] of sliding_window_utils.hpp. *)
Inductive swor_mode := swor_all | swor_exceed_once | swor_any | swor_exceed_once_data.

(** [get_dependency(idx)] is [*dependencies.at(idx)]. *)
Definition get_dependency (node : node_ptr) (idx : nat) : M node_ptr :=
  n ← read_node node;
  match dependencies n !! idx with
  | Some d => mret d
  | None => throw out_of_range
  end.

(** [{0, 0, output_size.spatial[0], output_size.spatial[1],
    output_size.spatial[2]}, 1]. *)
Definition specified_output_range (output_size : tensor) : tensor :=
  tensor_of_sizes [0; 0; tensor_spatial output_size 0; tensor_spatial output_size 1;
                   tensor_spatial output_size 2] 1.

(** The pooling window as a tensor: [tensor size(1)] with
    [size.spatial[i] = prim->size[prim->size.size() - i - 1]]. *)
Fixpoint pooling_window_from (i : nat) (reversed : list Z) (t : tensor) : tensor :=
  match reversed with
  | [] => t
  | v :: rest => pooling_window_from (S i) rest (tensor_set_spatial t i v)
  end.

Definition pooling_window (prim_size : list Z) : tensor :=
  pooling_window_from 0 (rev prim_size) (tensor_of_sizes [] 1).

Section analysis.

Variable calc_output_layout : node_ptr → M layout.

(** The calculators of sliding_window_utils.hpp (§4.1), with the argument
    order of the source: input size, filter size, pad, stride, dilation,
    [sym_pad], [degen_val]. *)
Variable calc_sliding_window_output_range :
  swor_mode → tensor → tensor → list Z → list Z → list Z → bool → Z → tensor.
Variable calc_sliding_window_needed_input_range :
  tensor → tensor → list Z → list Z → list Z → bool → Z → tensor.

(** The position of [weights(0)] among the dependencies, fixed by the
    typed node classes. *)
Variable weights_index : primitive → nat.

(** [prim_node.weights(0).get_output_layout().get_tensor()] *)
Definition filter_size_of (node : node_ptr) (d : primitive) : M tensor :=
  w ← get_dependency node (weights_index d);
  l ← get_output_layout calc_output_layout w;
  mret (size l).

(** [prim_node.input().get_output_layout().get_tensor()] *)
Definition input_size_of (node : node_ptr) : M tensor :=
  i ← get_dependency node 0;
  l ← get_output_layout calc_output_layout i;
  mret (size l).

(** One round of the loop of [analyze_output_size_handling_need]: whether
    it raises [handling_needed]. *)
Definition output_size_mismatch (node : node_ptr) : M bool :=
  n ← read_node node;
  match as_convolution (desc n) with
  | Some prim =>
      if negb (conv_with_output_size prim) then mret false
      else
        filter_size ← filter_size_of node (desc n);
        inputSize ← input_size_of node;
        let calc_output_range :=
          calc_sliding_window_output_range swor_all inputSize filter_size
            (conv_pad prim) (conv_stride prim) (conv_dilation prim) true 1 in
        mret (bool_decide (specified_output_range (conv_output_size prim) ≠ calc_output_range))
  | None =>
  match as_binary_convolution (desc n) with
  | Some prim =>
      filter_size ← filter_size_of node (desc n);
      primInputSize ← input_size_of node;
      let calc_output_range :=
        calc_sliding_window_output_range swor_all primInputSize filter_size
          (bconv_pad prim) (bconv_stride prim) (bconv_dilation prim) true 1 in
      mret (bool_decide (specified_output_range (bconv_output_size prim) ≠ calc_output_range))
  | None =>
  match as_deconvolution (desc n) with
  | Some prim =>
      if negb (deconv_with_output_size prim) then mret false
      else
        filter_size ← filter_size_of node (desc n);
        primInputSize ← input_size_of node;
        let calc_output_range :=
          calc_sliding_window_needed_input_range primInputSize filter_size
            (deconv_pad prim) (deconv_stride prim)
            (replicate (length (deconv_stride prim)) 1) true 1 in
        mret (bool_decide (specified_output_range (deconv_output_size prim) ≠ calc_output_range))
  | None =>
  match as_pooling (desc n) with
  | Some prim =>
      if negb (pool_with_output_size prim) then mret false
      else
        let size := pooling_window (pool_size prim) in
        primInputSize ← input_size_of node;
        let calc_output_range :=
          calc_sliding_window_output_range swor_exceed_once_data primInputSize size
            (pool_pad prim) (pool_stride prim)
            (replicate (length (pool_stride prim)) 1) true 1 in
        mret (bool_decide (specified_output_range (pool_output_size prim) ≠ calc_output_range))
  | None => mret false
  end end end end.

Fixpoint analyze_loop (order : list node_ptr) (handling_needed : bool) : M bool :=
  match order with
  | [] => mret handling_needed
  | node :: rest =>
      output_size_mismatch node ≫= λ mismatch : bool,
      analyze_loop rest (if mismatch then true else handling_needed)
  end.

(** [program::analyze_output_size_handling_need] *)
Definition analyze_output_size_handling_need : M bool :=
  p ← get_program;
  analyze_loop (processing_order p) false.

End analysis.

(** ** Memory dependencies *)

Section passes.

(** The three passes, each [run] through the pass manager; what they do to
    the program is theirs to define. *)
Variables basic_memory_dependencies skipped_branch_memory_dependencies
          oooq_memory_dependencies : M unit.

(** [apply_opt_pass<Pass>()] hands the pass to the pass manager, which
    runs it on this program. *)
Definition apply_opt_pass (pass : M unit) : M unit := pass.

(** [program::prepare_memory_dependencies] *)
Definition prepare_memory_dependencies : M unit :=
  p ← get_program;
  if negb (use_memory_pool (configuration p)) then mret tt
  else
    apply_opt_pass basic_memory_dependencies;;
    apply_opt_pass skipped_branch_memory_dependencies;;
    apply_opt_pass oooq_memory_dependencies.

End passes.

(** ** Layout optimizer attributes *)

(** [layout_optimizer::optimization_attributes_type] *)
Inductive optimization_attributes_type :=
  | splitted_convolution | group_convolution | deformable_convolution
  | bfyx_only_layer | fs_b_yx_fsv32_network | b_fs_zyx_fsv32_network
  | b_fs_yx_fsv16_network | b_fs_zyx_fsv16_network
  | bs_fs_yx_bsv16_fsv16_network | use_onednn_impls.

#[global] Instance optimization_attributes_type_eq_dec :
  EqDecision optimization_attributes_type.
Proof. solve_decision. Defined.

(** [size_t] and [uint32_t] arithmetic. *)
Definition size_t_modulus : Z := 2 ^ 64.
Definition size_t_incr (x : Z) : Z := (x + 1) mod size_t_modulus.
Definition size_t_mul (x y : Z) : Z := (x * y) mod size_t_modulus.
Definition to_uint32 (x : Z) : Z := x mod 2 ^ 32.

(** Single-precision values: [static_cast<float>] of a [size_t] rounds to
    nearest even, as do [*] and [/]. *)
Definition f32_of_size_t (n : Z) : spec_float := binary_normalize 24 128 n 0 false.
Definition f32_1_0 : spec_float := S754_finite false 8388608 (-23).
Definition f32_0_5 : spec_float := S754_finite false 8388608 (-24).
Definition f32_0_8 : spec_float := S754_finite false 13421773 (-24).
Definition f32_mul : spec_float → spec_float → spec_float := SFmul 24 128.
Definition f32_div : spec_float → spec_float → spec_float := SFdiv 24 128.

(** [total_conv_layers > 0 ? 1.0f / static_cast<float>(total_conv_layers) : 1.0f] *)
Definition cond_denom (total_conv_layers : Z) : spec_float :=
  if 0 <? total_conv_layers then f32_div f32_1_0 (f32_of_size_t total_conv_layers)
  else f32_1_0.

(** The counters and flags [set_layout_optimizer_attributes] accumulates in
    its pass over the processing order. *)
Record topology_counters := mk_counters {
  can_use_fsv16 : bool;
  can_use_bs_fs_yx_bsv16_fsv16 : bool;
  is_quantized_int8_model : bool;
  total_asym_quantized_conv_layers : Z;
  total_dw_conv_layers : Z;
  total_dw_splitted_conv_layers : Z;
  total_1x1_fm_conv_layers : Z;
  total_grouped_conv_layers : Z;
  opt_deconv_layers_b_fs_zyx_fsv16 : Z;
  opt_deconv_layers_b_fs_yx_fsv16 : Z;
  total_crop_layers : Z
}.

Definition initial_counters : topology_counters :=
  {| can_use_fsv16 := true; can_use_bs_fs_yx_bsv16_fsv16 := true;
     is_quantized_int8_model := false;
     total_asym_quantized_conv_layers := 0; total_dw_conv_layers := 0;
     total_dw_splitted_conv_layers := 0; total_1x1_fm_conv_layers := 0;
     total_grouped_conv_layers := 0; opt_deconv_layers_b_fs_zyx_fsv16 := 0;
     opt_deconv_layers_b_fs_yx_fsv16 := 0; total_crop_layers := 0 |}.

(** [prim.type() != A::type_id() && prim.type() != B::type_id() && ...] *)
Definition type_is_none_of (ts : list primitive_type_id) (d : primitive) : bool :=
  forallb (λ t, negb (is_type t d)) ts.
#[global] Arguments type_is_none_of : simpl never.

(** The kinds tested before and after the [mvn] clause of the
    [can_use_fsv16] condition, in source order. *)
Definition fsv16_kinds_before_mvn : list primitive_type_id :=
  [t_convolution; t_deconvolution; t_activation; t_pooling; t_eltwise;
   t_permute; t_reshape; t_detection_output; t_binary_convolution;
   t_quantize; t_custom_gpu_primitive; t_concatenation; t_fully_connected;
   t_reorder; t_input_layout; t_softmax; t_prior_box; t_border; t_resample;
   t_crop; t_depth_to_space; t_shuffle_channels].

Definition fsv16_kinds_after_mvn : list primitive_type_id :=
  [t_arg_max_min; t_dft; t_mutable_data; t_reduce; t_strided_slice;
   t_region_yolo; t_normalize; t_mvn; t_gather; t_scatter_nd_update;
   t_broadcast; t_ctc_loss; t_non_max_suppression; t_roi_align;
   t_adaptive_pooling; t_bucketize; t_roll; t_prior_box; t_resample; t_eye;
   t_generate_proposals; t_reverse; t_reorg_yolo; t_scatter_elements_update;
   t_experimental_detectron_detection_output].

Definition bsv16_fsv16_kinds : list primitive_type_id :=
  [t_convolution; t_pooling; t_eltwise; t_reorder; t_permute; t_reshape;
   t_input_layout; t_activation; t_dft; t_softmax; t_fully_connected;
   t_generic_layer; t_scatter_nd_update; t_broadcast; t_quantize; t_ctc_loss;
   t_non_max_suppression; t_roi_align; t_adaptive_pooling; t_bucketize;
   t_roll; t_resample; t_prior_box; t_eye; t_generate_proposals; t_reverse;
   t_reorg_yolo; t_scatter_elements_update;
   t_experimental_detectron_detection_output; t_deconvolution].

Definition bfyx_only_kinds : list primitive_type_id :=
  [t_detection_output; t_proposal; t_roi_pooling; t_deconvolution; t_resample;
   t_reorg_yolo].

Section layout_optimizer.

Variable calc_output_layout : node_ptr → M layout.

(** The tables of [layout_optimizer] besides its attributes (format map,
    convolution counts, forcing map); the class is declared outside
    program.cpp. *)
Variable lo_tables : Type.

(** Modelled from the spec: [layout_optimizer] (§4.8) "maintains per-format
    boolean attributes"; they are kept apart from its other tables. *)
Record layout_optimizer := mk_layout_optimizer {
  optimization_attributes : optimization_attributes_type → Z;
  tables : lo_tables
}.

(** [lo.set_optimization_attribute(attribute, val)] *)
Definition set_optimization_attribute (attribute : optimization_attributes_type)
    (val : Z) (lo : layout_optimizer) : layout_optimizer :=
  {| optimization_attributes := λ a,
       if decide (a = attribute) then val else optimization_attributes lo a;
     tables := tables lo |}.

(** The members of [layout_optimizer] the program calls.  The first two
    rewrite its tables; the others are queries on the optimizer and the
    graph. *)
Variable set_implementation_forcing : lo_tables → lo_tables.
Variable update_formats_map : layout_optimizer → program → node_ptr → lo_tables.
Variable is_format_optimized : layout_optimizer → program → node_ptr → format → bool.
Variable is_format_supported : layout_optimizer → program → node_ptr → format → bool.
Variable get_total_conv_count : lo_tables → Z.
Variable get_optimized_conv_count : lo_tables → format * bool → Z.

(** Whether the build defines [ENABLE_ONEDNN_FOR_GPU] and the device
    supports it with an in-order queue. *)
Variable onednn_available : bool.

Definition set_tables (t : lo_tables) (lo : layout_optimizer) : layout_optimizer :=
  {| optimization_attributes := optimization_attributes lo; tables := t |}.

Definition set_attribute_if (c : bool) (attribute : optimization_attributes_type)
    (lo : layout_optimizer) : layout_optimizer :=
  if c then set_optimization_attribute attribute 1 lo else lo.

(** The three attributes a convolution can raise. *)
Definition convolution_attributes (conv : convolution_prim)
    (lo : layout_optimizer) : layout_optimizer :=
  let lo := set_attribute_if (1 <? conv_split conv) splitted_convolution lo in
  let lo := set_attribute_if (1 <? conv_groups conv) group_convolution lo in
  set_attribute_if (conv_deformable_mode conv) deformable_convolution lo.

(** The counters a convolution updates, given the size of its input. *)
Definition count_convolution (conv : convolution_prim) (input_size : tensor)
    (c : topology_counters) : topology_counters :=
  let ifm := to_uint32 (tensor_feature input_size 0) in
  let dw := (conv_groups conv =? ifm) && (16 <=? conv_groups conv) in
  let dw_splitted := (conv_groups conv =? ifm) && (conv_groups conv <? 16) in
  let grouped := (1 <? conv_groups conv) || (1 <? conv_split conv) in
  let one_by_one :=
    (tensor_spatial input_size 0 =? 1) && (tensor_spatial input_size 1 =? 1) in
  let asym := conv_weights_zero_points_term conv
              || conv_activations_zero_points_term conv in
  {| can_use_fsv16 := can_use_fsv16 c;
     can_use_bs_fs_yx_bsv16_fsv16 := can_use_bs_fs_yx_bsv16_fsv16 c;
     is_quantized_int8_model := is_quantized_int8_model c;
     total_asym_quantized_conv_layers :=
       if asym then size_t_incr (total_asym_quantized_conv_layers c)
       else total_asym_quantized_conv_layers c;
     total_dw_conv_layers :=
       if dw then size_t_incr (total_dw_conv_layers c) else total_dw_conv_layers c;
     total_dw_splitted_conv_layers :=
       if dw then total_dw_splitted_conv_layers c
       else if dw_splitted then size_t_incr (total_dw_splitted_conv_layers c)
       else total_dw_splitted_conv_layers c;
     total_1x1_fm_conv_layers :=
       if one_by_one then size_t_incr (total_1x1_fm_conv_layers c)
       else total_1x1_fm_conv_layers c;
     total_grouped_conv_layers :=
       if dw then total_grouped_conv_layers c
       else if dw_splitted then total_grouped_conv_layers c
       else if grouped then size_t_incr (total_grouped_conv_layers c)
       else total_grouped_conv_layers c;
     opt_deconv_layers_b_fs_zyx_fsv16 := opt_deconv_layers_b_fs_zyx_fsv16 c;
     opt_deconv_layers_b_fs_yx_fsv16 := opt_deconv_layers_b_fs_yx_fsv16 c;
     total_crop_layers := total_crop_layers c |}.

(** [if (prim.type() == cldnn::convolution::type_id()) { ... }] *)
Definition scan_convolution (node : node_ptr) (conv : convolution_prim)
    (st : layout_optimizer * topology_counters)
    : M (layout_optimizer * topology_counters) :=
  let '(lo, c) := st in
  let lo := convolution_attributes conv lo in
  input ← get_dependency node 0;
  l ← get_output_layout calc_output_layout input;
  let input_size := size l in
  p ← get_program;
  let lo := set_tables (update_formats_map lo p node) lo in
  mret (lo, count_convolution conv input_size c).

(** The [mvn] clause of the [can_use_fsv16] condition; it reads the layout
    of the node's input only for an [mvn] node. *)
Definition mvn_clause (node : node_ptr) (n : program_node) : M bool :=
  match as_mvn (desc n) with
  | None => mret true
  | Some prim =>
      input ← get_dependency node 0;
      l ← get_output_layout calc_output_layout input;
      if bool_decide (data_type l ≠ u8) then
        input ← get_dependency node 0;
        l ← get_output_layout calc_output_layout input;
        mret (bool_decide (data_type l ≠ i8) || mvn_across_channels prim)
      else mret (mvn_across_channels prim)
  end.

(** The condition under which the loop clears [can_use_fsv16]. *)
Definition blocks_fsv16 (node : node_ptr) (n : program_node) : M bool :=
  if data_flow n && type_is_none_of fsv16_kinds_before_mvn (desc n) then
    mvn_clause node n ≫= λ clause : bool,
    mret (clause && type_is_none_of fsv16_kinds_after_mvn (desc n))
  else mret false.

(** [prim.type() == quantize && (dt == i8 || dt == u8)] on the node's own
    output layout. *)
Definition is_int8_quantize (node : node_ptr) (n : program_node) : M bool :=
  if is_type t_quantize (desc n) then
    l ← get_output_layout calc_output_layout node;
    if bool_decide (data_type l = i8) then mret true
    else
      l ← get_output_layout calc_output_layout node;
      mret (bool_decide (data_type l = u8))
  else mret false.

(** The counters every node updates, given the verdicts of the tests made
    on it. *)
Definition count_node (n : program_node) (zyx yx no_fsv16 int8 : bool)
    (c : topology_counters) : topology_counters :=
  let no_bsv16 := data_flow n && type_is_none_of bsv16_fsv16_kinds (desc n) in
  {| can_use_fsv16 := if no_fsv16 then false else can_use_fsv16 c;
     can_use_bs_fs_yx_bsv16_fsv16 :=
       if no_bsv16 then false else can_use_bs_fs_yx_bsv16_fsv16 c;
     is_quantized_int8_model := if int8 then true else is_quantized_int8_model c;
     total_asym_quantized_conv_layers := total_asym_quantized_conv_layers c;
     total_dw_conv_layers := total_dw_conv_layers c;
     total_dw_splitted_conv_layers := total_dw_splitted_conv_layers c;
     total_1x1_fm_conv_layers := total_1x1_fm_conv_layers c;
     total_grouped_conv_layers := total_grouped_conv_layers c;
     opt_deconv_layers_b_fs_zyx_fsv16 :=
       if zyx then size_t_incr (opt_deconv_layers_b_fs_zyx_fsv16 c)
       else opt_deconv_layers_b_fs_zyx_fsv16 c;
     opt_deconv_layers_b_fs_yx_fsv16 :=
       if yx then size_t_incr (opt_deconv_layers_b_fs_yx_fsv16 c)
       else opt_deconv_layers_b_fs_yx_fsv16 c;
     total_crop_layers :=
       if is_type t_crop (desc n) then size_t_incr (total_crop_layers c)
       else total_crop_layers c |}.

(** The two deconvolution tests: optimized for b_fs_zyx_fsv16, else
    supported in b_fs_yx_fsv16. *)
Definition deconvolution_zyx (lo : layout_optimizer) (p : program)
    (node : node_ptr) (n : program_node) : bool :=
  is_type t_deconvolution (desc n) && is_format_optimized lo p node b_fs_zyx_fsv16.

Definition deconvolution_yx (lo : layout_optimizer) (p : program)
    (node : node_ptr) (n : program_node) : bool :=
  is_type t_deconvolution (desc n) && negb (deconvolution_zyx lo p node n)
  && is_format_supported lo p node b_fs_yx_fsv16.

(** The body of the loop over the processing order. *)
Definition scan_node (node : node_ptr) (st : layout_optimizer * topology_counters)
    : M (layout_optimizer * topology_counters) :=
  n ← read_node node;
  st ← match as_convolution (desc n) with
       | Some conv => scan_convolution node conv st
       | None => mret st
       end;
  let '(lo, c) := st in
  p ← get_program;
  let zyx := deconvolution_zyx lo p node n in
  let yx := deconvolution_yx lo p node n in
  let lo := set_attribute_if (negb (type_is_none_of bfyx_only_kinds (desc n)))
              bfyx_only_layer lo in
  blocks_fsv16 node n ≫= λ no_fsv16 : bool,
  is_int8_quantize node n ≫= λ int8 : bool,
  mret (lo, count_node n zyx yx no_fsv16 int8 c).

Fixpoint scan_nodes (order : list node_ptr) (st : layout_optimizer * topology_counters)
    : M (layout_optimizer * topology_counters) :=
  match order with
  | [] => mret st
  | node :: rest => st ← scan_node node st; scan_nodes rest st
  end.

(** [should_use_b_fs_yx_fsv16_conv] *)
Definition should_use_b_fs_yx_fsv16_conv (lo : layout_optimizer)
    (c : topology_counters) : bool :=
  let total_conv_layers := get_total_conv_count (tables lo) in
  let cond_denom := cond_denom total_conv_layers in
  let num_of_conv_b_fs_yx_fsv16 :=
    get_optimized_conv_count (tables lo) (b_fs_yx_fsv16, false) in
  is_quantized_int8_model c ||
  (can_use_fsv16 c &&
   (11 <? total_conv_layers) &&
   (SFltb f32_0_5 (f32_mul (f32_of_size_t num_of_conv_b_fs_yx_fsv16) cond_denom)
    || (1 <=? opt_deconv_layers_b_fs_yx_fsv16 c)) &&
   (total_crop_layers c <? size_t_mul num_of_conv_b_fs_yx_fsv16 2)).

(** [should_use_fs_b_yx_fsv32_conv] *)
Definition should_use_fs_b_yx_fsv32_conv (lo : layout_optimizer)
    (c : topology_counters) : bool :=
  let total_conv_layers := get_total_conv_count (tables lo) in
  (11 <? total_conv_layers) &&
  (total_grouped_conv_layers c =? 0) &&
  SFltb (f32_mul (f32_of_size_t (total_1x1_fm_conv_layers c))
           (cond_denom total_conv_layers)) f32_0_8.

(** [should_use_bs_fs_yx_bsv16_fsv16] *)
Definition should_use_bs_fs_yx_bsv16_fsv16 (lo : layout_optimizer)
    (c : topology_counters) : bool :=
  let total_conv_layers := get_total_conv_count (tables lo) in
  can_use_bs_fs_yx_bsv16_fsv16 c &&
  (11 <? total_conv_layers) &&
  (total_conv_layers =? get_optimized_conv_count (tables lo) (bs_fs_yx_bsv16_fsv16, false)) &&
  (total_grouped_conv_layers c =? 0) &&
  (total_dw_splitted_conv_layers c =? 0) &&
  (total_dw_conv_layers c =? 0).

(** The decisions taken after the loop. *)
Definition apply_decisions (lo : layout_optimizer) (c : topology_counters)
    : layout_optimizer :=
  let fsv32 := should_use_fs_b_yx_fsv32_conv lo c in
  let zyx_fsv32 := 1 <? total_asym_quantized_conv_layers c in
  let fsv16 := should_use_b_fs_yx_fsv16_conv lo c in
  let bsv16 := should_use_bs_fs_yx_bsv16_fsv16 lo c in
  let lo := set_attribute_if fsv32 fs_b_yx_fsv32_network lo in
  let lo := set_attribute_if zyx_fsv32 b_fs_zyx_fsv32_network lo in
  let lo := set_attribute_if fsv16 b_fs_yx_fsv16_network lo in
  let lo := set_attribute_if
              ((1 <=? get_optimized_conv_count (tables lo) (b_fs_zyx_fsv16, false))
               || (1 <=? opt_deconv_layers_b_fs_zyx_fsv16 c))
              b_fs_zyx_fsv16_network lo in
  let lo := set_attribute_if bsv16 bs_fs_yx_bsv16_fsv16_network lo in
  set_attribute_if onednn_available use_onednn_impls lo.

(** [program::set_layout_optimizer_attributes]; the optimizer is the
    caller's object, passed by reference. *)
Definition set_layout_optimizer_attributes (lo : layout_optimizer)
    : M layout_optimizer :=
  let lo := set_tables (set_implementation_forcing (tables lo)) lo in
  p ← get_program;
  '(lo, c) ← scan_nodes (processing_order p) (lo, initial_counters);
  mret (apply_decisions lo c).

End layout_optimizer.

(** ** Paths in the graph *)

(** [reaches p a b]: [b] can be reached from [a] along user edges. *)
Inductive reaches (p : program) : node_ptr → node_ptr → Prop :=
  | reaches_refl a : reaches p a a
  | reaches_step a b c na :
      nodes p !! a = Some na → b ∈ users na → reaches p b c → reaches p a c.

(** A new edge [u → v] closes a cycle when [u] can already be reached from
    [v]. *)
Definition would_create_cycle (p : program) (u v : node_ptr) : Prop :=
  reaches p v u.

(** Some node lies on a cycle of user edges. *)
Definition has_cycle (p : program) : Prop :=
  ∃ a b na, nodes p !! a = Some na ∧ b ∈ users na ∧ reaches p b a.

(** ** Vocabulary of the statements *)

(** Whether some entry of the log names, among its survivors, an id that the
    log records as optimized out. *)
Definition lists_optimized_id (log : list (primitive_id * list primitive_id)) : Prop :=
  ∃ e x, e ∈ log ∧ x ∈ e.2 ∧ x ∈ log.*1.


(** The drop table of the quantize peer (§4.10.1), in the words of the
    specification: input [i] of the peer is dropped when one of these
    holds. *)
Definition output_range_in_use (q : quantize_fields) : Prop :=
  per_tensor_output_range q = true ∧ SFltb (output_lo_val q) (output_hi_val q) = true.

Definition drop_table (q : quantize_fields) (i : nat) : Prop :=
  ((i = 1 ∨ i = 2)%nat ∧ (output_range_in_use q ∨ need_clamp q = false)) ∨
  (i = 3 ∨ i = 4)%nat ∨
  (i = 5%nat ∧ per_tensor_input_scale q = true) ∨
  (i = 6%nat ∧ (per_tensor_input_shift q = true ∨ need_pre_shift q = false)) ∨
  (i = 7%nat ∧ (per_tensor_output_scale q = true ∨ need_post_scale q = false)) ∨
  (i = 8%nat ∧ (per_tensor_output_shift q = true ∨ need_post_shift q = false)).

#[global] Instance drop_table_dec q i : Decision (drop_table q i).
Proof. unfold drop_table, output_range_in_use. apply _. Defined.

(** Peer input [i], the node [d], goes to the host: it is not the host
    itself (by id) and the table does not drop it. *)
Definition is_transferred (p : program) (host_id : primitive_id)
    (q : quantize_fields) (x : nat * node_ptr) : Prop :=
  (node_id <$> nodes p !! x.2) ≠ Some host_id ∧ ¬ drop_table q x.1.

#[global] Instance is_transferred_dec p host_id q x :
  Decision (is_transferred p host_id q x).
Proof. unfold is_transferred. apply _. Defined.

(** The peer's dependencies that go to the host, in their order. *)
Definition transferred_dependencies (p : program) (host_id : primitive_id)
    (q : quantize_fields) (deps : list node_ptr) : list node_ptr :=
  (filter (is_transferred p host_id q) (imap pair deps)).*2.

(** One transferred dependency: the edge host <- d in both lists. *)
Definition push_edge (fused_node : node_ptr) (m : gmap node_ptr program_node)
    (d : node_ptr) : gmap node_ptr program_node :=
  alter (λ n, set_users (users n ++ [fused_node]) n) d
    (alter (λ n, set_dependencies (dependencies n ++ [d]) n) fused_node m).

(** How often [x] occurs in [l]. *)
Definition occurrences (x : node_ptr) (l : list node_ptr) : nat :=
  length (filter (λ y, y = x) l).

(** The words of §4.6.  A node of one of the four kinds declares a desired
    output size when its descriptor says so; a binary convolution always
    carries one. *)
Definition declares_output_size (d : primitive) : bool :=
  match as_convolution d with
  | Some prim => conv_with_output_size prim
  | None =>
  match as_binary_convolution d with
  | Some _ => true
  | None =>
  match as_deconvolution d with
  | Some prim => deconv_with_output_size prim
  | None =>
  match as_pooling d with
  | Some prim => pool_with_output_size prim
  | None => false
  end end end end.

(** The declared output range of a declared output size: it starts at 0 in
    batch and feature, has the declared extents in x, y and z, and 1 in every
    further extent. *)
Definition declared_range (output_size : tensor) : tensor :=
  [0; 0; tensor_spatial output_size 0; tensor_spatial output_size 1;
   tensor_spatial output_size 2; 1; 1; 1].

(** The output range the descriptor declares. *)
Definition declared_output_range (d : primitive) : option tensor :=
  match as_convolution d with
  | Some prim => Some (declared_range (conv_output_size prim))
  | None =>
  match as_binary_convolution d with
  | Some prim => Some (declared_range (bconv_output_size prim))
  | None =>
  match as_deconvolution d with
  | Some prim => Some (declared_range (deconv_output_size prim))
  | None =>
  match as_pooling d with
  | Some prim => Some (declared_range (pool_output_size prim))
  | None => None
  end end end end.

(** The pooling window as a shape: batch and feature 1, and spatial extent
    [i] the [i]-th window size counted from the last one, 1 where the
    descriptor gives none. *)
Definition window_shape (prim_size : list Z) : tensor :=
  [1; 1] ++ ((λ i, default 1 (rev prim_size !! i)) <$> seq 0 6).

(** The shape currently stored for dependency [idx] of a node, when that
    dependency exists and its layout is valid. *)
Definition current_shape (p : program) (n : program_node) (idx : nat) : option tensor :=
  d ← dependencies n !! idx;
  nd ← nodes p !! d;
  if valid_output_layout nd then Some (size (output_layout nd)) else None.

(** A node with its layout marked valid or not. *)
Definition set_valid_output_layout (b : bool) (n : program_node) : program_node :=
  {| desc := desc n; dependencies := dependencies n; users := users n;
     output_layout := output_layout n; valid_output_layout := b;
     constant := constant n; data_flow := data_flow n;
     output := output n; user_mark := user_mark n;
     memory_dependencies := memory_dependencies n |}.

(** A node once layout inference has given it the layout [l]. *)
Definition with_layout (l : layout) (n : program_node) : program_node :=
  {| desc := desc n; dependencies := dependencies n; users := users n;
     output_layout := l; valid_output_layout := true;
     constant := constant n; data_flow := data_flow n;
     output := output n; user_mark := user_mark n;
     memory_dependencies := memory_dependencies n |}.

Section expected_range.

(** The layout that layout inference gives for a node of the graph. *)
Variable inferred_layout : node_ptr → layout.

Variable calc_sliding_window_output_range :
  swor_mode → tensor → tensor → list Z → list Z → list Z → bool → Z → tensor.
Variable calc_sliding_window_needed_input_range :
  tensor → tensor → list Z → list Z → list Z → bool → Z → tensor.
Variable weights_index : primitive → nat.

(** The layout a node has: the stored one when it is valid, else the one
    layout inference gives. *)
Definition layout_of (p : program) (d : node_ptr) : option layout :=
  nd ← nodes p !! d;
  Some (if valid_output_layout nd then output_layout nd else inferred_layout d).

(** The current shape of dependency [idx] of a node, when that dependency
    exists. *)
Definition shape_of (p : program) (n : program_node) (idx : nat) : option tensor :=
  d ← dependencies n !! idx;
  size <$> layout_of p d.

(** [p'] is [p] with some layouts settled: a node whose layout was not valid
    may have received its inferred layout; nothing else differs. *)
Definition layouts_settled (p p' : program) : Prop :=
  p' = set_nodes (nodes p') p ∧
  ∀ x, nodes p' !! x = nodes p !! x ∨
       ∃ n, nodes p !! x = Some n ∧ valid_output_layout n = false ∧
            nodes p' !! x = Some (with_layout (inferred_layout x) n).

(** The range the sliding-window calculators give for the node, over the
    current input and filter shapes: mode [all] for the two convolutions,
    the needed input range for a deconvolution, mode [exceed_once_data]
    over the pooling window for a pooling. *)
Definition computed_output_range (p : program) (n : program_node) : option tensor :=
  match as_convolution (desc n) with
  | Some prim =>
      filter_size ← shape_of p n (weights_index (desc n));
      input_size ← shape_of p n 0;
      Some (calc_sliding_window_output_range swor_all input_size filter_size
              (conv_pad prim) (conv_stride prim) (conv_dilation prim) true 1)
  | None =>
  match as_binary_convolution (desc n) with
  | Some prim =>
      filter_size ← shape_of p n (weights_index (desc n));
      input_size ← shape_of p n 0;
      Some (calc_sliding_window_output_range swor_all input_size filter_size
              (bconv_pad prim) (bconv_stride prim) (bconv_dilation prim) true 1)
  | None =>
  match as_deconvolution (desc n) with
  | Some prim =>
      filter_size ← shape_of p n (weights_index (desc n));
      input_size ← shape_of p n 0;
      Some (calc_sliding_window_needed_input_range input_size filter_size
              (deconv_pad prim) (deconv_stride prim)
              (replicate (length (deconv_stride prim)) 1) true 1)
  | None =>
  match as_pooling (desc n) with
  | Some prim =>
      input_size ← shape_of p n 0;
      Some (calc_sliding_window_output_range swor_exceed_once_data input_size
              (window_shape (pool_size prim))
              (pool_pad prim) (pool_stride prim)
              (replicate (length (pool_stride prim)) 1) true 1)
  | None => None
  end end end end.

(** A node whose declared output range differs from the computed one. *)
Definition output_size_disagrees (p : program) (n : program_node) : Prop :=
  declares_output_size (desc n) = true ∧
  ∃ declared computed,
    declared_output_range (desc n) = Some declared ∧
    computed_output_range p n = Some computed ∧
    declared ≠ computed.

(** The same verdict as a boolean. *)
Definition output_size_disagrees_b (p : program) (n : program_node) : bool :=
  declares_output_size (desc n) &&
  match declared_output_range (desc n), computed_output_range p n with
  | Some declared, Some computed => bool_decide (declared ≠ computed)
  | _, _ => false
  end.

(** The dependencies whose shapes the analysis reads for a node are there:
    the input, and the weights except for a pooling. *)
Definition shapes_available (p : program) (n : program_node) : Prop :=
  declares_output_size (desc n) = true → is_Some (computed_output_range p n).

End expected_range.

(** The words of §4.8 for the b_fs_yx_fsv16 decision. *)



(** The number of crop nodes in the processing order. *)
Definition is_crop (p : program) (node : node_ptr) : Prop :=
  (type ∘ desc <$> nodes p !! node) = Some t_crop.

#[global] Instance is_crop_dec p node : Decision (is_crop p node).
Proof. unfold is_crop. apply _. Defined.


(** The total convolution count: the number of convolution nodes in the
    processing order. *)
Definition is_convolution_node (p : program) (node : node_ptr) : Prop :=
  (type ∘ desc <$> nodes p !! node) = Some t_convolution.

#[global] Instance is_convolution_node_dec p node : Decision (is_convolution_node p node).
Proof. unfold is_convolution_node. apply _. Defined.


(** The single-precision test [count * (1.0f / total) > 0.5f]. *)
Definition fraction_exceeds_half (count total : Z) : bool :=
  SFltb f32_0_5 (f32_mul (f32_of_size_t count) (cond_denom total)).

(** The fraction [count / total] exceeds one half, in exact arithmetic: for a
    positive [total] that is [total < 2 * count]. *)
Definition exact_fraction_exceeds_half (count total : Z) : Prop :=
  total < 2 * count.

(** The layouts [set_layout_optimizer_attributes] reads on a node are valid:
    the input of a convolution and of a data-flow mvn, and the node's own
    layout for a quantize. *)
Definition layouts_readable (p : program) (n : program_node) : Prop :=
  (type (desc n) = t_convolution → is_Some (current_shape p n 0)) ∧
  (type (desc n) = t_mvn → data_flow n = true → is_Some (current_shape p n 0)) ∧
  (type (desc n) = t_quantize → valid_output_layout n = true).

Section optimizer_scan.

Variable lo_tables : Type.
Variable update_formats_map : layout_optimizer lo_tables → program → node_ptr → lo_tables.
Variable is_format_optimized : layout_optimizer lo_tables → program → node_ptr → format → bool.
Variable is_format_supported : layout_optimizer lo_tables → program → node_ptr → format → bool.

(** The count of b_fs_yx_fsv16-optimizable convolutions: the number of
    convolution nodes in the processing order that the optimizer finds
    optimized for that format. *)
Definition is_optimizable_conv (p : program) (lo : layout_optimizer lo_tables)
    (node : node_ptr) : Prop :=
  is_convolution_node p node ∧ is_format_optimized lo p node b_fs_yx_fsv16 = true.

#[global] Instance is_optimizable_conv_dec p lo node :
  Decision (is_optimizable_conv p lo node).
Proof. unfold is_optimizable_conv. apply _. Defined.


(** The optimizer as one round of the scan leaves it. *)
Definition optimizer_after_node (p : program) (lo : layout_optimizer lo_tables)
    (node : node_ptr) : layout_optimizer lo_tables :=
  match nodes p !! node with
  | None => lo
  | Some n =>
      let lo :=
        match as_convolution (desc n) with
        | Some conv =>
            let lo := convolution_attributes lo_tables conv lo in
            set_tables lo_tables (update_formats_map lo p node) lo
        | None => lo
        end in
      set_attribute_if lo_tables (negb (type_is_none_of bfyx_only_kinds (desc n)))
        bfyx_only_layer lo
  end.

(** The optimizer as the scan finds it when it reaches the node that
    follows [visited]. *)
Definition optimizer_before (p : program) (lo : layout_optimizer lo_tables)
    (visited : list node_ptr) : layout_optimizer lo_tables :=
  foldl (optimizer_after_node p) lo visited.


(** The counters as one round of the scan leaves them, on a program whose
    layouts are readable. *)
Definition counters_after_node (p : program)
    (st : layout_optimizer lo_tables * topology_counters) (node : node_ptr)
    : topology_counters :=
  let '(lo, c) := st in
  match nodes p !! node with
  | None => c
  | Some n =>
      let c :=
        match as_convolution (desc n) with
        | Some conv => count_convolution conv (default [] (current_shape p n 0)) c
        | None => c
        end in
      let lo :=
        match as_convolution (desc n) with
        | Some conv =>
            let lo := convolution_attributes lo_tables conv lo in
            set_tables lo_tables (update_formats_map lo p node) lo
        | None => lo
        end in
      count_node n
        (deconvolution_zyx lo_tables is_format_optimized lo p node n)
        (deconvolution_yx lo_tables is_format_optimized is_format_supported lo p node n)
        (data_flow n
         && type_is_none_of (fsv16_kinds_before_mvn ++ fsv16_kinds_after_mvn) (desc n))
        (is_type t_quantize (desc n)
         && (bool_decide (data_type (output_layout n) = i8)
             || bool_decide (data_type (output_layout n) = u8)))
        c
  end.

Definition scan_after_node (p : program)
    (st : layout_optimizer lo_tables * topology_counters) (node : node_ptr)
    : layout_optimizer lo_tables * topology_counters :=
  (optimizer_after_node p st.1 node, counters_after_node p st node).

End optimizer_scan.

(** ** Small graphs used to run the operations *)

Definition plain_layout (dt : data_types) : layout :=
  {| data_type := dt; fmt := bfyx; size := tensor_of_sizes [1; 1; 1; 1] 1;
     data_padding := mk_padding [] [] |}.

(** A node of a kind without parameters of its own. *)
Definition plain_node (d : primitive)
    (deps usrs : list node_ptr) (is_output valid : bool) (dt : data_types)
    : program_node :=
  {| desc := d; dependencies := deps; users := usrs;
     output_layout := plain_layout dt; valid_output_layout := valid;
     constant := false; data_flow := true; output := is_output;
     user_mark := 0; memory_dependencies := [] |}.

Definition eltwise_desc (name : primitive_id) : primitive :=
  mk_primitive name t_eltwise tt "" "".

Definition data_desc (name : primitive_id) : primitive :=
  mk_primitive name t_data tt "" "".

Definition program_of (ns : list (node_ptr * program_node))
    (order : list node_ptr) (outs : list node_ptr) (pool : bool) : program :=
  {| nodes := list_to_map ns;
     nodes_map := list_to_map ((λ x, (node_id x.2, x.1)) <$> ns);
     inputs := []; outputs := outs; processing_order := order;
     optimized_out := []; optimized := [];
     configuration := {| use_memory_pool := pool |} |}.

(** A single dangling node that is an output. *)
Definition dangling_output_program : program :=
  program_of [(1%positive, plain_node (eltwise_desc "out") [] [] true true f32)]
             [1%positive] [1%positive] true.

(** A single dangling node that is not an output. *)
Definition dangling_program : program :=
  program_of [(1%positive, plain_node (eltwise_desc "n") [] [] false true f32)]
             [1%positive] [] false.

(** Two nodes joined by the edge a -> b. *)
Definition edge_program : program :=
  program_of
    [(1%positive, plain_node (eltwise_desc "a") [] [2%positive] false true f32);
     (2%positive, plain_node (eltwise_desc "b") [1%positive] [] false true f32)]
    [1%positive; 2%positive] [] true.

(** The empty program. *)
Definition empty_program : program :=
  program_of [] [] [] true.

(** A node [old] that reads the same producer [a] twice, as [eltwise(a, a)]
    does, and a detached node [new]. *)
Definition double_edge_program : program :=
  program_of
    [(1%positive, plain_node (data_desc "a") [] [2%positive; 2%positive] false true f32);
     (2%positive, plain_node (eltwise_desc "old") [1%positive; 1%positive] [] false true f32);
     (3%positive, plain_node (eltwise_desc "new") [] [] false true f32)]
    [1%positive; 2%positive] [] true.

(** Layout inference is never needed where every layout is valid. *)
Definition no_calc_output_layout : node_ptr → M layout :=
  λ _, throw (runtime_error "calc_output_layout").

(** An input node whose layout has not been computed. *)
Definition invalid_input_program : program :=
  program_of
    [(1%positive,
      plain_node (mk_primitive "in" t_input_layout tt "" "") [] [] false false f16)]
    [1%positive] [] true.

(** A reorder from f16 to f32 behind an input. *)
Definition reorder_program : program :=
  program_of
    [(1%positive,
      plain_node (mk_primitive "in" t_input_layout tt "" "") [] [2%positive]
        false true f16);
     (2%positive,
      plain_node (mk_primitive "r" t_reorder tt "" "") [1%positive] []
        true true f32)]
    [1%positive; 2%positive] [2%positive] true.

(** A type order and a quantized-type test to run the precision rules with:
    wider types win, and the 8-bit integers are the quantized ones. *)
Definition sample_rank (dt : data_types) : Z :=
  match dt with
  | bin => 0 | i8 => 1 | u8 => 2 | i32 => 3 | i64 => 4 | f16 => 5 | f32 => 6
  end.

Definition sample_max_type (a b : data_types) : data_types :=
  if sample_rank a <? sample_rank b then b else a.

Definition sample_is_quantized (dt : data_types) : bool :=
  match dt with
  | u8 | i8 => true
  | _ => false
  end.

(** A convolution-like host followed by a quantize peer in scale-shift
    form.  The peer reads the host, the input range (3, 4), the output range
    (5, 6), and the input and output scales and shifts (7 to 10).  The
    output range is per-element, clamping is needed, the input shift is
    per-tensor and no post-shift is needed. *)
Definition sample_quantize : quantize_fields :=
  {| scale_shift_opt := true;
     per_tensor_output_range := false;
     output_lo_val := S754_zero false;
     output_hi_val := S754_finite false 8388608 (-23);
     need_clamp := true;
     per_tensor_input_scale := false;
     need_pre_shift := true;
     per_tensor_input_shift := true;
     need_post_scale := true;
     per_tensor_output_scale := false;
     need_post_shift := false;
     per_tensor_output_shift := false |}.

Definition quantize_peer_program : program :=
  program_of
    ([(1%positive, plain_node (eltwise_desc "host") [] [2%positive] false true f32);
      (2%positive,
       plain_node (mk_primitive "q" t_quantize sample_quantize "" "")
         [1; 3; 4; 5; 6; 7; 8; 9; 10]%positive [] true true u8)]
     ++ ((λ x : node_ptr * string,
            (x.1, plain_node (data_desc x.2) [] [2%positive] false true f32))
         <$> [(3%positive, "in_lo"); (4%positive, "in_hi"); (5%positive, "out_lo");
              (6%positive, "out_hi"); (7%positive, "in_scale"); (8%positive, "in_shift");
              (9%positive, "out_scale"); (10%positive, "out_shift")]))
    [1%positive; 2%positive] [2%positive] true.

(** A sliding-window calculator to run the analysis with: on the two
    leading spatial axes, [(input + 2 pad - ((filter - 1) dilation + 1)) /
    stride + 1]. *)
Definition sample_axis (input filter : tensor) (pad stride dilation : list Z)
    (i : nat) : Z :=
  (tensor_spatial input i + 2 * nth i pad 0
   - ((tensor_spatial filter i - 1) * nth i dilation 1 + 1)) / nth i stride 1 + 1.

Definition sample_output_range (mode : swor_mode) (input filter : tensor)
    (pad stride dilation : list Z) (sym_pad : bool) (degen_val : Z) : tensor :=
  tensor_of_sizes [0; 0; sample_axis input filter pad stride dilation 0;
                   sample_axis input filter pad stride dilation 1; 1] 1.

Definition sample_needed_input_range (output filter : tensor)
    (pad stride dilation : list Z) (sym_pad : bool) (degen_val : Z) : tensor :=
  tensor_of_sizes [0; 0; tensor_spatial output 0; tensor_spatial output 1; 1] 1.

Definition shaped_layout (dt : data_types) (sizes : list Z) : layout :=
  {| data_type := dt; fmt := bfyx; size := tensor_of_sizes sizes 1;
     data_padding := mk_padding [] [] |}.

Definition shaped_node (d : primitive) (deps usrs : list node_ptr)
    (sizes : list Z) : program_node :=
  {| desc := d; dependencies := deps; users := usrs;
     output_layout := shaped_layout f32 sizes; valid_output_layout := true;
     constant := false; data_flow := true; output := false;
     user_mark := 0; memory_dependencies := [] |}.

(** A 3x3 convolution over a 7x7 input that declares a 4x4 output where
    the calculator gives 5x5. *)
Definition declared_conv : convolution_prim :=
  {| conv_with_output_size := true;
     conv_output_size := tensor_of_sizes [1; 8; 4; 4] 1;
     conv_pad := [0; 0]; conv_stride := [1; 1]; conv_dilation := [1; 1];
     conv_groups := 1; conv_split := 1; conv_deformable_mode := false;
     conv_weights_zero_points_term := false;
     conv_activations_zero_points_term := false |}.

Definition conv_program : program :=
  program_of
    [(1%positive, shaped_node (mk_primitive "in" t_input_layout tt "" "")
                    [] [3%positive] [1; 3; 7; 7]);
     (2%positive, shaped_node (data_desc "w") [] [3%positive] [8; 3; 3; 3]);
     (3%positive, shaped_node (mk_primitive "conv" t_convolution declared_conv "" "")
                    [1%positive; 2%positive] [] [1; 8; 4; 4])]
    [1%positive; 2%positive; 3%positive] [] true.

(** The same graph before the layout of its input has been computed, and
    a layout inference that finds the 7x7 input. *)
Definition pending_conv_program : program :=
  program_of
    [(1%positive,
      set_valid_output_layout false
        (shaped_node (mk_primitive "in" t_input_layout tt "" "")
           [] [3%positive] [1; 1; 1; 1]));
     (2%positive, shaped_node (data_desc "w") [] [3%positive] [8; 3; 3; 3]);
     (3%positive, shaped_node (mk_primitive "conv" t_convolution declared_conv "" "")
                    [1%positive; 2%positive] [] [1; 8; 4; 4])]
    [1%positive; 2%positive; 3%positive] [] true.

Definition sample_inferred_layout (node : node_ptr) : layout :=
  shaped_layout f32 [1; 3; 7; 7].

Definition sample_calc_output_layout (node : node_ptr) : M layout :=
  mret (sample_inferred_layout node).

(** An optimizer to run the attribute analysis with: its tables are the two
    convolution counts, every convolution counts as optimized for
    b_fs_yx_fsv16, and no deconvolution is. *)
Record sample_tables := mk_sample_tables {
  sample_total_conv : Z;
  sample_fsv16_conv : Z
}.

Definition sample_update_formats_map (lo : layout_optimizer sample_tables)
    (p : program) (node : node_ptr) : sample_tables :=
  {| sample_total_conv := sample_total_conv (tables sample_tables lo) + 1;
     sample_fsv16_conv := sample_fsv16_conv (tables sample_tables lo) + 1 |}.

Definition sample_optimized_conv_count (t : sample_tables) (key : format * bool) : Z :=
  if decide (key.1 = b_fs_yx_fsv16) then sample_fsv16_conv t else 0.

Definition sample_format_query (lo : layout_optimizer sample_tables) (p : program)
    (node : node_ptr) (f : format) : bool := false.

Definition sample_optimizer (total fsv16 : Z) : layout_optimizer sample_tables :=
  {| optimization_attributes := λ _, 0;
     tables := {| sample_total_conv := total; sample_fsv16_conv := fsv16 |} |}.

(** [set_layout_optimizer_attributes] on the sample optimizer. *)
Definition sample_set_layout_optimizer_attributes
    (lo : layout_optimizer sample_tables) : M (layout_optimizer sample_tables) :=
  set_layout_optimizer_attributes no_calc_output_layout sample_tables
    (λ t, t) sample_update_formats_map sample_format_query sample_format_query
    sample_total_conv sample_optimized_conv_count false lo.

(** Modelled from the spec: §4.8 has the analysis count the total
    convolutions and the convolutions optimizable for b_fs_yx_fsv16.  The
    optimizer keeps both counts in its tables;
    [layout_optimizer::update_formats_map], which the scan calls once for
    every convolution, adds the node to the total and, where
    [is_format_optimized] accepts it, to the count of the format.  Both are
    [size_t].  This optimizer finds a convolution optimized for
    b_fs_yx_fsv16 when its output is f16. *)
Definition counting_is_format_optimized (lo : layout_optimizer sample_tables)
    (p : program) (node : node_ptr) (f : format) : bool :=
  match nodes p !! node with
  | Some n => is_type t_convolution (desc n) && bool_decide (f = b_fs_yx_fsv16)
              && bool_decide (data_type (output_layout n) = f16)
  | None => false
  end.

Definition counting_update_formats_map (lo : layout_optimizer sample_tables)
    (p : program) (node : node_ptr) : sample_tables :=
  {| sample_total_conv := size_t_incr (sample_total_conv (tables sample_tables lo));
     sample_fsv16_conv :=
       if counting_is_format_optimized lo p node b_fs_yx_fsv16
       then size_t_incr (sample_fsv16_conv (tables sample_tables lo))
       else sample_fsv16_conv (tables sample_tables lo) |}.

(** [set_layout_optimizer_attributes] on the counting optimizer. *)
Definition counting_set_layout_optimizer_attributes
    (lo : layout_optimizer sample_tables) : M (layout_optimizer sample_tables) :=
  set_layout_optimizer_attributes no_calc_output_layout sample_tables
    (λ t, t) counting_update_formats_map counting_is_format_optimized
    sample_format_query sample_total_conv sample_optimized_conv_count false lo.

(** A wide graph: one input and one weights node, read by [k + m]
    convolutions that are the outputs.  The convolutions sit at the
    addresses from 3 on and are named after them; the first [k] produce f16
    and the other [m] produce f32.  Every layout is valid, as it is once
    [pre_optimize_graph] has forced the layouts. *)
Definition conv_addresses (first count : Z) : list node_ptr :=
  Z.to_pos <$> seqZ first count.

Definition same_size_conv : convolution_prim :=
  {| conv_with_output_size := false;
     conv_output_size := tensor_of_sizes [] 1;
     conv_pad := [1; 1]; conv_stride := [1; 1]; conv_dilation := [1; 1];
     conv_groups := 1; conv_split := 1; conv_deformable_mode := false;
     conv_weights_zero_points_term := false;
     conv_activations_zero_points_term := false |}.

Definition star_input (usrs : list node_ptr) : program_node :=
  {| desc := mk_primitive "in" t_input_layout tt "" "";
     dependencies := []; users := usrs;
     output_layout := shaped_layout f16 [1; 16; 7; 7]; valid_output_layout := true;
     constant := false; data_flow := true; output := false;
     user_mark := 0; memory_dependencies := [] |}.

Definition star_weights (usrs : list node_ptr) : program_node :=
  {| desc := data_desc "w";
     dependencies := []; users := usrs;
     output_layout := shaped_layout f16 [16; 16; 3; 3]; valid_output_layout := true;
     constant := true; data_flow := false; output := false;
     user_mark := 0; memory_dependencies := [] |}.

Definition star_conv (dt : data_types) (a : node_ptr) : program_node :=
  {| desc := mk_primitive ("conv" +:+ pretty a) t_convolution same_size_conv "" "";
     dependencies := [1%positive; 2%positive]; users := [];
     output_layout := shaped_layout dt [1; 16; 7; 7]; valid_output_layout := true;
     constant := false; data_flow := true; output := true;
     user_mark := 0; memory_dependencies := [] |}.

Definition star_nodes (k m : Z) : list (node_ptr * program_node) :=
  let convs := conv_addresses 3 (k + m) in
  [(1%positive, star_input convs); (2%positive, star_weights convs)]
  ++ ((λ a, (a, star_conv f16 a)) <$> conv_addresses 3 k)
  ++ ((λ a, (a, star_conv f32 a)) <$> conv_addresses (3 + k) m).

Definition star_program (k m : Z) : program :=
  program_of (star_nodes k m)
    ([1%positive; 2%positive] ++ conv_addresses 3 (k + m))
    (conv_addresses 3 (k + m)) true.

(** Whether the float test and the exact comparison agree for every total
    from [first] on, [len] totals in all, and every count up to the total. *)
Definition fraction_tests_agree (first len : Z) : bool :=
  forallb (λ total,
    forallb (λ count,
      Bool.eqb (fraction_exceeds_half count total) (total <? 2 * count))
      (seqZ 0 (total + 1)))
    (seqZ first len).

(** * Further operations of the program *)

Definition set_constant (b : bool) (n : program_node) : program_node :=
  {| desc := desc n; dependencies := dependencies n; users := users n;
     output_layout := output_layout n;
     valid_output_layout := valid_output_layout n; constant := b;
     data_flow := data_flow n; output := output n; user_mark := user_mark n;
     memory_dependencies := memory_dependencies n |}.

Definition set_data_flow (b : bool) (n : program_node) : program_node :=
  {| desc := desc n; dependencies := dependencies n; users := users n;
     output_layout := output_layout n;
     valid_output_layout := valid_output_layout n; constant := constant n;
     data_flow := b; output := output n; user_mark := user_mark n;
     memory_dependencies := memory_dependencies n |}.

(** [program::get_node]: [nodes_map.at(id)], any failure rethrown as a
    [runtime_error]. *)
Definition get_node (id : primitive_id) : M node_ptr :=
  p ← get_program;
  match nodes_map p !! id with
  | Some ptr => mret ptr
  | None => throw (runtime_error ("Program doesn't contain primitive node: " +:+ id))
  end.

(** [program::remove_all_connections] *)
Definition remove_all_connections (node : node_ptr) : M unit :=
  n ← read_node node;
  for_each (users n) (λ e,
    update_node e (λ x, set_dependencies (remove_all node (dependencies x)) x));;
  n ← read_node node;
  for_each (dependencies n) (λ e,
    update_node e (λ x, set_users (remove_all node (users x)) x));;
  update_node node (set_dependencies []);;
  update_node node (set_users []).

(** [program::reverse_connection] *)
Definition reverse_connection (dep_node user_node : node_ptr) : M unit :=
  d ← read_node dep_node;
  if bool_decide (user_node ∈ users d) then
    remove_connection dep_node user_node;;
    add_connection user_node dep_node
  else
    throw (runtime_error
      "Trying to reverse connection, but nodes are wrongly or not connected.").

Section creation.

(** [prim->type->create_node]: the node factory of the
    primitive registry (§4.2). *)
Variable create_node : primitive → program_node.

(** [program::get_or_create]: the node bound to the id of [prim], or a new
    node at an address that is not in use, bound to that id. *)
Definition get_or_create (prim : primitive) : M node_ptr :=
  p ← get_program;
  match nodes_map p !! id prim with
  | Some ptr => mret ptr
  | None =>
      let new_node := fresh (dom (nodes p)) in
      modify (λ p, set_nodes (<[new_node := create_node prim]> (nodes p)) p);;
      modify (λ p, set_nodes_map (<[id prim := new_node]> (nodes_map p)) p);;
      mret new_node
  end.

End creation.

(** The loop of [mark_if_constant] over the dependencies: the first one that
    is not constant clears the flag and ends the call. *)
Fixpoint mark_if_constant_loop (node : node_ptr) (deps : list node_ptr) : M unit :=
  match deps with
  | [] => mret tt
  | dep :: rest =>
      d ← read_node dep;
      if negb (constant d) then update_node node (set_constant false)
      else mark_if_constant_loop node rest
  end.

(** [program::mark_if_constant] *)
Definition mark_if_constant (node : node_ptr) : M unit :=
  n ← read_node node;
  if bool_decide (dependencies n = []) || is_type t_prior_box (desc n)
     || is_type t_assign (desc n) || is_type t_read_value (desc n) then mret tt
  else
    update_node node (set_constant true);;
    mark_if_constant_loop node (dependencies n).

(** The loop of [mark_if_data_flow]: inputs [idx], [idx + 1], ... below
    [inputs_count]; [remaining] counts the rounds left. *)
Fixpoint mark_if_data_flow_loop (node : node_ptr) (idx remaining : nat) : M unit :=
  match remaining with
  | O => mret tt
  | S remaining' =>
      dep ← get_dependency node idx;
      d ← read_node dep;
      if data_flow d then update_node node (set_data_flow true)
      else mark_if_data_flow_loop node (S idx) remaining'
  end.

(** [program::mark_if_data_flow] *)
Definition mark_if_data_flow (node : node_ptr) : M unit :=
  n ← read_node node;
  if is_type t_mutable_data (desc n) || is_type t_input_layout (desc n) then
    update_node node (set_data_flow true)
  else
    update_node node (set_data_flow false);;
    let inputs_count :=
      if is_type t_detection_output (desc n) || is_type t_proposal (desc n)
      then 2%nat else length (dependencies n) in
    mark_if_data_flow_loop node 0 inputs_count.

(** [program::copy_node_dependencies].  The source node belongs to another
    program; what the function reads of it is its id and the ids of its
    dependencies, in order. *)
Definition copy_node_dependencies (dest_node : node_ptr)
    (src_id : primitive_id) (src_deps : list primitive_id) : M unit :=
  dest ← read_node dest_node;
  if negb (bool_decide (node_id dest = src_id)) then
    throw (runtime_error
      ("Node " +:+ src_id +:+ " and its copy " +:+ node_id dest +:+ " do not match."))
  else
    for_each src_deps (λ src_dep,
      p ← get_program;
      match nodes_map p !! src_dep with
      | None => mret tt
      | Some _ =>
          match nodes_map p !! src_dep with
          | Some dest_dep =>
              update_node dest_node (λ n, set_dependencies (dependencies n ++ [dest_dep]) n);;
              update_node dest_dep (λ n, set_users (users n ++ [dest_node]) n)
          | None =>
              throw (runtime_error
                ("Program doesn't contain primitive: " +:+ src_dep +:+
                 " that is input to: " +:+ src_id))
          end
      end).

Section cleanup.

Variable calc_output_layout : node_ptr → M layout.
Variable is_debug_build : bool.

(** [program::cleanup] *)
Definition cleanup : M unit :=
  p ← get_program;
  for_each (processing_order p) (λ node,
    get_output_layout calc_output_layout node;; mret tt);;
  when_ is_debug_build (
    p ← get_program;
    for_each (processing_order p) (λ node,
      n ← read_node node;
      when_ (negb (output n)) (
        update_node node (set_output true);;
        modify (λ p, set_outputs (outputs p ++ [node]) p)))).

End cleanup.

(** The two refusals of [rename]. *)
Definition rename_exists_error (new_id : primitive_id) : exn :=
  runtime_error
    ("Trying to rename program_node but node with id " +:+ new_id +:+ " already exists").

Definition rename_output_error : exn :=
  invalid_argument
    "Trying to rename an output node. If you intend to do that, please clear 'output' flag manually.".

(** ** Invariants of the graph *)

(** Edge symmetry, with multiplicity: [v] occurs among the users of [u] as
    often as [u] among the dependencies of [v]. *)
Definition edge_symmetric (p : program) : Prop :=
  ∀ u v nu nv, nodes p !! u = Some nu → nodes p !! v = Some nv →
    occurrences v (users nu) = occurrences u (dependencies nv).

(** Every binding of the id-map leads to a live node that carries the id. *)
Definition well_named (p : program) : Prop :=
  ∀ i ptr, nodes_map p !! i = Some ptr → (node_id <$> nodes p !! ptr) = Some i.

(** ** Flags of a node, read by address *)

Definition is_constant (p : program) (d : node_ptr) : bool :=
  match nodes p !! d with Some x => constant x | None => false end.

Definition is_in_data_flow (p : program) (d : node_ptr) : bool :=
  match nodes p !! d with Some x => data_flow x | None => false end.

Definition is_output (p : program) (d : node_ptr) : bool :=
  match nodes p !! d with Some x => output x | None => false end.

(** The nodes of this program that the ids of a foreign node's dependencies
    are bound to, in order; ids that are not bound are skipped. *)
Definition bound_dependencies (p : program) (src_deps : list primitive_id)
    : list node_ptr :=
  omap (λ i, nodes_map p !! i) src_deps.

(** [program::remove_nodes]: for each node of the list, in order. *)
Definition remove_nodes (to_remove : list node_ptr) : M unit :=
  for_each to_remove (λ node,
    n ← read_node node;
    (if is_input n then
       modify (λ p, set_inputs (remove_all node (inputs p)) p)
     else
       for_each (dependencies n) (λ dep,
         update_node dep (λ x, set_users (remove_all node (users x)) x)));;
    n ← read_node node;
    for_each (users n) (λ user,
      update_node user (λ x, set_dependencies (remove_all node (dependencies x)) x));;
    nodes_ordering.erase node;;
    modify (λ p, set_optimized_out (optimized_out p ++ [node_id n]) p);;
    modify (λ p, set_nodes_map (delete (node_id n) (nodes_map p)) p)).

(** Edge symmetry among the nodes that satisfy [live]. *)
Definition edge_symmetric_among (live : node_ptr → Prop) (p : program) : Prop :=
  ∀ u v nu nv, live u → live v → nodes p !! u = Some nu → nodes p !! v = Some nv →
    occurrences v (users nu) = occurrences u (dependencies nv).

(** The id of the node at an address, if there is one. *)
Definition id_at (p : program) (a : node_ptr) : option primitive_id :=
  node_id <$> nodes p !! a.

(** One round of the copy loop of [replace]: the front dependency is
    connected to [new_node] and disconnected from [old_node]. *)
Definition copy_round (old_node new_node : node_ptr) (p : program) (dep : node_ptr)
    : program :=
  (remove_connection dep old_node (add_connection dep new_node p).2).2.

(** ** Checks on a listed node store *)

(** Edge symmetry of the store [list_to_map ns], decided on the list. *)
Definition edge_symmetric_b (ns : list (node_ptr * program_node)) : bool :=
  forallb (λ a,
    forallb (λ b,
      Nat.eqb (occurrences b.1 (users a.2)) (occurrences a.1 (dependencies b.2))) ns) ns.

(** Every user edge of the listed store goes from a smaller address to a
    larger one. *)
Definition topological_b (ns : list (node_ptr * program_node)) : bool :=
  forallb (λ a, forallb (λ b, Pos.ltb a.1 b) (users a.2)) ns.

(** ** Further small graphs *)

(** The graph a -> b with an empty id-map. *)
Definition unnamed_edge_program : program :=
  set_nodes_map ∅ edge_program.

(** A constant weight and an input that feed a sum. *)
Definition marks_program : program :=
  program_of
    [(1%positive, set_constant true (plain_node (data_desc "w") [] [3%positive] false true f32));
     (2%positive,
      plain_node (mk_primitive "in" t_input_layout tt "" "") [] [3%positive] false true f32);
     (3%positive, plain_node (eltwise_desc "sum") [1%positive; 2%positive] [] false true f32)]
    [1%positive; 2%positive; 3%positive] [] true.

(** A convolution that reads its input and no weights. *)
Definition single_input_conv_program : program :=
  program_of
    [(1%positive,
      plain_node (mk_primitive "in" t_input_layout tt "" "") [] [2%positive] false true f32);
     (2%positive,
      plain_node (mk_primitive "conv" t_convolution declared_conv "" "")
        [1%positive] [] true true f32)]
    [1%positive; 2%positive] [2%positive] true.

(** The graph a -> old beside a detached node new. *)
Definition single_edge_program : program :=
  program_of
    [(1%positive, plain_node (data_desc "a") [] [2%positive] false true f32);
     (2%positive, plain_node (eltwise_desc "old") [1%positive] [] false true f32);
     (3%positive, plain_node (eltwise_desc "new") [] [] false true f32)]
    [1%positive; 2%positive] [] true.

(** A log with one entry. *)
Definition logged_program : program :=
  set_optimized [("A", ["X"; "Y"])] empty_program.

(** * Properties *)

(** ** Running computations *)

Lemma bind_ok {A B} (m : M A) (f : A → M B) p a p' :
  m p = (Ok a, p') → (m ≫= f) p = f a p'.
Proof. intros H. unfold mbind, M_bind. by rewrite H. Qed.


Lemma read_node_ok p n x : nodes p !! n = Some x → read_node n p = (Ok x, p).
Proof. intros H. unfold read_node. by rewrite H. Qed.

Lemma set_nodes_id p : set_nodes (nodes p) p = p.
Proof. by destruct p. Qed.

(** ** Memory dependencies *)

(** C10: with the memory pool disabled in the engine configuration,
    [prepare_memory_dependencies] returns at once: whatever the three
    sub-passes would do, none of it happens and the program is the one it
    was. *)
Theorem prepare_memory_dependencies_pool_disabled
    (basic skipped oooq : M unit) (p : program) :
  use_memory_pool (configuration p) = false →
  prepare_memory_dependencies basic skipped oooq p = (Ok tt, p).
Proof.
  intros Hpool. unfold prepare_memory_dependencies.
  rewrite (bind_ok get_program _ p p p) by reflexivity.
  by rewrite Hpool.
Qed.

Lemma prepare_memory_dependencies_pool_disabled_witness :
  use_memory_pool (configuration dangling_program) = false ∧
  prepare_memory_dependencies
    (update_node 1%positive (set_users [1%positive]))
    (throw (runtime_error "skipped_branch_memory_dependencies"))
    (modify (set_processing_order []))
    dangling_program = (Ok tt, dangling_program).
Proof.
  split; [reflexivity|].
  apply prepare_memory_dependencies_pool_disabled. reflexivity.
Defined.

(** ** Connections *)

Lemma add_connection_run p u v :
  add_connection u v p =
  (Ok tt,
   set_nodes (alter (λ n, set_dependencies (dependencies n ++ [u]) n) v
               (alter (λ n, set_users (users n ++ [v]) n) u (nodes p))) p).
Proof. reflexivity. Qed.






(** ** Removing a dangling node *)

(** C1, as amended: [remove_if_dangling(n)] returns [true] exactly when [n]
    has neither users nor dependencies.  The node is destroyed only if, in
    addition, it is not an output or the build is a debug build: then its id
    leaves the id-map and is appended once to [optimized_out].  In every
    other case, a dangling output of a release build included, the program
    is left as it was. *)
Theorem remove_if_dangling_spec (is_debug_build : bool) (p : program)
    (node : node_ptr) (n : program_node) :
  nodes p !! node = Some n →
  ∃ b p',
    remove_if_dangling is_debug_build node p = (Ok b, p') ∧
    (b = true ↔ dependencies n = [] ∧ users n = []) ∧
    (dependencies n = [] ∧ users n = [] ∧ (output n = false ∨ is_debug_build = true) →
       nodes_map p' = delete (node_id n) (nodes_map p) ∧
       nodes_map p' !! node_id n = None ∧
       optimized_out p' = optimized_out p ++ [node_id n] ∧
       processing_order p' = nodes_ordering.erase_node node (processing_order p) ∧
       inputs p' = remove_all node (inputs p) ∧
       nodes p' = nodes p) ∧
    (¬ (dependencies n = [] ∧ users n = [] ∧ (output n = false ∨ is_debug_build = true)) →
       p' = p).
Proof.
  intros Hn. unfold remove_if_dangling.
  rewrite (bind_ok _ _ _ _ _ (read_node_ok _ _ _ Hn)).
  destruct (decide (users n = [])) as [Hu|Hu].
  2:{ rewrite bool_decide_eq_false_2 by done. simpl.
      exists false, p. split; [done|]. split; [|split]; [|tauto..].
      split; [done|]. tauto. }
  rewrite bool_decide_eq_true_2 by done. simpl.
  destruct (decide (dependencies n = [])) as [Hd|Hd].
  2:{ rewrite bool_decide_eq_false_2 by done. simpl.
      exists false, p. split; [done|]. split; [|split]; [|tauto..].
      split; [done|]. tauto. }
  rewrite bool_decide_eq_true_2 by done. simpl.
  destruct (negb (output n) || is_debug_build) eqn:Hrem; simpl.
  - unfold is_input. rewrite bool_decide_eq_true_2 by done. simpl.
    unfold mbind, M_bind, modify, get_program, when_, nodes_ordering.erase, mret, M_ret.
    simpl.
    assert (Hord : ∀ l : list node_ptr, node ∉ l → nodes_ordering.erase_node node l = l).
    { intros l. unfold nodes_ordering.erase_node. induction l as [|x l IH]; [done|].
      intros Hx. rewrite filter_cons. case_decide.
      - f_equal. apply IH. set_solver.
      - set_solver. }
    exists true,
      (set_nodes_map (delete (node_id n) (nodes_map p))
         (set_optimized_out (optimized_out p ++ [node_id n])
            (set_processing_order
               (nodes_ordering.erase_node node (processing_order p))
               (set_inputs (remove_all node (inputs p)) p)))).
    split.
    { simpl.
      destruct (decide (node ∈ processing_order p)) as [Hin|Hin];
        [rewrite !(bool_decide_eq_true_2 _ Hin)
        |rewrite !(bool_decide_eq_false_2 _ Hin)]; simpl; [reflexivity|].
      rewrite (Hord _ Hin). by destruct p. }
    split; [tauto|]. split.
    + intros _. simpl. repeat split; try done. apply lookup_delete_eq.
    + intros Hc. exfalso. apply Hc. repeat split; try done.
      destruct (output n), is_debug_build; simpl in *; auto; discriminate.
  - exists true, p. split; [by destruct p|]. split; [tauto|]. split; [|done].
    intros (_ & _ & [Ho|Hb]); destruct (output n), is_debug_build; simpl in *; discriminate.
Qed.

Lemma remove_if_dangling_spec_witness :
  ∃ b p',
    remove_if_dangling false 1%positive dangling_program = (Ok b, p') ∧
    (b = true ↔ @nil node_ptr = [] ∧ @nil node_ptr = []) ∧
    (@nil node_ptr = [] ∧ @nil node_ptr = [] ∧ (false = false ∨ false = true) →
       nodes_map p' = delete "n" (nodes_map dangling_program) ∧
       nodes_map p' !! "n" = None ∧
       optimized_out p' = [] ++ ["n"] ∧
       processing_order p' = nodes_ordering.erase_node 1%positive [1%positive] ∧
       inputs p' = remove_all 1%positive [] ∧
       nodes p' = nodes dangling_program) ∧
    (¬ (@nil node_ptr = [] ∧ @nil node_ptr = [] ∧ (false = false ∨ false = true)) →
       p' = dangling_program).
Proof.
  exact (remove_if_dangling_spec false dangling_program 1%positive
           (plain_node (eltwise_desc "n") [] [] false true f32) eq_refl).
Defined.

(** C1 as stated fails: for a dangling output node in a release build the
    call returns [true], yet the node is an output, stays in the id-map and
    nothing is logged. *)
Lemma remove_if_dangling_output_counterexample :
  remove_if_dangling false 1%positive dangling_output_program
    = (Ok true, dangling_output_program) ∧
  (output <$> nodes dangling_output_program !! 1%positive) = Some true ∧
  nodes_map dangling_output_program !! "out" = Some 1%positive ∧
  optimized_out dangling_output_program = [].
Proof. repeat split. Qed.

(** ** Names *)

Lemma with_id_same d : with_id (id d) d = d.
Proof. by destruct d. Qed.

Lemma set_desc_same n : set_desc (desc n) n = n.
Proof. by destruct n. Qed.

(** What one call of [swap_names] does when both ids are bound. *)
Lemma swap_names_run p a b na nb x y :
  nodes p !! a = Some na → nodes p !! b = Some nb →
  nodes_map p !! node_id na = Some x → nodes_map p !! node_id nb = Some y →
  swap_names a b p =
  (Ok tt,
   set_nodes
     (alter (λ n, set_desc (with_id (node_id na) (desc n)) n) b
        (alter (λ n, set_desc (with_id (node_id nb) (desc n)) n) a (nodes p)))
     (set_nodes_map (<[node_id nb := x]> (<[node_id na := y]> (nodes_map p))) p)).
Proof.
  intros Ha Hb Hx Hy. unfold swap_names.
  rewrite (bind_ok _ _ _ _ _ (read_node_ok _ _ _ Ha)).
  rewrite (bind_ok _ _ _ _ _ (read_node_ok _ _ _ Hb)).
  rewrite (bind_ok get_program _ p p p) by reflexivity.
  rewrite Hx, Hy. reflexivity.
Qed.

(** C7: for two nodes whose ids are bound in the id-map, [swap_names(a, b)]
    twice in a row is the identity on the program: the id-map, the ids of
    both descriptors and every dependency and user edge are what they were
    before the first call. *)
Theorem swap_names_twice (p : program) (a b : node_ptr) (na nb : program_node) :
  nodes p !! a = Some na →
  nodes p !! b = Some nb →
  is_Some (nodes_map p !! node_id na) →
  is_Some (nodes_map p !! node_id nb) →
  (swap_names a b;; swap_names a b) p = (Ok tt, p).
Proof.
  intros Ha Hb [x Hx] [y Hy].
  rewrite (bind_ok _ _ _ _ _ (swap_names_run _ _ _ _ _ _ _ Ha Hb Hx Hy)).
  set (ia := node_id na) in *. set (ib := node_id nb) in *.
  set (fa := λ n, set_desc (with_id ib (desc n)) n).
  set (fb := λ n, set_desc (with_id ia (desc n)) n).
  set (ns1 := alter fb b (alter fa a (nodes p))).
  set (nm1 := <[ib := x]> (<[ia := y]> (nodes_map p))).
  assert (Hab : a = b → na = nb) by (intros ->; congruence).
  assert (Hxy : ia = ib → x = y) by (intros E; rewrite E in Hx; congruence).
  (* the two nodes after the first call *)
  assert (Ha1 : ns1 !! a = Some (if decide (a = b) then fb (fa na) else fa na)).
  { subst ns1. destruct (decide (a = b)) as [->|Hne].
    - by rewrite !lookup_alter_eq, Ha.
    - by rewrite lookup_alter_ne, lookup_alter_eq, Ha. }
  assert (Hb1 : ns1 !! b = Some (if decide (a = b) then fb (fa na) else fb nb)).
  { subst ns1. destruct (decide (a = b)) as [->|Hne].
    - by rewrite !lookup_alter_eq, Ha.
    - by rewrite lookup_alter_eq, lookup_alter_ne, Hb. }
  set (na1 := if decide (a = b) then fb (fa na) else fa na) in *.
  set (nb1 := if decide (a = b) then fb (fa na) else fb nb) in *.
  assert (Hia1 : node_id na1 = ib).
  { subst na1. destruct (decide (a = b)) as [E|E]; [|done].
    unfold fb, ia, ib. simpl. by rewrite (Hab E). }
  assert (Hib1 : node_id nb1 = ia).
  { subst nb1. by destruct (decide (a = b)). }
  assert (Hx1 : nm1 !! node_id na1 = Some x).
  { rewrite Hia1. subst nm1. apply lookup_insert_eq. }
  assert (Hy1 : nm1 !! node_id nb1 = Some y).
  { rewrite Hib1. subst nm1. destruct (decide (ia = ib)) as [E|E].
    - rewrite E, lookup_insert_eq. f_equal. auto.
    - by rewrite lookup_insert_ne, lookup_insert_eq. }
  rewrite (swap_names_run (set_nodes ns1 (set_nodes_map nm1 p)) a b na1 nb1 x y
             Ha1 Hb1 Hx1 Hy1).
  rewrite Hia1, Hib1. fold fa fb.
  f_equal. destruct p as [ns nm ins outs ord oo opt cfg].
  unfold set_nodes, set_nodes_map. simpl in *. f_equal.
  - (* the store *)
    assert (Hida : fb na = na).
    { subst fb ia. simpl. unfold node_id. by rewrite with_id_same, set_desc_same. }
    assert (Hidb : fa nb = nb).
    { subst fa ib. simpl. unfold node_id. by rewrite with_id_same, set_desc_same. }
    assert (Hfba : ∀ n, fb (fa n) = fb n) by (by intros []).
    assert (Hfab : ∀ n, fa (fb n) = fa n) by (by intros []).
    apply map_eq. intros i. subst ns1.
    destruct (decide (i = a)) as [->|Hia]; destruct (decide (a = b)) as [E|E].
    + subst b. rewrite !lookup_alter_eq, Ha. simpl.
      assert (na = nb) as <- by congruence.
      by repeat first [rewrite Hfba | rewrite Hfab | rewrite Hida | rewrite Hidb].
    + rewrite lookup_alter_ne, lookup_alter_eq by done.
      rewrite lookup_alter_ne, lookup_alter_eq, Ha by done. simpl.
      by repeat first [rewrite Hfba | rewrite Hfab | rewrite Hida | rewrite Hidb].
    + subst b. by rewrite !lookup_alter_ne.
    + destruct (decide (i = b)) as [->|Hib].
      * rewrite lookup_alter_eq, lookup_alter_ne by done.
        rewrite lookup_alter_eq, lookup_alter_ne, Hb by done. simpl.
        by repeat first [rewrite Hfba | rewrite Hfab | rewrite Hida | rewrite Hidb].
      * by rewrite !lookup_alter_ne.
  - (* the id-map *)
    apply map_eq. intros i. subst nm1.
    destruct (decide (i = ia)) as [->|Hia].
    + by rewrite lookup_insert_eq.
    + rewrite lookup_insert_ne by done.
      destruct (decide (i = ib)) as [->|Hib].
      * by rewrite lookup_insert_eq.
      * by rewrite !lookup_insert_ne.
Qed.

Lemma swap_names_twice_witness :
  (swap_names 1%positive 2%positive;; swap_names 1%positive 2%positive) edge_program
  = (Ok tt, edge_program).
Proof.
  apply (swap_names_twice edge_program 1%positive 2%positive
           (plain_node (eltwise_desc "a") [] [2%positive] false true f32)
           (plain_node (eltwise_desc "b") [1%positive] [] false true f32)
           eq_refl eq_refl).
  - exists 1%positive. reflexivity.
  - exists 2%positive. reflexivity.
Defined.

(** ** The optimized-out log *)

(** C9 fails on the code: four calls on an empty log.  "A" is replaced by
    "X" and "Y", both are then fused into "Z", which leaves "A" with the
    survivors ["Z"; "Z"]; when "Z" is optimized out in turn only its first
    occurrence is replaced, and "A" still lists "Z". *)
Theorem add_optimized_primitive_info_duplicate :
  ∃ p,
    (add_optimized_primitive_info "A" ["X"; "Y"];;
     add_optimized_primitive_info "X" ["Z"];;
     add_optimized_primitive_info "Y" ["Z"];;
     add_optimized_primitive_info "Z" ["W"]) empty_program = (Ok tt, p) ∧
    optimized p = [("A", ["Z"; "W"]); ("X", ["W"]); ("Y", ["W"]); ("Z", ["W"])] ∧
    lists_optimized_id (optimized p).
Proof.
  eexists. split; [reflexivity|]. split; [reflexivity|].
  exists ("A", ["Z"; "W"]), "Z". simpl. repeat split.
  - constructor.
  - constructor.
  - do 3 constructor. constructor.
Qed.

(** What one call does to the log: in each earlier entry the first occurrence
    of the id, if any, is taken out and the new survivors are appended; the
    new entry goes last. *)
Lemma add_optimized_primitive_info_run p x repl :
  add_optimized_primitive_info x repl p =
  (Ok tt,
   set_optimized (map (update_optimized_entry x repl) (optimized p) ++ [(x, repl)]) p).
Proof. reflexivity. Qed.

Lemma erase_first_None x l : erase_first x l = None ↔ x ∉ l.
Proof.
  induction l as [|y l IH]; simpl.
  - split; [intros _; apply not_elem_of_nil|done].
  - case_decide as E.
    + subst. split; [done|]. intros Hn. exfalso. apply Hn. constructor.
    + destruct (erase_first x l) eqn:Hl; simpl.
      * split; [done|]. intros Hn. exfalso.
        assert (x ∉ l) as Hx by (intros ?; apply Hn; by constructor).
        apply IH in Hx. done.
      * split; [|done]. intros _. rewrite not_elem_of_cons. split; [done|].
        by apply IH.
Qed.

(** When the id occurs at most once in an entry, the call removes it from
    that entry. *)
Lemma erase_first_NoDup x l l' :
  NoDup l → erase_first x l = Some l' → x ∉ l'.
Proof.
  revert l'. induction l as [|y l IH]; intros l' Hnd; simpl; [done|].
  apply NoDup_cons in Hnd as [Hy Hnd].
  case_decide as E.
  - intros [= <-]. by subst.
  - destruct (erase_first x l) eqn:Hl; simpl; [|done].
    intros [= <-]. rewrite not_elem_of_cons. split; [done|]. by apply IH.
Qed.

(** On a log whose survivor lists have no repetition, a call with survivors
    that do not name the id itself clears the id from every earlier
    entry. *)
Lemma add_optimized_primitive_info_clears p x repl e :
  (∀ e, e ∈ optimized p → NoDup e.2) →
  x ∉ repl →
  e ∈ map (update_optimized_entry x repl) (optimized p) →
  x ∉ e.2.
Proof.
  intros Hnd Hx He. apply list_elem_of_In, in_map_iff in He as (e0 & <- & He0).
  apply list_elem_of_In in He0. unfold update_optimized_entry.
  destruct (erase_first x e0.2) as [second|] eqn:Herase; simpl.
  - rewrite not_elem_of_app. split; [|done].
    eapply erase_first_NoDup; [by apply Hnd|done].
  - by apply erase_first_None.
Qed.

(** ** Inference precision *)

Section precision_facts.

Variable max_type : data_types → data_types → data_types.
Variable is_quantized : data_types → bool.
Variable get_output_layout_const : program_node → outcome layout.

(** The accessor returns a valid layout as stored. *)
Hypothesis get_output_layout_const_valid : ∀ n,
  valid_output_layout n = true → get_output_layout_const n = Ok (output_layout n).

(** The first loop never collects more types than there are dependencies,
    and collects all of them exactly when every dependency has a valid
    layout. *)
Lemma valid_input_types_length p deps :
  (∀ d, d ∈ deps → is_Some (nodes p !! d)) →
  ∃ dts, valid_input_types p deps = Ok dts ∧
    (length dts ≤ length deps)%nat ∧
    (length dts = length deps ↔
       ∀ d nd, d ∈ deps → nodes p !! d = Some nd → valid_output_layout nd = true) ∧
    (length dts = length deps →
       Forall2 (λ d dt, ∃ nd, nodes p !! d = Some nd
                              ∧ dt = data_type (output_layout nd)) deps dts).
Proof.
  induction deps as [|d deps IH]; intros Hin; simpl.
  - exists []. repeat split; try done. intros _ d nd Hd. by apply elem_of_nil in Hd.
  - destruct (Hin d) as [nd Hnd]; [constructor|]. rewrite Hnd.
    destruct IH as (dts & -> & Hlen & Hall & Hf2).
    { intros d' Hd'. apply Hin. by constructor. }
    destruct (valid_output_layout nd) eqn:Hv.
    + exists (data_type (output_layout nd) :: dts). simpl.
      split; [done|]. split; [lia|]. split; [split|].
      * intros Hl d' nd' Hd' Hnd'. apply elem_of_cons in Hd' as [->|Hd'].
        -- congruence.
        -- simpl in Hl. eapply (proj1 Hall); [lia|exact Hd'|exact Hnd'].
      * intros Hv'. f_equal. apply Hall. intros d' nd' Hd'. apply Hv'. by constructor.
      * intros Hl. constructor; [eauto|]. apply Hf2. lia.
    + exists dts. split; [done|]. split; [lia|]. split; [split|].
      * intros Hl. lia.
      * intros Hv'. assert (false = true); [|done].
        rewrite <- Hv. apply (Hv' d nd); [constructor|done].
      * intros Hl. lia.
Qed.

(** C8, as amended: for a node that has dependencies,
    [get_inference_precision] returns f32 whenever the node's own layout is
    not valid or some dependency lacks a valid layout, and applies the
    per-kind rules only when all these layouts are valid.  A node without
    dependencies is answered before that check: the result is whatever the
    layout accessor gives for the node itself, valid layout or not. *)
Theorem get_inference_precision_spec (p : program) (node : node_ptr)
    (n : program_node) :
  nodes p !! node = Some n →
  (∀ d, d ∈ dependencies n → is_Some (nodes p !! d)) →
  (dependencies n ≠ [] →
     (valid_output_layout n = false ∨
      (∃ d nd, d ∈ dependencies n ∧ nodes p !! d = Some nd
               ∧ valid_output_layout nd = false)) →
     get_inference_precision max_type is_quantized get_output_layout_const p node
       = Ok f32) ∧
  (dependencies n ≠ [] →
     valid_output_layout n = true →
     (∀ d nd, d ∈ dependencies n → nodes p !! d = Some nd →
              valid_output_layout nd = true) →
     ∃ input_dts,
       Forall2 (λ d dt, ∃ nd, nodes p !! d = Some nd
                              ∧ dt = data_type (output_layout nd))
               (dependencies n) input_dts ∧
       get_inference_precision max_type is_quantized get_output_layout_const p node =
         precision_by_kind max_type is_quantized n input_dts
           (data_type (output_layout n))) ∧
  (dependencies n = [] →
     get_inference_precision max_type is_quantized get_output_layout_const p node =
       match get_output_layout_const n with
       | Ok l => Ok (data_type l)
       | Throw e => Throw e
       end).
Proof.
  intros Hn Hdeps. unfold get_inference_precision. rewrite Hn.
  destruct (valid_input_types_length p (dependencies n) Hdeps)
    as (dts & Hdts & Hlen & Hall & Hf2).
  split; [|split].
  - intros Hne Hinv. unfold is_input. rewrite bool_decide_eq_false_2 by done.
    rewrite Hdts.
    destruct Hinv as [Hinv|(d & nd & Hd & Hnd & Hinv)].
    + rewrite Hinv. simpl. by rewrite orb_true_r.
    + assert (length dts ≠ length (dependencies n)) as Hl.
      { intros Hl. pose proof (proj1 Hall Hl d nd Hd Hnd). congruence. }
      apply Nat.eqb_neq in Hl. by rewrite Hl.
  - intros Hne Hv Hvd. unfold is_input. rewrite bool_decide_eq_false_2 by done.
    rewrite Hdts. pose proof (proj2 Hall Hvd) as Hl.
    exists dts. split; [by apply Hf2|].
    rewrite Hl, Nat.eqb_refl, Hv. simpl.
    by rewrite (get_output_layout_const_valid n Hv).
  - intros He. unfold is_input. by rewrite bool_decide_eq_true_2.
Qed.

End precision_facts.

Lemma checked_output_layout_valid n :
  valid_output_layout n = true → checked_output_layout n = Ok (output_layout n).
Proof. unfold checked_output_layout. by intros ->. Qed.

Lemma get_inference_precision_spec_witness :
  get_inference_precision sample_max_type sample_is_quantized checked_output_layout
    reorder_program 2%positive
  = Ok f32.
Proof.
  destruct (get_inference_precision_spec sample_max_type sample_is_quantized
              checked_output_layout checked_output_layout_valid
              reorder_program 2%positive
              (plain_node (mk_primitive "r" t_reorder tt "" "") [1%positive] []
                 true true f32) eq_refl) as (_ & Hrules & _).
  - intros d Hd. apply list_elem_of_singleton in Hd as ->.
    exists (plain_node (mk_primitive "in" t_input_layout tt "" "") []
              [2%positive] false true f16). reflexivity.
  - destruct Hrules as (dts & Hf2 & ->); [done|reflexivity| |].
    + intros d nd Hd. apply list_elem_of_singleton in Hd as ->.
      intros [= <-]. reflexivity.
    + simpl in Hf2. apply Forall2_cons_inv_l in Hf2 as (dt & rest & (nd & Hnd & ->) & Hrest & ->).
      apply Forall2_nil_inv_l in Hrest as ->.
      injection Hnd as <-. reflexivity.
Defined.

(** C8 as stated fails: an input node whose layout is not valid is not
    answered with f32.  With the accessor that checks validity the call
    throws; with the one that returns the stored layout the answer is the
    stored type, here f16. *)
Lemma get_inference_precision_input_counterexample :
  (valid_output_layout <$> nodes invalid_input_program !! 1%positive) = Some false ∧
  get_inference_precision sample_max_type sample_is_quantized checked_output_layout
    invalid_input_program 1%positive
  = Throw (runtime_error "Output layout not calculated for in node") ∧
  get_inference_precision sample_max_type sample_is_quantized stored_output_layout
    invalid_input_program 1%positive
  = Ok f16.
Proof. repeat split. Qed.

(** ** Replacing a node *)

(** The precondition of [replace]: a replacement that has users or
    dependencies is refused before anything is written. *)
Lemma replace_requires_detached calc_output_layout p old_node new_node new :
  nodes p !! new_node = Some new →
  dependencies new ≠ [] ∨ users new ≠ [] →
  replace calc_output_layout old_node new_node p =
    (Throw (invalid_argument
       "Node which is about to replace other node should be detached"), p).
Proof.
  intros Hnew Hatt. unfold replace.
  rewrite (bind_ok _ _ _ _ _ (read_node_ok _ _ _ Hnew)).
  destruct Hatt as [H|H].
  - by rewrite (bool_decide_eq_false_2 _ H).
  - rewrite (bool_decide_eq_false_2 _ H). by rewrite orb_true_r.
Qed.

(** The copy loop of [replace] returns within its bound: every round takes
    the front dependency, and with it all its repetitions, out of
    [old.dependencies]. *)
Lemma copy_dependencies_returns old_node new_node :
  old_node ≠ new_node →
  ∀ fuel p old,
    nodes p !! old_node = Some old →
    (length (dependencies old) ≤ fuel)%nat →
    ∃ p' old',
      copy_dependencies fuel old_node new_node p = (Ok tt, p') ∧
      nodes p' !! old_node = Some old' ∧ dependencies old' = [].
Proof.
  intros Hne fuel. induction fuel as [|fuel IH]; intros p old Hold Hlen.
  - destruct (dependencies old) as [|dep rest] eqn:Hdeps; [|simpl in Hlen; lia].
    exists p, old. simpl.
    rewrite (bind_ok _ _ _ _ _ (read_node_ok _ _ _ Hold)). by rewrite Hdeps.
  - cbn [copy_dependencies].
    rewrite (bind_ok _ _ _ _ _ (read_node_ok _ _ _ Hold)).
    destruct (dependencies old) as [|dep rest] eqn:Hdeps; [by exists p, old|].
    unfold add_connection, remove_connection, update_node, modify.
    unfold mbind at 1 2 3 4, M_bind at 1 2 3 4. cbn [fst snd].
    match goal with |- context [copy_dependencies fuel old_node new_node ?q] =>
      set (p1 := q) end.
    assert (Hold1 : ∃ old1, nodes p1 !! old_node = Some old1 ∧
                      dependencies old1 = remove_all dep (dependencies old)).
    { subst p1. cbn [nodes set_nodes]. rewrite lookup_alter_eq.
      rewrite !lookup_alter. repeat case_decide; subst; try done;
        rewrite Hold; simpl; eauto. }
    destruct Hold1 as (old1 & Hold1 & Hdeps1).
    apply (IH p1 old1 Hold1). rewrite Hdeps1, Hdeps. unfold remove_all.
    rewrite filter_cons, decide_False by (intros H; by apply H).
    pose proof (length_filter (λ x, x ≠ dep) rest). simpl in Hlen. lia.
Qed.

(** C6 fails on the code where [old] reads one producer twice.  With
    [old.dependencies = [a; a]] the first round of the copy loop connects
    [a] to [new] once and [remove_connection] then erases both occurrences
    of [a] from [old]: [replace] succeeds, and [new] is left with the single
    dependency [a] and [a] with the single user [new]. *)
Theorem replace_loses_repeated_dependency :
  (dependencies <$> nodes double_edge_program !! 2%positive)
    = Some [1%positive; 1%positive] ∧
  ∃ p',
    replace no_calc_output_layout 2%positive 3%positive double_edge_program
      = (Ok tt, p') ∧
    (dependencies <$> nodes p' !! 3%positive) = Some [1%positive] ∧
    (users <$> nodes p' !! 1%positive) = Some [3%positive] ∧
    (node_id <$> nodes p' !! 3%positive) = Some "old" ∧
    nodes_map p' !! "old" = Some 3%positive ∧
    processing_order p' = [1%positive; 3%positive].
Proof.
  split; [reflexivity|]. eexists. split; [vm_compute; reflexivity|].
  repeat split.
Qed.

(** ** Fusing: the quantize drop table *)

(** The six updates of [can_drop_input] amount to the table. *)
Lemma can_drop_input_table q i : can_drop_input q i = true ↔ drop_table q i.
Proof.
  unfold can_drop_input, drop_table, output_range_in_use.
  destruct (per_tensor_output_range q), (SFltb (output_lo_val q) (output_hi_val q)),
    (need_clamp q); cbn [orb andb negb];
  rewrite ?orb_true_iff, ?andb_true_iff, ?orb_true_iff, ?negb_true_iff, ?Nat.eqb_eq;
  intuition (try discriminate; try congruence).
Qed.

Lemma push_edge_ids fused_node m d x :
  node_id <$> push_edge fused_node m d !! x = node_id <$> m !! x.
Proof.
  unfold push_edge. rewrite !lookup_alter.
  repeat case_decide; subst; try done; by destruct (m !! _).
Qed.

Lemma quantize_drops_table peer q i :
  as_quantize (desc peer) = Some q → scale_shift_opt q = true →
  quantize_drops peer i = true ↔ drop_table q i.
Proof.
  intros Hq Hs. unfold quantize_drops. rewrite Hq, Hs. simpl.
  apply can_drop_input_table.
Qed.

(** The dependencies the loop transfers, from peer input [i] on, given the
    ids of the nodes. *)
Lemma filter_transferred_ext p p' host_id q (l : list (nat * node_ptr)) :
  (∀ x, node_id <$> nodes p' !! x = node_id <$> nodes p !! x) →
  filter (is_transferred p' host_id q) l = filter (is_transferred p host_id q) l.
Proof.
  intros Hids. apply list_filter_iff. intros [i d]. unfold is_transferred. simpl.
  by rewrite Hids.
Qed.

Lemma add_peer_dependencies_run fused_node peer q host_id deps :
  as_quantize (desc peer) = Some q → scale_shift_opt q = true →
  ∀ i p local_deps deps_idx,
    (node_id <$> nodes p !! fused_node) = Some host_id →
    (∀ d, d ∈ deps → is_Some (nodes p !! d)) →
    ∃ r,
      add_peer_dependencies fused_node peer i deps local_deps deps_idx p =
      (Ok r,
       set_nodes
         (foldl (push_edge fused_node) (nodes p)
            (filter (is_transferred p host_id q) (imap (λ j, pair (i + j)%nat) deps)).*2)
         p).
Proof.
  intros Hq Hs. induction deps as [|d deps IH]; intros i p local_deps deps_idx Hf Hin.
  - simpl. eexists. unfold mret, M_ret. by rewrite set_nodes_id.
  - destruct (Hin d) as [nd Hnd]; [constructor|].
    destruct (nodes p !! fused_node) as [nf|] eqn:Hnf; [|done].
    injection Hf as Hf.
    cbn [add_peer_dependencies].
    rewrite (bind_ok _ _ _ _ _ (read_node_ok _ _ _ Hnd)).
    rewrite (bind_ok _ _ _ _ _ (read_node_ok _ _ _ Hnf)).
    cbn [imap]. rewrite filter_cons. rewrite Nat.add_0_r.
    assert (Hshift : imap ((λ j, pair (i + j)%nat) ∘ S) deps
                     = imap (λ j, pair (S i + j)%nat) deps).
    { apply imap_ext. intros j y _. simpl. f_equal. lia. }
    rewrite Hshift.
    assert (Hin' : ∀ d', d' ∈ deps → is_Some (nodes p !! d')).
    { intros d' Hd'. apply Hin. by constructor. }
    destruct (decide (node_id nd = node_id nf)) as [Hhost|Hhost].
    + rewrite bool_decide_eq_true_2 by done.
      rewrite decide_False.
      2:{ unfold is_transferred. simpl. rewrite Hnd. simpl. intros [Hne _].
          apply Hne. congruence. }
      apply IH; [by rewrite Hnf; simpl; congruence|done].
    + rewrite bool_decide_eq_false_2 by done.
      destruct (quantize_drops peer i) eqn:Hdrop.
      * rewrite decide_False.
        2:{ unfold is_transferred. simpl. intros [_ Hnt]. apply Hnt.
            by apply (quantize_drops_table peer q i Hq Hs). }
        apply IH; [by rewrite Hnf; simpl; congruence|done].
      * rewrite decide_True.
        2:{ unfold is_transferred. simpl. rewrite Hnd. simpl. split; [congruence|].
            intros Ht. apply (quantize_drops_table peer q i Hq Hs) in Ht. congruence. }
        unfold update_node at 1 2. unfold modify.
        unfold mbind at 1 2, M_bind at 1 2. cbn [fmap list_fmap foldl snd].
        set (p1 := set_nodes _ (set_nodes _ p)).
        assert (Hp1 : p1 = set_nodes (push_edge fused_node (nodes p) d) p)
          by (by destruct p).
        assert (Hids : ∀ x, node_id <$> nodes p1 !! x = node_id <$> nodes p !! x).
        { intros x. rewrite Hp1. simpl. apply push_edge_ids. }
        destruct (IH (S i) p1 (local_deps ++ [(node_id nd, deps_idx)]) (S deps_idx))
          as [r Hr].
        { rewrite Hids, Hnf. simpl. congruence. }
        { intros d' Hd'. destruct (Hin' d' Hd') as [x Hx].
          pose proof (Hids d') as Hi.
          destruct (nodes p1 !! d') eqn:E; [eauto|]. by rewrite Hx in Hi. }
        exists r. rewrite Hr. f_equal.
        rewrite (filter_transferred_ext p p1 host_id q _ Hids).
        rewrite Hp1. by destruct p.
Qed.

(** The effect of the transferred edges on the store. *)
Lemma foldl_push_edge_fused fused_node kept : ∀ m nf,
  fused_node ∉ kept →
  m !! fused_node = Some nf →
  ∃ nf', foldl (push_edge fused_node) m kept !! fused_node = Some nf' ∧
         dependencies nf' = dependencies nf ++ kept ∧ users nf' = users nf ∧
         desc nf' = desc nf.
Proof.
  induction kept as [|d kept IH]; intros m nf Hnot Hm; simpl.
  - exists nf. by rewrite app_nil_r.
  - apply not_elem_of_cons in Hnot as [Hne Hnot].
    destruct (IH (push_edge fused_node m d)
                 (set_dependencies (dependencies nf ++ [d]) nf) Hnot)
      as (nf' & Hl & Hd & Hu & Hdesc).
    { unfold push_edge. rewrite lookup_alter_ne by done.
      by rewrite lookup_alter_eq, Hm. }
    exists nf'. split; [done|]. simpl in *. by rewrite Hd, <- app_assoc.
Qed.

Lemma foldl_push_edge_other fused_node kept : ∀ m x nx,
  x ≠ fused_node →
  m !! x = Some nx →
  ∃ nx', foldl (push_edge fused_node) m kept !! x = Some nx' ∧
         users nx' = users nx ++ replicate (occurrences x kept) fused_node ∧
         dependencies nx' = dependencies nx ∧ desc nx' = desc nx.
Proof.
  induction kept as [|d kept IH]; intros m x nx Hne Hm; simpl.
  - exists nx. by rewrite app_nil_r.
  - unfold occurrences. rewrite filter_cons.
    destruct (decide (d = x)) as [->|Hdx].
    + destruct (IH (push_edge fused_node m x) x
                   (set_users (users nx ++ [fused_node]) nx) Hne)
        as (nx' & Hl & Hu & Hd & Hdesc).
      { unfold push_edge. rewrite lookup_alter_eq.
        by rewrite lookup_alter_ne, Hm. }
      exists nx'. split; [done|]. simpl in *. rewrite Hu.
      by rewrite <- app_assoc.
    + destruct (IH (push_edge fused_node m d) x nx Hne) as (nx' & Hl & Hu & Hd & Hdesc).
      { unfold push_edge. by rewrite !lookup_alter_ne. }
      exists nx'. by split.
Qed.


Lemma transferred_not_host p host_id q deps d :
  d ∈ transferred_dependencies p host_id q deps →
  (node_id <$> nodes p !! d) ≠ Some host_id.
Proof.
  unfold transferred_dependencies. intros Hd.
  apply list_elem_of_fmap in Hd as ([i d'] & -> & Hd).
  apply list_elem_of_filter in Hd as [[Hne _] _]. exact Hne.
Qed.

(** C2: when the peer is a quantize node with [scale_shift_opt] active, the
    loop of [fuse_nodes] over the peer's dependencies transfers to the host
    exactly the dependencies that are not the host itself and whose index
    the drop table does not name.  Each transferred dependency is appended
    to the host's dependency list, in order, and gets the host appended to
    its users once per transfer; nothing else in the graph changes.  For a
    dependency other than the host, being dropped is therefore the same as
    being named by the table: index 1 or 2 with the per-tensor output range
    in use or no clamp needed, index 3 or 4, index 5 with a per-tensor input
    scale, 6 with a per-tensor input shift or no pre-shift, 7 with a
    per-tensor output scale or no post-scale, 8 with a per-tensor output
    shift or no post-shift. *)
Theorem fuse_nodes_quantize_drop_table (p : program)
    (fused_node peer_node : node_ptr) (nf np : program_node)
    (q : quantize_fields) :
  nodes p !! fused_node = Some nf →
  nodes p !! peer_node = Some np →
  as_quantize (desc np) = Some q →
  scale_shift_opt q = true →
  (∀ d, d ∈ dependencies np → is_Some (nodes p !! d)) →
  let kept := transferred_dependencies p (node_id nf) q (dependencies np) in
  ∃ r p' nf',
    fuse_nodes_add_dependencies fused_node peer_node p = (Ok r, p') ∧
    set_nodes (nodes p) p' = p ∧
    nodes p' !! fused_node = Some nf' ∧
    dependencies nf' = dependencies nf ++ kept ∧
    users nf' = users nf ∧
    (∀ x nx, x ≠ fused_node → nodes p !! x = Some nx →
       ∃ nx', nodes p' !! x = Some nx' ∧
              users nx' = users nx ++ replicate (occurrences x kept) fused_node ∧
              dependencies nx' = dependencies nx) ∧
    (∀ i d nd, dependencies np !! i = Some d → nodes p !! d = Some nd →
       node_id nd ≠ node_id nf →
       ((i, d) ∉ filter (is_transferred p (node_id nf) q) (imap pair (dependencies np))
        ↔ drop_table q i)).
Proof.
  intros Hnf Hnp Hq Hs Hdeps kept.
  unfold fuse_nodes_add_dependencies.
  rewrite (bind_ok _ _ _ _ _ (read_node_ok _ _ _ Hnp)).
  destruct (add_peer_dependencies_run fused_node np q (node_id nf) (dependencies np)
              Hq Hs 0%nat p [] 0%nat) as [[local_deps deps_idx] Hrun].
  { by rewrite Hnf. }
  { done. }
  rewrite (bind_ok _ _ _ _ _ Hrun). cbn [Nat.add] in *.
  assert (Himap : imap (λ j : nat, pair j) (dependencies np) = imap pair (dependencies np))
    by (by apply imap_ext).
  rewrite Himap. fold (transferred_dependencies p (node_id nf) q (dependencies np)).
  fold kept.
  assert (Hnot : fused_node ∉ kept).
  { intros Hin. apply transferred_not_host in Hin. by rewrite Hnf in Hin. }
  destruct (foldl_push_edge_fused fused_node kept (nodes p) nf Hnot Hnf)
    as (nf' & Hl & Hd & Hu & _).
  eexists _, _, nf'. split; [reflexivity|].
  split; [by destruct p|]. split; [exact Hl|]. split; [exact Hd|]. split; [exact Hu|].
  split.
  - intros x nx Hx Hnx.
    destruct (foldl_push_edge_other fused_node kept (nodes p) x nx Hx Hnx)
      as (nx' & Hl' & Hu' & Hd' & _).
    exists nx'. by split.
  - intros i d nd Hi Hnd Hne. rewrite list_elem_of_filter.
    unfold is_transferred. simpl. rewrite Hnd. simpl. split.
    + intros Hn. destruct (decide (drop_table q i)) as [Ht|Ht]; [done|].
      exfalso. apply Hn. split; [split; [congruence|done]|].
      apply list_elem_of_lookup. exists i. rewrite list_lookup_imap, Hi. done.
    + intros Ht [[_ Hnt] _]. done.
Qed.

Lemma fuse_nodes_quantize_drop_table_witness :
  ∃ r p' nf',
    fuse_nodes_add_dependencies 1%positive 2%positive quantize_peer_program = (Ok r, p') ∧
    nodes p' !! 1%positive = Some nf' ∧
    dependencies nf' = [3; 4; 7; 9]%positive.
Proof.
  destruct (fuse_nodes_quantize_drop_table quantize_peer_program 1%positive 2%positive
              (plain_node (eltwise_desc "host") [] [2%positive] false true f32)
              (plain_node (mk_primitive "q" t_quantize sample_quantize "" "")
                 [1; 3; 4; 5; 6; 7; 8; 9; 10]%positive [] true true u8)
              sample_quantize eq_refl eq_refl eq_refl eq_refl)
    as (r & p' & nf' & Hrun & _ & Hnf' & Hdeps & _).
  - intros d Hd. simpl in Hd.
    repeat (apply elem_of_cons in Hd as [->|Hd]; [eexists; reflexivity|]).
    by apply elem_of_nil in Hd.
  - exists r, p', nf'. split; [exact Hrun|]. split; [exact Hnf'|]. exact Hdeps.
Defined.

(** ** Output-size handling analysis *)

Section analysis_facts.

Variable calc_output_layout : node_ptr → M layout.
Variable inferred_layout : node_ptr → layout.
Variable calc_sliding_window_output_range :
  swor_mode → tensor → tensor → list Z → list Z → list Z → bool → Z → tensor.
Variable calc_sliding_window_needed_input_range :
  tensor → tensor → list Z → list Z → list Z → bool → Z → tensor.
Variable weights_index : primitive → nat.

#[local] Abbreviation computed :=
  (computed_output_range inferred_layout calc_sliding_window_output_range
     calc_sliding_window_needed_input_range weights_index).
#[local] Abbreviation disagrees :=
  (output_size_disagrees inferred_layout calc_sliding_window_output_range
     calc_sliding_window_needed_input_range weights_index).
#[local] Abbreviation available :=
  (shapes_available inferred_layout calc_sliding_window_output_range
     calc_sliding_window_needed_input_range weights_index).
#[local] Abbreviation disagrees_b :=
  (output_size_disagrees_b inferred_layout calc_sliding_window_output_range
     calc_sliding_window_needed_input_range weights_index).
#[local] Abbreviation settled := (layouts_settled inferred_layout).

(** Reading a valid layout returns it and leaves the program alone. *)
Lemma get_output_layout_valid p node n :
  nodes p !! node = Some n → valid_output_layout n = true →
  get_output_layout calc_output_layout node p = (Ok (output_layout n), p).
Proof.
  intros Hn Hv. unfold get_output_layout.
  rewrite (bind_ok _ _ _ _ _ (read_node_ok _ _ _ Hn)). by rewrite Hv.
Qed.

(** The range the code builds is the declared range. *)
Lemma specified_output_range_declared output_size :
  specified_output_range output_size = declared_range output_size.
Proof. reflexivity. Qed.

(** The window the code builds, extent by extent. *)
Lemma pooling_window_from_lookup (l : list Z) : ∀ (i : nat) (t : tensor) (k : nat),
  pooling_window_from i l t !! k =
  if decide (2 + i ≤ k < 2 + i + length l ∧ k < length t)%nat
  then l !! (k - 2 - i)%nat else t !! k.
Proof.
  induction l as [|v l IH]; intros i t k; cbn [pooling_window_from length].
  - rewrite decide_False by lia. done.
  - rewrite IH. unfold tensor_set_spatial.
    assert (Hlen : length (<[(2 + i)%nat := v]> t) = length t)
      by apply length_insert.
    rewrite Hlen. clear Hlen.
    assert (Hins : <[(2 + i)%nat := v]> t !! k =
                   if decide ((2 + i)%nat = k ∧ (2 + i < length t)%nat)
                   then Some v else t !! k) by apply list_lookup_insert.
    rewrite Hins. clear Hins.
    destruct (decide (2 + S i ≤ k < 2 + S i + length l ∧ k < length t)%nat)
      as [Hin|Hout].
    + rewrite (decide_True (P := (2 + i ≤ k < 2 + i + S (length l) ∧ _)%nat)) by lia.
      by replace (k - 2 - i)%nat with (S (k - 2 - S i)) by lia.
    + destruct (decide ((2 + i)%nat = k ∧ (2 + i < length t)%nat)) as [[<- Hlt]|Hne].
      * rewrite (decide_True (P := (2 + i ≤ 2 + i < _ ∧ _)%nat)) by lia.
        by replace (2 + i - 2 - i)%nat with 0%nat by lia.
      * rewrite (decide_False (P := (2 + i ≤ k < 2 + i + S (length l) ∧ _)%nat))
          by lia.
        done.
Qed.

(** The window the code builds is the window shape. *)
Lemma pooling_window_shape prim_size :
  pooling_window prim_size = window_shape prim_size.
Proof.
  unfold pooling_window, window_shape. apply list_eq. intros k.
  rewrite pooling_window_from_lookup.
  change (length (tensor_of_sizes [] 1)) with 8%nat.
  do 2 (destruct k as [|k]; [case_decide; [lia|reflexivity]|]).
  do 6 (destruct k as [|k];
        [cbn [lookup list_lookup app fmap list_fmap seq Nat.sub Nat.add];
         case_decide as H;
         [destruct (rev prim_size !! _) eqn:E;
          [done|apply lookup_ge_None in E; simpl in H; lia]
         |rewrite (lookup_ge_None_2 (rev prim_size)) by (simpl in H |- *; lia);
          reflexivity]
        |]).
  case_decide; [lia|reflexivity].
Qed.

Lemma layouts_settled_refl p : settled p p.
Proof. split; [by destruct p|]. intros x. by left. Qed.

Lemma layouts_settled_trans p1 p2 p3 :
  settled p1 p2 → settled p2 p3 → settled p1 p3.
Proof.
  intros [E12 H12] [E23 H23]. split.
  - rewrite E23. rewrite E12. reflexivity.
  - intros x. destruct (H23 x) as [E|(n & Hn & Hv & Hn')].
    + rewrite E. apply H12.
    + destruct (H12 x) as [E|(n0 & Hn0 & Hv0 & Hn2)].
      * right. exists n. rewrite <- E. done.
      * rewrite Hn2 in Hn. injection Hn as <-. done.
Qed.

(** What a settled program holds at an address. *)
Lemma layouts_settled_lookup p p' x n :
  settled p p' → nodes p !! x = Some n →
  ∃ n', nodes p' !! x = Some n' ∧ desc n' = desc n ∧
        dependencies n' = dependencies n ∧
        (n' = n ∨ (valid_output_layout n = false
                   ∧ n' = with_layout (inferred_layout x) n)).
Proof.
  intros [_ H] Hn. destruct (H x) as [E|(n0 & Hn0 & Hv & Hn')].
  - exists n. rewrite E. split; [done|]. split; [done|]. split; [done|]. by left.
  - assert (n0 = n) as -> by congruence.
    exists (with_layout (inferred_layout x) n).
    split; [done|]. split; [done|]. split; [done|]. by right.
Qed.

Section settling.

(** The program the analysis starts from, and what layout inference does on
    it and on the programs that differ from it in settled layouts only: it
    returns the inferred layout of the node and at most settles further
    layouts. *)
Variable p0 : program.
Hypothesis calc_output_layout_settles : ∀ node p,
  settled p0 p →
  ∃ p', calc_output_layout node p = (Ok (inferred_layout node), p') ∧ settled p p'.

(** Reading a layout, valid or not. *)
Lemma get_output_layout_settled p d l :
  settled p0 p →
  layout_of inferred_layout p0 d = Some l →
  ∃ p', get_output_layout calc_output_layout d p = (Ok l, p') ∧ settled p0 p'.
Proof.
  intros Hs Hl. unfold layout_of in Hl.
  destruct (nodes p0 !! d) as [nd0|] eqn:Hd0; [|done]. injection Hl as <-.
  destruct (layouts_settled_lookup p0 p d nd0 Hs Hd0)
    as (nd & Hd & _ & _ & [-> | [Hv ->]]).
  - destruct (valid_output_layout nd0) eqn:Hv.
    + exists p. split; [|done]. by apply get_output_layout_valid.
    + destruct (calc_output_layout_settles d p Hs) as (p1 & Hcalc & Hs1).
      pose proof (layouts_settled_trans _ _ _ Hs Hs1) as Hs01.
      unfold get_output_layout.
      rewrite (bind_ok _ _ _ _ _ (read_node_ok _ _ _ Hd)). rewrite Hv.
      rewrite (bind_ok _ _ _ _ _ Hcalc).
      eexists. split; [reflexivity|]. destruct Hs01 as [E01 H01]. split.
      * simpl. rewrite E01. reflexivity.
      * intros x. simpl. destruct (decide (x = d)) as [->|Hne].
        -- right. exists nd0. split; [done|]. split; [done|].
           rewrite lookup_alter_eq.
           destruct (H01 d) as [E|(n & Hn & _ & ->)].
           ++ by rewrite E, Hd0.
           ++ assert (n = nd0) as -> by congruence. done.
        -- rewrite lookup_alter_ne by done. apply H01.
  - exists p. split; [|done]. rewrite Hv.
    by rewrite (get_output_layout_valid p d _ Hd eq_refl).
Qed.

(** Reading the shape of dependency [idx]. *)
Lemma shape_read_settled p node n idx t :
  settled p0 p →
  nodes p0 !! node = Some n →
  shape_of inferred_layout p0 n idx = Some t →
  ∃ p',
    (d ← get_dependency node idx;
     l ← get_output_layout calc_output_layout d;
     mret (size l)) p = (Ok t, p') ∧ settled p0 p'.
Proof.
  intros Hs Hn Ht. unfold shape_of in Ht.
  destruct (dependencies n !! idx) as [d|] eqn:Hd; [|done]. simpl in Ht.
  destruct (layout_of inferred_layout p0 d) as [l|] eqn:Hl; [|done].
  injection Ht as <-.
  destruct (layouts_settled_lookup p0 p node n Hs Hn) as (n' & Hn' & _ & Hdeps & _).
  assert (Hdep : get_dependency node idx p = (Ok d, p)).
  { unfold get_dependency. rewrite (bind_ok _ _ _ _ _ (read_node_ok _ _ _ Hn')).
    by rewrite Hdeps, Hd. }
  destruct (get_output_layout_settled p d l Hs Hl) as (p' & Hget & Hs').
  exists p'. split; [|done].
  rewrite (bind_ok _ _ _ _ _ Hdep). by rewrite (bind_ok _ _ _ _ _ Hget).
Qed.

Lemma disagrees_b_spec p n : disagrees_b p n = true ↔ disagrees p n.
Proof.
  unfold output_size_disagrees_b, output_size_disagrees. split.
  - intros [Hd H]%andb_true_iff. split; [done|].
    destruct (declared_output_range (desc n)) as [a|]; [|done].
    destruct (computed p n) as [b|]; [|done].
    apply bool_decide_eq_true in H. eauto.
  - intros (Hd & a & b & -> & -> & Hne). rewrite Hd. simpl.
    by apply bool_decide_eq_true.
Qed.

(** One round of the analysis, in a program whose layouts may have been
    settled by earlier rounds. *)
Lemma output_size_mismatch_run p node n :
  settled p0 p →
  nodes p0 !! node = Some n →
  available p0 n →
  ∃ p',
    output_size_mismatch calc_output_layout calc_sliding_window_output_range
      calc_sliding_window_needed_input_range weights_index node p
    = (Ok (disagrees_b p0 n), p') ∧ settled p0 p'.
Proof.
  intros Hs Hn Hav. unfold output_size_mismatch, shapes_available in *.
  destruct (layouts_settled_lookup p0 p node n Hs Hn) as (n' & Hn' & Hdesc & _ & _).
  rewrite (bind_ok _ _ _ _ _ (read_node_ok _ _ _ Hn')). rewrite Hdesc.
  unfold output_size_disagrees_b, declares_output_size, declared_output_range,
    computed_output_range in *.
  unfold filter_size_of, input_size_of.
  destruct (as_convolution (desc n)) as [prim|].
  { destruct (conv_with_output_size prim); simpl; [|by exists p].
    destruct Hav as [t Ht]; [done|].
    destruct (shape_of inferred_layout p0 n (weights_index (desc n)))
      as [fs|] eqn:Hfs; [|done].
    destruct (shape_of inferred_layout p0 n 0) as [ins|] eqn:Hin; [|done].
    simpl in *.
    destruct (shape_read_settled p node n _ fs Hs Hn Hfs) as (p1 & Hr1 & Hs1).
    destruct (shape_read_settled p1 node n _ ins Hs1 Hn Hin) as (p2 & Hr2 & Hs2).
    exists p2. split; [|done].
    rewrite (bind_ok _ _ _ _ _ Hr1). by rewrite (bind_ok _ _ _ _ _ Hr2). }
  destruct (as_binary_convolution (desc n)) as [prim|].
  { simpl. destruct Hav as [t Ht]; [done|].
    destruct (shape_of inferred_layout p0 n (weights_index (desc n)))
      as [fs|] eqn:Hfs; [|done].
    destruct (shape_of inferred_layout p0 n 0) as [ins|] eqn:Hin; [|done].
    simpl in *.
    destruct (shape_read_settled p node n _ fs Hs Hn Hfs) as (p1 & Hr1 & Hs1).
    destruct (shape_read_settled p1 node n _ ins Hs1 Hn Hin) as (p2 & Hr2 & Hs2).
    exists p2. split; [|done].
    rewrite (bind_ok _ _ _ _ _ Hr1). by rewrite (bind_ok _ _ _ _ _ Hr2). }
  destruct (as_deconvolution (desc n)) as [prim|].
  { destruct (deconv_with_output_size prim); simpl; [|by exists p].
    destruct Hav as [t Ht]; [done|].
    destruct (shape_of inferred_layout p0 n (weights_index (desc n)))
      as [fs|] eqn:Hfs; [|done].
    destruct (shape_of inferred_layout p0 n 0) as [ins|] eqn:Hin; [|done].
    simpl in *.
    destruct (shape_read_settled p node n _ fs Hs Hn Hfs) as (p1 & Hr1 & Hs1).
    destruct (shape_read_settled p1 node n _ ins Hs1 Hn Hin) as (p2 & Hr2 & Hs2).
    exists p2. split; [|done].
    rewrite (bind_ok _ _ _ _ _ Hr1). by rewrite (bind_ok _ _ _ _ _ Hr2). }
  destruct (as_pooling (desc n)) as [prim|]; [|by exists p].
  destruct (pool_with_output_size prim); simpl; [|by exists p].
  destruct Hav as [t Ht]; [done|].
  destruct (shape_of inferred_layout p0 n 0) as [ins|] eqn:Hin; [|done].
  simpl in *.
  destruct (shape_read_settled p node n _ ins Hs Hn Hin) as (p1 & Hr1 & Hs1).
  exists p1. split; [|done].
  rewrite (bind_ok _ _ _ _ _ Hr1). by rewrite pooling_window_shape.
Qed.

Lemma analyze_loop_run order : ∀ p handling_needed,
  settled p0 p →
  (∀ node, node ∈ order → ∃ n, nodes p0 !! node = Some n ∧ available p0 n) →
  ∃ b p',
    analyze_loop calc_output_layout calc_sliding_window_output_range
      calc_sliding_window_needed_input_range weights_index order handling_needed p
    = (Ok b, p') ∧ settled p0 p' ∧
    (b = true ↔ handling_needed = true ∨
                 ∃ node n, node ∈ order ∧ nodes p0 !! node = Some n ∧ disagrees p0 n).
Proof.
  induction order as [|node order IH]; intros p acc Hs Hall; simpl.
  - exists acc, p. split; [done|]. split; [done|]. split; [auto|].
    intros [H|(node & n & Hin & _)]; [done|]. by apply elem_of_nil in Hin.
  - destruct (Hall node) as (n & Hn & Hav); [constructor|].
    destruct (output_size_mismatch_run p node n Hs Hn Hav) as (p1 & Hrun1 & Hs1).
    rewrite (bind_ok _ _ _ _ _ Hrun1).
    destruct (IH p1 (if disagrees_b p0 n then true else acc) Hs1)
      as (b & p' & Hrun & Hs' & Hb).
    { intros node' Hin'. apply Hall. by constructor. }
    exists b, p'. split; [exact Hrun|]. split; [exact Hs'|]. rewrite Hb. split.
    + intros [Hacc|(node' & n' & Hin' & Hn' & Hdis)].
      * destruct (disagrees_b p0 n) eqn:Hd; [|auto].
        right. exists node, n. split; [constructor|]. split; [done|].
        by apply disagrees_b_spec.
      * right. exists node', n'. split; [by constructor|]. done.
    + intros [Hacc|(node' & n' & Hin' & Hn' & Hdis)].
      * left. rewrite Hacc. by destruct (disagrees_b p0 n).
      * apply elem_of_cons in Hin' as [->|Hin'].
        -- left. assert (n' = n) as -> by congruence.
           apply disagrees_b_spec in Hdis. by rewrite Hdis.
        -- right. eauto.
Qed.

End settling.

(** C5: [analyze_output_size_handling_need] returns [true] exactly when
    the processing order holds a convolution, binary convolution,
    deconvolution or pooling node that declares a desired output size and
    whose declared output range differs from the range the sliding-window
    calculators compute over the current input and filter shapes (mode
    [all] for the two convolutions, the needed input range for a
    deconvolution, mode [exceed_once_data] for a pooling).  The current
    shape of a node is the stored one where its layout is valid and the one
    layout inference gives where it is not: the analysis runs before the
    layouts are computed, and the only change it makes to the program is to
    settle layouts it reads.  Every node of the order is live and so are
    the dependencies the analysis reads. *)
Theorem analyze_output_size_handling_need_spec (p : program) :
  (∀ node p1, settled p p1 →
     ∃ p2, calc_output_layout node p1 = (Ok (inferred_layout node), p2)
           ∧ settled p1 p2) →
  (∀ node, node ∈ processing_order p →
     ∃ n, nodes p !! node = Some n ∧ available p n) →
  ∃ b p',
    analyze_output_size_handling_need calc_output_layout
      calc_sliding_window_output_range calc_sliding_window_needed_input_range
      weights_index p = (Ok b, p') ∧
    settled p p' ∧
    (b = true ↔
       ∃ node n, node ∈ processing_order p ∧ nodes p !! node = Some n
                 ∧ disagrees p n).
Proof.
  intros Hcalc Hall. unfold analyze_output_size_handling_need.
  rewrite (bind_ok get_program _ p p p) by reflexivity.
  destruct (analyze_loop_run p Hcalc (processing_order p) p false
              (layouts_settled_refl p) Hall) as (b & p' & Hrun & Hs & Hb).
  exists b, p'. split; [exact Hrun|]. split; [exact Hs|]. rewrite Hb. split.
  - intros [H|H]; [done|exact H].
  - auto.
Qed.

End analysis_facts.

Lemma analyze_output_size_handling_need_spec_witness :
  ∃ b p',
    analyze_output_size_handling_need sample_calc_output_layout
      sample_output_range sample_needed_input_range (λ _, 1%nat)
      pending_conv_program = (Ok b, p') ∧
    layouts_settled sample_inferred_layout pending_conv_program p' ∧
    (b = true ↔
       ∃ node n, node ∈ processing_order pending_conv_program
                 ∧ nodes pending_conv_program !! node = Some n
                 ∧ output_size_disagrees sample_inferred_layout sample_output_range
                     sample_needed_input_range (λ _, 1%nat)
                     pending_conv_program n).
Proof.
  apply analyze_output_size_handling_need_spec.
  - intros node p1 _. exists p1. split; [reflexivity|].
    apply layouts_settled_refl.
  - intros node Hin. simpl in Hin.
    apply elem_of_cons in Hin as [->|Hin];
      [eexists; split; [reflexivity|]; intros Hd; discriminate Hd|].
    apply elem_of_cons in Hin as [->|Hin];
      [eexists; split; [reflexivity|]; intros Hd; discriminate Hd|].
    apply elem_of_cons in Hin as [->|Hin];
      [eexists; split; [reflexivity|]; intros _; eexists; reflexivity|].
    by apply elem_of_nil in Hin.
Defined.

(** On that program the analysis answers [true] and leaves the layout of
    the input computed; on the graph whose layouts are valid it answers
    [true] and changes nothing. *)
Example analyze_pending_conv_program :
  ∃ p',
    analyze_output_size_handling_need sample_calc_output_layout
      sample_output_range sample_needed_input_range (λ _, 1%nat)
      pending_conv_program = (Ok true, p') ∧
    (valid_output_layout <$> nodes p' !! 1%positive) = Some true ∧
    (valid_output_layout <$> nodes pending_conv_program !! 1%positive) = Some false.
Proof. eexists. split; [vm_compute; reflexivity|]. split; reflexivity. Qed.

Example analyze_conv_program :
  analyze_output_size_handling_need no_calc_output_layout
    sample_output_range sample_needed_input_range (λ _, 1%nat) conv_program
  = (Ok true, conv_program).
Proof. vm_compute. reflexivity. Qed.

(** ** Layout optimizer attributes *)

Lemma as_convolution_type d conv : as_convolution d = Some conv → type d = t_convolution.
Proof. destruct d as [i t ty o1 o2]. unfold as_convolution. simpl. by destruct t. Qed.

Lemma as_mvn_type d prim : as_mvn d = Some prim → type d = t_mvn.
Proof. destruct d as [i t ty o1 o2]. unfold as_mvn. simpl. by destruct t. Qed.

Lemma as_mvn_None d : as_mvn d = None → type d ≠ t_mvn.
Proof. destruct d as [i t ty o1 o2]. unfold as_mvn. simpl. by destruct t. Qed.

Lemma type_is_none_of_spec ts d : type_is_none_of ts d = true ↔ type d ∉ ts.
Proof.
  unfold type_is_none_of, is_type. induction ts as [|t ts IH]; simpl.
  - split; [intros _; apply not_elem_of_nil|done].
  - rewrite andb_true_iff, IH, not_elem_of_cons, negb_true_iff, bool_decide_eq_false.
    done.
Qed.

Lemma type_is_none_of_app ts1 ts2 d :
  type_is_none_of (ts1 ++ ts2) d = type_is_none_of ts1 d && type_is_none_of ts2 d.
Proof. unfold type_is_none_of. apply forallb_app. Qed.

Section layout_optimizer_facts.

Variable calc_output_layout : node_ptr → M layout.
Variable lo_tables : Type.
Variable set_implementation_forcing : lo_tables → lo_tables.
Variable update_formats_map : layout_optimizer lo_tables → program → node_ptr → lo_tables.
Variable is_format_optimized : layout_optimizer lo_tables → program → node_ptr → format → bool.
Variable is_format_supported : layout_optimizer lo_tables → program → node_ptr → format → bool.
Variable get_total_conv_count : lo_tables → Z.
Variable get_optimized_conv_count : lo_tables → format * bool → Z.
Variable onednn_available : bool.

#[local] Abbreviation after_node :=
  (scan_after_node lo_tables update_formats_map is_format_optimized is_format_supported).
#[local] Abbreviation lo_after_node := (optimizer_after_node lo_tables update_formats_map).
#[local] Abbreviation lo_before := (optimizer_before lo_tables update_formats_map).

(** Reading the layout of dependency [idx]. *)
Lemma layout_read p node n idx t :
  nodes p !! node = Some n →
  current_shape p n idx = Some t →
  ∃ l, size l = t ∧
    ∀ B (k : layout → M B),
      (d ← get_dependency node idx;
       l ← get_output_layout calc_output_layout d;
       k l) p = k l p.
Proof.
  intros Hn Hs. unfold current_shape in Hs.
  destruct (dependencies n !! idx) as [d|] eqn:Hd; [|done]. simpl in Hs.
  destruct (nodes p !! d) as [nd|] eqn:Hnd; [|done]. simpl in Hs.
  destruct (valid_output_layout nd) eqn:Hv; [|done]. injection Hs as <-.
  exists (output_layout nd). split; [done|]. intros B k.
  assert (Hdep : get_dependency node idx p = (Ok d, p)).
  { unfold get_dependency. rewrite (bind_ok _ _ _ _ _ (read_node_ok _ _ _ Hn)).
    by rewrite Hd. }
  rewrite (bind_ok _ _ _ _ _ Hdep).
  by rewrite (bind_ok _ _ _ _ _ (get_output_layout_valid _ _ _ _ Hnd Hv)).
Qed.

Lemma blocks_fsv16_run p node n :
  nodes p !! node = Some n → layouts_readable p n →
  blocks_fsv16 calc_output_layout node n p =
  (Ok (data_flow n
       && type_is_none_of (fsv16_kinds_before_mvn ++ fsv16_kinds_after_mvn) (desc n)), p).
Proof.
  intros Hn (_ & Hmvn & _). unfold blocks_fsv16. rewrite type_is_none_of_app.
  destruct (data_flow n) eqn:Hdf; [|done]. simpl.
  destruct (type_is_none_of fsv16_kinds_before_mvn (desc n)) eqn:Hb; [|done]. simpl.
  unfold mvn_clause. destruct (as_mvn (desc n)) as [prim|] eqn:Hm.
  - pose proof (as_mvn_type _ _ Hm) as Ht.
    assert (Ha : type_is_none_of fsv16_kinds_after_mvn (desc n) = false).
    { apply not_true_iff_false. rewrite type_is_none_of_spec, Ht.
      intros Hnot. apply Hnot. unfold fsv16_kinds_after_mvn. set_solver. }
    rewrite Ha.
    destruct (Hmvn Ht eq_refl) as [t Hs].
    destruct (layout_read p node n 0%nat t Hn Hs) as (l & _ & Hread).
    unfold mbind at 1. unfold M_bind at 1.
    assert (Hclause : ∃ b,
      (input ← get_dependency node 0;
       l ← get_output_layout calc_output_layout input;
       if bool_decide (data_type l ≠ u8) then
         input ← get_dependency node 0;
         l ← get_output_layout calc_output_layout input;
         mret (bool_decide (data_type l ≠ i8) || mvn_across_channels prim)
       else mret (mvn_across_channels prim)) p = (Ok b, p)).
    { rewrite Hread. destruct (bool_decide (data_type l ≠ u8)).
      - rewrite Hread. eauto.
      - eauto. }
    destruct Hclause as [b ->]. by rewrite andb_false_r.
  - by rewrite (bind_ok _ _ p true p).
Qed.

Lemma is_int8_quantize_run p node n :
  nodes p !! node = Some n → layouts_readable p n →
  is_int8_quantize calc_output_layout node n p =
  (Ok (is_type t_quantize (desc n)
       && (bool_decide (data_type (output_layout n) = i8)
           || bool_decide (data_type (output_layout n) = u8))), p).
Proof.
  intros Hn (_ & _ & Hq). unfold is_int8_quantize, is_type.
  case_bool_decide as Ht; [|done]. simpl.
  rewrite (bind_ok _ _ _ _ _ (get_output_layout_valid _ _ _ _ Hn (Hq Ht))).
  case_bool_decide; [done|].
  by rewrite (bind_ok _ _ _ _ _ (get_output_layout_valid _ _ _ _ Hn (Hq Ht))).
Qed.

(** On a program whose layouts are readable one round of the scan is a
    function of the program and leaves it unchanged. *)
Lemma scan_node_run p node n st :
  nodes p !! node = Some n → layouts_readable p n →
  scan_node calc_output_layout lo_tables update_formats_map is_format_optimized
    is_format_supported node st p = (Ok (after_node p st node), p).
Proof.
  intros Hn Hread. unfold scan_node.
  rewrite (bind_ok _ _ _ _ _ (read_node_ok _ _ _ Hn)).
  destruct st as [lo c].
  unfold scan_after_node, optimizer_after_node, counters_after_node. simpl. rewrite Hn.
  destruct (as_convolution (desc n)) as [conv|] eqn:Hc.
  - unfold scan_convolution.
    destruct Hread as (Hconv & Hrest).
    destruct (Hconv (as_convolution_type _ _ Hc)) as [t Hs].
    destruct (layout_read p node n 0%nat t Hn Hs) as (l & Hl & Hrd).
    unfold mbind at 1. unfold M_bind at 1. rewrite Hrd.
    rewrite (bind_ok get_program _ p p p) by reflexivity.
    unfold mret at 1. unfold M_ret at 1.
    rewrite (bind_ok get_program _ p p p) by reflexivity.
    rewrite (bind_ok _ _ _ _ _ (blocks_fsv16_run p node n Hn (conj Hconv Hrest))).
    rewrite (bind_ok _ _ _ _ _ (is_int8_quantize_run p node n Hn (conj Hconv Hrest))).
    rewrite Hs, Hl. reflexivity.
  - rewrite (bind_ok _ _ p (lo, c) p) by reflexivity.
    rewrite (bind_ok get_program _ p p p) by reflexivity.
    rewrite (bind_ok _ _ _ _ _ (blocks_fsv16_run p node n Hn Hread)).
    rewrite (bind_ok _ _ _ _ _ (is_int8_quantize_run p node n Hn Hread)).
    reflexivity.
Qed.

Lemma scan_nodes_run p order : ∀ st,
  (∀ node, node ∈ order → ∃ n, nodes p !! node = Some n ∧ layouts_readable p n) →
  scan_nodes calc_output_layout lo_tables update_formats_map is_format_optimized
    is_format_supported order st p = (Ok (foldl (after_node p) st order), p).
Proof.
  induction order as [|node order IH]; intros st Hall; simpl; [done|].
  destruct (Hall node) as (n & Hn & Hread); [constructor|].
  rewrite (bind_ok _ _ _ _ _ (scan_node_run p node n st Hn Hread)).
  apply IH. intros node' Hin. apply Hall. by constructor.
Qed.



Lemma scan_optimizer p order : ∀ lo c,
  (foldl (after_node p) (lo, c) order).1 = lo_before p lo order.
Proof.
  induction order as [|node order IH]; intros lo c; [done|].
  simpl. unfold scan_after_node at 2. simpl. apply IH.
Qed.











End layout_optimizer_facts.

Lemma fraction_tests_agree_12_400 : fraction_tests_agree 12 389 = true.
Proof. vm_compute. reflexivity. Qed.

Lemma fraction_tests_agree_spec (first len total count : Z) :
  fraction_tests_agree first len = true →
  first ≤ total < first + len → 0 ≤ count ≤ total →
  fraction_exceeds_half count total = (total <? 2 * count).
Proof.
  unfold fraction_tests_agree. intros Hall Ht Hc.
  rewrite forallb_forall in Hall.
  specialize (Hall total). rewrite <- list_elem_of_In, elem_of_seqZ in Hall.
  specialize (Hall ltac:(lia)).
  rewrite forallb_forall in Hall.
  specialize (Hall count). rewrite <- list_elem_of_In, elem_of_seqZ in Hall.
  specialize (Hall ltac:(lia)).
  by apply Bool.eqb_prop in Hall.
Qed.

(** Up to 400 convolutions the single-precision test is the exact one:
    [count * (1.0f / total) > 0.5f] holds exactly when more than half of the
    convolutions are counted. *)
Lemma fraction_exceeds_half_exact (count total : Z) :
  12 ≤ total ≤ 400 → 0 ≤ count ≤ total →
  fraction_exceeds_half count total = true ↔ exact_fraction_exceeds_half count total.
Proof.
  intros Ht Hc.
  rewrite (fraction_tests_agree_spec 12 389 total count fraction_tests_agree_12_400)
    by lia.
  unfold exact_fraction_exceeds_half. apply Z.ltb_lt.
Qed.

(** * Further properties *)

Lemma update_node_run n f p :
  update_node n f p = (Ok tt, set_nodes (alter f n (nodes p)) p).
Proof. reflexivity. Qed.

Lemma occurrences_app x l1 l2 :
  occurrences x (l1 ++ l2) = (occurrences x l1 + occurrences x l2)%nat.
Proof. unfold occurrences. by rewrite filter_app, length_app. Qed.

Lemma occurrences_singleton x y :
  occurrences x [y] = if decide (y = x) then 1%nat else 0%nat.
Proof. unfold occurrences. rewrite filter_cons. by case_decide. Qed.

Lemma occurrences_remove_all x y l :
  occurrences x (remove_all y l) = if decide (x = y) then 0%nat else occurrences x l.
Proof.
  unfold occurrences, remove_all. induction l as [|z l IH]; simpl.
  - by case_decide.
  - rewrite !filter_cons. destruct (decide (z ≠ y)) as [Hzy|Hzy].
    + rewrite filter_cons. destruct (decide (z = x)) as [Hzx|Hzx]; simpl; rewrite IH;
        case_decide; subst; done.
    + apply dec_stable in Hzy. subst z. rewrite IH.
      destruct (decide (x = y)) as [Hxy|Hxy]; [done|]. by rewrite decide_False.
Qed.

Lemma occurrences_zero x l : occurrences x l = 0%nat ↔ x ∉ l.
Proof.
  unfold occurrences. induction l as [|y l IH]; simpl.
  - split; [intros _; apply not_elem_of_nil|done].
  - rewrite filter_cons, not_elem_of_cons. case_decide as E.
    + subst. simpl. split; [done|]. intros [? _]. done.
    + rewrite IH. split; [intros ?; split; [congruence|done]|tauto].
Qed.

Lemma remove_all_absent x (l : list node_ptr) : x ∉ l → remove_all x l = l.
Proof.
  unfold remove_all. induction l as [|y l IH]; [done|].
  rewrite not_elem_of_cons. intros [Hne Hl]. rewrite filter_cons, decide_True by done.
  by rewrite IH.
Qed.

Lemma remove_all_app x (l1 l2 : list node_ptr) :
  remove_all x (l1 ++ l2) = remove_all x l1 ++ remove_all x l2.
Proof. apply filter_app. Qed.

Lemma remove_all_not_elem x (l : list node_ptr) : x ∉ remove_all x l.
Proof. unfold remove_all. rewrite list_elem_of_filter. tauto. Qed.

Lemma remove_connection_run p u v :
  remove_connection u v p =
  (Ok tt,
   set_nodes (alter (λ n, set_dependencies (remove_all u (dependencies n)) n) v
               (alter (λ n, set_users (remove_all v (users n)) n) u (nodes p))) p).
Proof. reflexivity. Qed.

(** ** Connections: symmetry, round trip, acyclicity *)

(** A node of the store after [add_connection(u, v)]. *)
Lemma add_connection_lookup p u v a na' :
  alter (λ n, set_dependencies (dependencies n ++ [u]) n) v
    (alter (λ n, set_users (users n ++ [v]) n) u (nodes p)) !! a = Some na' →
  ∃ na, nodes p !! a = Some na ∧
    users na' = users na ++ (if decide (a = u) then [v] else []) ∧
    dependencies na' = dependencies na ++ (if decide (a = v) then [u] else []) ∧
    na' = set_dependencies (dependencies na') (set_users (users na') na).
Proof.
  intros Hl. destruct (nodes p !! a) as [na|] eqn:Ha.
  - exists na. split; [done|]. revert Hl. rewrite !lookup_alter.
    destruct (decide (a = u)) as [Hu|Hu], (decide (a = v)) as [Hv|Hv];
      repeat case_decide; try congruence; subst; rewrite ?Ha; simpl;
      intros [= <-]; simpl; rewrite ?app_nil_r; by destruct na.
  - revert Hl. rewrite !lookup_alter.
    repeat case_decide; subst; rewrite ?Ha; done.
Qed.

(** A node of the store after [remove_connection(u, v)]. *)
Lemma remove_connection_lookup p u v a na' :
  alter (λ n, set_dependencies (remove_all u (dependencies n)) n) v
    (alter (λ n, set_users (remove_all v (users n)) n) u (nodes p)) !! a = Some na' →
  ∃ na, nodes p !! a = Some na ∧
    users na' = (if decide (a = u) then remove_all v (users na) else users na) ∧
    dependencies na' =
      (if decide (a = v) then remove_all u (dependencies na) else dependencies na) ∧
    na' = set_dependencies (dependencies na') (set_users (users na') na).
Proof.
  intros Hl. destruct (nodes p !! a) as [na|] eqn:Ha.
  - exists na. split; [done|]. revert Hl. rewrite !lookup_alter.
    destruct (decide (a = u)) as [Hu|Hu], (decide (a = v)) as [Hv|Hv];
      repeat case_decide; try congruence; subst; rewrite ?Ha; simpl;
      intros [= <-]; simpl; rewrite ?app_nil_r; by destruct na.
  - revert Hl. rewrite !lookup_alter.
    repeat case_decide; subst; rewrite ?Ha; done.
Qed.

(** One new edge keeps the edges symmetric. *)
Lemma add_connection_symmetric (p : program) (u v : node_ptr) :
  edge_symmetric p → edge_symmetric (add_connection u v p).2.
Proof.
  intros Hsym. rewrite add_connection_run.
  intros a b na' nb' Ha Hb. simpl in Ha, Hb.
  apply add_connection_lookup in Ha as (na & Ha & Hua & _).
  apply add_connection_lookup in Hb as (nb & Hb & _ & Hdb & _).
  rewrite Hua, Hdb, !occurrences_app, (Hsym a b na nb Ha Hb). f_equal.
  destruct (decide (a = u)) as [->|Hau], (decide (b = v)) as [->|Hbv];
    rewrite ?occurrences_singleton; repeat case_decide; try done; congruence.
Qed.

(** X1: [add_connection] keeps the edges symmetric: in a graph where every
    node occurs among the users of another as often as that one occurs among
    its dependencies, this still holds after [add_connection(u, v)], whatever
    [u] and [v] are. *)
Theorem add_connection_edge_symmetric (p p' : program) (u v : node_ptr) :
  edge_symmetric p →
  add_connection u v p = (Ok tt, p') →
  edge_symmetric p'.
Proof.
  intros Hsym Hrun. pose proof (add_connection_symmetric p u v Hsym) as H.
  by rewrite Hrun in H.
Qed.

(** Removing the edges between two nodes keeps the edges symmetric. *)
Lemma remove_connection_symmetric (p : program) (u v : node_ptr) :
  edge_symmetric p → edge_symmetric (remove_connection u v p).2.
Proof.
  intros Hsym. rewrite remove_connection_run.
  intros a b na' nb' Ha Hb. simpl in Ha, Hb.
  apply remove_connection_lookup in Ha as (na & Ha & Hua & _).
  apply remove_connection_lookup in Hb as (nb & Hb & _ & Hdb & _).
  rewrite Hua, Hdb. pose proof (Hsym a b na nb Ha Hb) as Hab.
  destruct (decide (a = u)) as [->|Hau], (decide (b = v)) as [->|Hbv];
    rewrite ?occurrences_remove_all; repeat case_decide; try done; congruence.
Qed.

(** X2: [remove_connection(u, v)] removes every parallel edge u -> v at once
    and keeps the edges symmetric. *)
Theorem remove_connection_edge_symmetric (p p' : program) (u v : node_ptr) :
  edge_symmetric p →
  remove_connection u v p = (Ok tt, p') →
  edge_symmetric p' ∧
  (∀ nu', nodes p' !! u = Some nu' → v ∉ users nu') ∧
  (∀ nv', nodes p' !! v = Some nv' → u ∉ dependencies nv').
Proof.
  intros Hsym Hrun. pose proof (remove_connection_symmetric p u v Hsym) as Hsym'.
  rewrite Hrun in Hsym'. split; [exact Hsym'|]. clear Hsym'.
  revert Hrun. rewrite remove_connection_run. intros [= <-]. split.
  - intros nu' Hu. simpl in Hu.
    apply remove_connection_lookup in Hu as (nu & _ & -> & _).
    rewrite decide_True by done. apply remove_all_not_elem.
  - intros nv' Hv. simpl in Hv.
    apply remove_connection_lookup in Hv as (nv & _ & _ & -> & _).
    rewrite decide_True by done. apply remove_all_not_elem.
Qed.

(** X3: [remove_connection] undoes [add_connection]: when there was no edge
    u -> v, adding it and removing it again gives back the program. *)
Theorem add_then_remove_connection (p : program) (u v : node_ptr)
    (nu nv : program_node) :
  nodes p !! u = Some nu →
  nodes p !! v = Some nv →
  v ∉ users nu →
  u ∉ dependencies nv →
  (add_connection u v;; remove_connection u v) p = (Ok tt, p).
Proof.
  intros Hu Hv Hnu Hnv.
  rewrite (bind_ok _ _ _ _ _ (add_connection_run p u v)).
  rewrite remove_connection_run. f_equal.
  destruct p as [ns nm ins outs ord oo opt cfg]. unfold set_nodes. simpl in *.
  f_equal. apply map_eq. intros a.
  destruct (alter _ v (alter _ u (alter _ v (alter _ u ns))) !! a) as [na'|] eqn:Ha.
  - apply (remove_connection_lookup
             (mk_program (alter _ v (alter _ u ns)) nm ins outs ord oo opt cfg))
      in Ha as (na1 & Ha1 & Hua & Hda & Hna'). simpl in Ha1.
    apply (add_connection_lookup (mk_program ns nm ins outs ord oo opt cfg))
      in Ha1 as (na & Ha0 & Hu1 & Hd1 & Hna1). simpl in Ha0.
    rewrite Ha0. f_equal.
    assert (Hus : users na' = users na).
    { rewrite Hua, Hu1. destruct (decide (a = u)) as [->|]; [|by rewrite app_nil_r].
      assert (na = nu) as -> by congruence.
      rewrite remove_all_app, (remove_all_absent _ _ Hnu). unfold remove_all.
      rewrite filter_cons, decide_False by (intros H; by apply H).
      by rewrite app_nil_r. }
    assert (Hds : dependencies na' = dependencies na).
    { rewrite Hda, Hd1. destruct (decide (a = v)) as [->|]; [|by rewrite app_nil_r].
      assert (na = nv) as -> by congruence.
      rewrite remove_all_app, (remove_all_absent _ _ Hnv). unfold remove_all.
      rewrite filter_cons, decide_False by (intros H; by apply H).
      by rewrite app_nil_r. }
    rewrite Hna', Hus, Hds, Hna1. by destruct na.
  - do 4 apply lookup_alter_None in Ha. by rewrite Ha.
Qed.

Lemma reaches_trans p a b c : reaches p a b → reaches p b c → reaches p a c.
Proof. induction 1; eauto using reaches. Qed.

(** A path after [add_connection(u, v)] is an old path, or it runs through
    the new edge. *)
Lemma reaches_after_add_connection p u v a b :
  reaches (set_nodes
             (alter (λ n, set_dependencies (dependencies n ++ [u]) n) v
                (alter (λ n, set_users (users n ++ [v]) n) u (nodes p))) p) a b →
  reaches p a b ∨ (reaches p a u ∧ reaches p v b).
Proof.
  induction 1 as [a|a b c na' Ha Hb _ IH]; [left; constructor|].
  simpl in Ha. apply add_connection_lookup in Ha as (na & Ha & Hua & _).
  rewrite Hua in Hb. apply elem_of_app in Hb as [Hb|Hb].
  - destruct IH as [IH|[IH1 IH2]].
    + left. eapply reaches_step; eauto.
    + right. split; [|done]. eapply reaches_step; eauto.
  - destruct (decide (a = u)) as [->|]; [|by apply elem_of_nil in Hb].
    apply list_elem_of_singleton in Hb as ->.
    right. split; [constructor|]. destruct IH as [IH|[_ IH]]; done.
Qed.

(** X4: [add_connection] keeps the graph acyclic whenever the new edge does
    not close a cycle: if [u] cannot be reached from [v] in an acyclic
    graph, the graph is still acyclic after [add_connection(u, v)]. *)
Theorem add_connection_keeps_acyclic (p p' : program) (u v : node_ptr) :
  ¬ has_cycle p →
  ¬ would_create_cycle p u v →
  add_connection u v p = (Ok tt, p') →
  ¬ has_cycle p'.
Proof.
  intros Hacyc Hnew. rewrite add_connection_run. intros [= <-].
  intros (a & b & na' & Ha & Hb & Hpath).
  apply reaches_after_add_connection in Hpath.
  simpl in Ha. apply add_connection_lookup in Ha as (na & Ha & Hua & _).
  rewrite Hua in Hb. apply elem_of_app in Hb as [Hb|Hb].
  - destruct Hpath as [Hpath|[Hbu Hva]].
    + apply Hacyc. exists a, b, na. done.
    + apply Hnew. unfold would_create_cycle.
      eapply reaches_trans; [exact Hva|]. eapply reaches_step; eauto.
  - destruct (decide (a = u)) as [->|]; [|by apply elem_of_nil in Hb].
    apply list_elem_of_singleton in Hb as ->.
    apply Hnew. unfold would_create_cycle. destruct Hpath as [Hpath|[Hpath _]]; done.
Qed.

(** ** Disconnecting a node *)

(** A loop that applies one update to every node of a list. *)
Lemma for_each_update_run f (l : list node_ptr) : ∀ p,
  for_each l (λ e, update_node e f) p =
  (Ok tt, set_nodes (foldl (λ m e, alter f e m) (nodes p) l) p).
Proof.
  induction l as [|e l IH]; intros p; simpl.
  - unfold mret, M_ret. by rewrite set_nodes_id.
  - rewrite (bind_ok _ _ _ _ _ (update_node_run e f p)). rewrite IH.
    by destruct p.
Qed.

Lemma foldl_alter_lookup (f : program_node → program_node) (l : list node_ptr) :
  (∀ n, f (f n) = f n) →
  ∀ (m : gmap node_ptr program_node) x,
    foldl (λ m e, alter f e m) m l !! x =
    if decide (x ∈ l) then f <$> m !! x else m !! x.
Proof.
  intros Hidem. induction l as [|e l IH]; intros m x; cbn [foldl].
  - rewrite decide_False; [done|apply not_elem_of_nil].
  - rewrite IH. rewrite lookup_alter.
    destruct (decide (x ∈ l)) as [Hl|Hl], (decide (e = x)) as [->|He].
    + rewrite decide_True by (by constructor). destruct (m !! x); simpl; [|done].
      by rewrite Hidem.
    + rewrite decide_True by (by constructor). done.
    + rewrite decide_True by constructor. done.
    + rewrite decide_False; [done|]. rewrite not_elem_of_cons. split; [congruence|done].
Qed.

Lemma remove_all_idemp x (l : list node_ptr) :
  remove_all x (remove_all x l) = remove_all x l.
Proof. apply remove_all_absent, remove_all_not_elem. Qed.

(** X5: [remove_all_connections(n)] leaves [n] without dependencies and
    without users and keeps it in the id-map; no former user keeps [n]
    among its dependencies and no former dependency keeps it among its
    users.  In a graph with symmetric edges no node refers to [n] any more,
    and a following [remove_if_dangling(n)] returns [true]. *)
Theorem remove_all_connections_isolates (is_debug_build : bool) (p : program)
    (node : node_ptr) (n : program_node) :
  nodes p !! node = Some n →
  ∃ p' n',
    remove_all_connections node p = (Ok tt, p') ∧
    nodes p' !! node = Some n' ∧
    dependencies n' = [] ∧ users n' = [] ∧
    nodes_map p' = nodes_map p ∧
    (∀ x nx', nodes p' !! x = Some nx' →
       (x ∈ users n → node ∉ dependencies nx') ∧
       (x ∈ dependencies n → node ∉ users nx')) ∧
    (edge_symmetric p →
       ∀ x nx', nodes p' !! x = Some nx' →
                (node ∉ dependencies nx') ∧ (node ∉ users nx')) ∧
    (remove_if_dangling is_debug_build node p').1 = Ok true.
Proof.
  intros Hn. unfold remove_all_connections.
  set (fd := λ x, set_dependencies (remove_all node (dependencies x)) x).
  set (fu := λ x, set_users (remove_all node (users x)) x).
  assert (Hfd : ∀ x, fd (fd x) = fd x).
  { intros x. unfold fd, set_dependencies. simpl. by rewrite remove_all_idemp. }
  assert (Hfu : ∀ x, fu (fu x) = fu x).
  { intros x. unfold fu, set_users. simpl. by rewrite remove_all_idemp. }
  rewrite (bind_ok _ _ _ _ _ (read_node_ok _ _ _ Hn)).
  rewrite (bind_ok _ _ _ _ _ (for_each_update_run fd (users n) p)).
  set (m1 := foldl (λ m e, alter fd e m) (nodes p) (users n)).
  set (n1 := if decide (node ∈ users n) then fd n else n).
  assert (Hn1 : m1 !! node = Some n1).
  { subst m1 n1. rewrite (foldl_alter_lookup fd _ Hfd), Hn. by case_decide. }
  rewrite (bind_ok _ _ (set_nodes m1 p) n1 (set_nodes m1 p))
    by (by apply read_node_ok).
  rewrite (bind_ok _ _ _ _ _ (for_each_update_run fu (dependencies n1) (set_nodes m1 p))).
  set (m2 := foldl (λ m e, alter fu e m) m1 (dependencies n1)).
  rewrite (bind_ok _ _ _ _ _ (update_node_run _ _ _)).
  rewrite update_node_run.
  set (m3 := alter (set_users []) node (alter (set_dependencies []) node m2)).
  assert (Hm2 : ∀ x, m2 !! x =
            (if decide (x ∈ dependencies n1) then fu else λ y, y)
              <$> ((if decide (x ∈ users n) then fd else λ y, y) <$> (nodes p !! x))).
  { intros x. subst m2 m1. rewrite (foldl_alter_lookup fu _ Hfu).
    rewrite (foldl_alter_lookup fd _ Hfd).
    repeat case_decide; destruct (nodes p !! x); done. }
  assert (Hnode : ∃ n', m3 !! node = Some n' ∧ dependencies n' = [] ∧ users n' = []).
  { subst m3. rewrite !lookup_alter_eq, Hm2, Hn. simpl. eauto. }
  destruct Hnode as (n' & Hn' & Hd' & Hu').
  assert (Hother : ∀ x, x ≠ node → m3 !! x = m2 !! x).
  { intros x Hx. subst m3. by rewrite !lookup_alter_ne. }
  assert (Hdeps1 : ∀ x, x ≠ node → x ∈ dependencies n → x ∈ dependencies n1).
  { intros x Hx Hin. subst n1. case_decide; [|done]. simpl. unfold remove_all.
    apply list_elem_of_filter. done. }
  assert (Hclean : ∀ x nx', m3 !! x = Some nx' →
            (x ∈ users n → node ∉ dependencies nx') ∧
            (x ∈ dependencies n → node ∉ users nx')).
  { intros x nx' Hx. destruct (decide (x = node)) as [->|Hne].
    - assert (nx' = n') as -> by congruence. rewrite Hd', Hu'.
      split; intros _; apply not_elem_of_nil.
    - rewrite (Hother x Hne), Hm2 in Hx.
      destruct (nodes p !! x) as [nx|] eqn:Hnx; [|done]. simpl in Hx.
      injection Hx as <-. split.
      + intros Hin. rewrite (decide_True (P := x ∈ users n)) by done.
        unfold fu, fd. case_decide; simpl; apply remove_all_not_elem.
      + intros Hin. rewrite (decide_True (P := x ∈ dependencies n1)) by auto.
        unfold fu, fd. simpl. apply remove_all_not_elem. }
  exists (set_nodes m3 (set_nodes m2 (set_nodes m2 (set_nodes m1 p)))), n'.
  split; [by destruct p|]. split; [exact Hn'|]. split; [exact Hd'|].
  split; [exact Hu'|]. split; [by destruct p|]. split; [exact Hclean|]. split.
  - intros Hsym x nx' Hx. destruct (decide (x = node)) as [->|Hne].
    { simpl in Hx. assert (nx' = n') as -> by congruence. rewrite Hd', Hu'.
      split; apply not_elem_of_nil. }
    simpl in Hx. pose proof (Hclean x nx' Hx) as [Hc1 Hc2].
    rewrite (Hother x Hne), Hm2 in Hx.
    destruct (nodes p !! x) as [nx|] eqn:Hnx; [|done]. simpl in Hx.
    pose proof (Hsym node x n nx Hn Hnx) as Hs1.
    pose proof (Hsym x node nx n Hnx Hn) as Hs2.
    split.
    + destruct (decide (x ∈ users n)) as [Hin|Hin]; [by apply Hc1|].
      apply occurrences_zero in Hin. rewrite Hs1 in Hin.
      apply occurrences_zero in Hin. injection Hx as <-.
      unfold fu. case_decide; simpl; done.
    + destruct (decide (x ∈ dependencies n)) as [Hin|Hin]; [by apply Hc2|].
      apply occurrences_zero in Hin. rewrite <- Hs2 in Hin.
      apply occurrences_zero in Hin. injection Hx as <-.
      unfold fu, fd. case_decide; simpl; [apply remove_all_not_elem|].
      by case_decide.
  - unfold remove_if_dangling.
    rewrite (bind_ok _ _ _ n' _) by (apply read_node_ok; exact Hn').
    rewrite Hu', Hd'. simpl.
    destruct (negb (output n') || is_debug_build); simpl; [|done].
    unfold mbind, M_bind, when_, modify, get_program, nodes_ordering.erase, mret, M_ret.
    simpl. by repeat case_match.
Qed.

(** ** Renaming *)

(** X6: [rename] refuses, without touching the program, an id that is already
    bound (whatever the node) and, for a free id, a node that is an
    output. *)
Theorem rename_refuses (p : program) (node : node_ptr) (n : program_node)
    (new_id : primitive_id) :
  nodes p !! node = Some n →
  (is_Some (nodes_map p !! new_id) →
     rename node new_id p = (Throw (rename_exists_error new_id), p)) ∧
  (nodes_map p !! new_id = None → output n = true →
     rename node new_id p = (Throw rename_output_error, p)).
Proof.
  intros Hn. unfold rename.
  rewrite (bind_ok get_program _ p p p) by reflexivity. split.
  - intros Hs. by rewrite bool_decide_eq_true_2.
  - intros Hnone Hout.
    assert (Hns : ¬ is_Some (nodes_map p !! new_id))
      by (rewrite Hnone; apply is_Some_None).
    rewrite (bool_decide_eq_false_2 _ Hns).
    rewrite (bind_ok _ _ _ _ _ (read_node_ok _ _ _ Hn)). by rewrite Hout.
Qed.

(** What a successful [rename] does. *)
Lemma rename_run p node n new_id ptr :
  nodes p !! node = Some n →
  nodes_map p !! new_id = None →
  output n = false →
  nodes_map p !! node_id n = Some ptr →
  rename node new_id p =
  (Ok tt,
   set_nodes (alter (λ n, set_desc (with_id new_id (desc n)) n) node (nodes p))
     (set_nodes_map (delete (node_id n) (<[new_id := ptr]> (nodes_map p))) p)).
Proof.
  intros Hn Hfree Hout Hptr. unfold rename.
  rewrite (bind_ok get_program _ p p p) by reflexivity.
  assert (Hns : ¬ is_Some (nodes_map p !! new_id))
    by (rewrite Hfree; apply is_Some_None).
  rewrite (bool_decide_eq_false_2 _ Hns).
  rewrite (bind_ok _ _ _ _ _ (read_node_ok _ _ _ Hn)). rewrite Hout, Hptr.
  unfold mbind, M_bind, update_node, modify. simpl.
  unfold emplace. rewrite Hfree. reflexivity.
Qed.

(** X7: a successful [rename(n, new_id)] moves the binding: afterwards
    [get_node(new_id)] returns the node that was bound to the old id,
    [get_node] of the old id throws, the node carries the new id, every other
    binding and every edge is as before, and a well-named id-map stays
    well named. *)
Theorem rename_moves_binding (p : program) (node : node_ptr) (n : program_node)
    (new_id : primitive_id) :
  nodes p !! node = Some n →
  nodes_map p !! new_id = None →
  output n = false →
  nodes_map p !! node_id n = Some node →
  ∃ p' n',
    rename node new_id p = (Ok tt, p') ∧
    get_node new_id p' = (Ok node, p') ∧
    get_node (node_id n) p' =
      (Throw (runtime_error ("Program doesn't contain primitive node: " +:+ node_id n)), p') ∧
    nodes p' !! node = Some n' ∧ node_id n' = new_id ∧
    dependencies n' = dependencies n ∧ users n' = users n ∧
    (∀ i, i ≠ new_id → i ≠ node_id n → nodes_map p' !! i = nodes_map p !! i) ∧
    (∀ x, x ≠ node → nodes p' !! x = nodes p !! x) ∧
    (well_named p → well_named p').
Proof.
  intros Hn Hfree Hout Hptr.
  assert (Hne : new_id ≠ node_id n) by (intros ->; congruence).
  rewrite (rename_run p node n new_id node Hn Hfree Hout Hptr).
  eexists _, _. split; [reflexivity|].
  split; [|split; [|split; [|split; [|split; [|split; [|split; [|split]]]]]]].
  - unfold get_node. rewrite (bind_ok get_program _ _ _ _) by reflexivity.
    simpl. rewrite lookup_delete_ne by done. by rewrite lookup_insert_eq.
  - unfold get_node. rewrite (bind_ok get_program _ _ _ _) by reflexivity.
    simpl. by rewrite lookup_delete_eq.
  - simpl. by rewrite lookup_alter_eq, Hn.
  - reflexivity.
  - reflexivity.
  - reflexivity.
  - intros i Hi1 Hi2. simpl. rewrite lookup_delete_ne by done.
    by rewrite lookup_insert_ne.
  - intros x Hx. simpl. by rewrite lookup_alter_ne.
  - intros Hwn i ptr. simpl. rewrite lookup_delete. case_decide; [done|].
    rewrite lookup_insert. case_decide as Hi.
    + intros [= <-]. subst i. by rewrite lookup_alter_eq, Hn.
    + intros Hi'. pose proof (Hwn i ptr Hi') as Hid.
      destruct (decide (ptr = node)) as [->|Hp].
      * rewrite Hn in Hid. simpl in Hid. congruence.
      * by rewrite lookup_alter_ne.
Qed.

(** X8: renaming twice is renaming once: for two distinct free ids,
    [rename(n, x); rename(n, y)] leaves the program that [rename(n, y)]
    leaves. *)
Theorem rename_twice (p : program) (node : node_ptr) (n : program_node)
    (x y : primitive_id) :
  nodes p !! node = Some n →
  output n = false →
  is_Some (nodes_map p !! node_id n) →
  nodes_map p !! x = None →
  nodes_map p !! y = None →
  x ≠ y →
  (rename node x;; rename node y) p = rename node y p.
Proof.
  intros Hn Hout [ptr Hptr] Hx Hy Hxy.
  assert (Hxn : x ≠ node_id n) by (intros ->; congruence).
  assert (Hyn : y ≠ node_id n) by (intros ->; congruence).
  rewrite (bind_ok _ _ _ _ _ (rename_run p node n x ptr Hn Hx Hout Hptr)).
  rewrite (rename_run p node n y ptr Hn Hy Hout Hptr).
  set (p1 := set_nodes _ (set_nodes_map _ p)).
  assert (Hn1 : nodes p1 !! node = Some (set_desc (with_id x (desc n)) n)).
  { subst p1. simpl. by rewrite lookup_alter_eq, Hn. }
  rewrite (rename_run p1 node _ y ptr Hn1).
  - f_equal. subst p1. destruct p as [ns nm ins outs ord oo opt cfg].
    unfold set_nodes, set_nodes_map. simpl in *. f_equal.
    + apply map_eq. intros i. rewrite !lookup_alter.
      repeat case_decide; try done. rewrite Hn. simpl. done.
    + apply map_eq. intros i. unfold node_id. simpl.
      rewrite !lookup_delete, !lookup_insert, !lookup_delete, !lookup_insert.
      repeat case_decide; subst; try done; congruence.
  - subst p1. simpl. rewrite lookup_delete_ne by done. by rewrite lookup_insert_ne.
  - done.
  - subst p1. simpl. unfold node_id. simpl.
    rewrite lookup_delete_ne by done. by rewrite lookup_insert_eq.
Qed.

(** X9: [rename] of a node whose id is not bound in the id-map returns
    without any effect: the node keeps its id. *)
Theorem rename_unbound_is_silent (p : program) (node : node_ptr) (n : program_node)
    (new_id : primitive_id) :
  nodes p !! node = Some n →
  nodes_map p !! new_id = None →
  output n = false →
  nodes_map p !! node_id n = None →
  rename node new_id p = (Ok tt, p).
Proof.
  intros Hn Hfree Hout Hnone. unfold rename.
  rewrite (bind_ok get_program _ p p p) by reflexivity.
  assert (Hns : ¬ is_Some (nodes_map p !! new_id))
    by (rewrite Hfree; apply is_Some_None).
  rewrite (bool_decide_eq_false_2 _ Hns).
  rewrite (bind_ok _ _ _ _ _ (read_node_ok _ _ _ Hn)). by rewrite Hout, Hnone.
Qed.

(** ** Swapping names *)

(** The closed form of a run of [swap_names]. *)
Lemma swap_names_eval (p : program) (a b : node_ptr) :
  swap_names a b p =
  match nodes p !! a, nodes p !! b with
  | Some na, Some nb =>
      match nodes_map p !! node_id na, nodes_map p !! node_id nb with
      | Some x, Some y =>
          (Ok tt,
           set_nodes
             (alter (λ n, set_desc (with_id (node_id na) (desc n)) n) b
                (alter (λ n, set_desc (with_id (node_id nb) (desc n)) n) a (nodes p)))
             (set_nodes_map
                (<[node_id nb := x]> (<[node_id na := y]> (nodes_map p))) p))
      | _, _ => (Throw out_of_range, p)
      end
  | _, _ => (Throw out_of_range, p)
  end.
Proof.
  destruct (nodes p !! a) as [na|] eqn:Ha.
  - destruct (nodes p !! b) as [nb|] eqn:Hb.
    + destruct (nodes_map p !! node_id na) as [x|] eqn:Hx.
      * destruct (nodes_map p !! node_id nb) as [y|] eqn:Hy.
        -- by apply swap_names_run.
        -- unfold swap_names.
           rewrite (bind_ok _ _ _ _ _ (read_node_ok _ _ _ Ha)).
           rewrite (bind_ok _ _ _ _ _ (read_node_ok _ _ _ Hb)).
           rewrite (bind_ok get_program _ p p p) by reflexivity.
           by rewrite Hx, Hy.
      * unfold swap_names.
        rewrite (bind_ok _ _ _ _ _ (read_node_ok _ _ _ Ha)).
        rewrite (bind_ok _ _ _ _ _ (read_node_ok _ _ _ Hb)).
        rewrite (bind_ok get_program _ p p p) by reflexivity.
        by rewrite Hx.
    + unfold swap_names.
      rewrite (bind_ok _ _ _ _ _ (read_node_ok _ _ _ Ha)).
      unfold mbind, M_bind, read_node, get_program, throw. simpl. by rewrite Hb.
  - unfold swap_names, mbind, M_bind, read_node, get_program, throw. simpl.
    by rewrite Ha.
Qed.

(** X10: [swap_names] does not depend on the order of its arguments:
    [swap_names(a, b)] and [swap_names(b, a)] end in the same way and in the
    same program, for any two addresses. *)
Theorem swap_names_comm (p : program) (a b : node_ptr) :
  swap_names a b p = swap_names b a p.
Proof.
  rewrite !swap_names_eval.
  destruct (nodes p !! a) as [na|] eqn:Ha, (nodes p !! b) as [nb|] eqn:Hb; try done.
  destruct (nodes_map p !! node_id na) as [x|] eqn:Hx,
           (nodes_map p !! node_id nb) as [y|] eqn:Hy; try done.
  f_equal.
  destruct p as [ns nm ins outs ord oo opt cfg]. unfold set_nodes, set_nodes_map.
  simpl in *. f_equal.
  - apply map_eq. intros i. rewrite !lookup_alter.
    repeat case_decide; subst; try done.
    rewrite Ha in Hb. injection Hb as <-. by destruct (ns !! _).
  - apply map_eq. intros i. rewrite !lookup_insert.
    repeat case_decide; subst; try done; congruence.
Qed.

(** X11: [swap_names(a, b)] on two nodes bound under their own ids exchanges
    the ids and the bindings and nothing else: afterwards each id leads to
    the other node, every node has the dependencies and users it had, and a
    well-named id-map stays well named. *)
Theorem swap_names_exchanges (p : program) (a b : node_ptr) (na nb : program_node) :
  nodes p !! a = Some na →
  nodes p !! b = Some nb →
  nodes_map p !! node_id na = Some a →
  nodes_map p !! node_id nb = Some b →
  ∃ p' na' nb',
    swap_names a b p = (Ok tt, p') ∧
    nodes p' !! a = Some na' ∧ node_id na' = node_id nb ∧
    nodes p' !! b = Some nb' ∧ node_id nb' = node_id na ∧
    get_node (node_id na) p' = (Ok b, p') ∧
    get_node (node_id nb) p' = (Ok a, p') ∧
    (∀ x nx, nodes p !! x = Some nx →
       ∃ nx', nodes p' !! x = Some nx' ∧
              dependencies nx' = dependencies nx ∧ users nx' = users nx) ∧
    (well_named p → well_named p').
Proof.
  intros Ha Hb Hx Hy.
  rewrite (swap_names_run p a b na nb a b Ha Hb Hx Hy).
  set (fa := λ n, set_desc (with_id (node_id nb) (desc n)) n).
  set (fb := λ n, set_desc (with_id (node_id na) (desc n)) n).
  assert (Hab : a = b → na = nb) by (intros ->; congruence).
  assert (Hlook : ∀ x nx, nodes p !! x = Some nx →
            alter fb b (alter fa a (nodes p)) !! x =
            Some (if decide (x = b) then fb (if decide (x = a) then fa nx else nx)
                  else if decide (x = a) then fa nx else nx)).
  { intros x nx Hnx. rewrite !lookup_alter.
    repeat case_decide; subst; try done; rewrite ?Hnx; try done; congruence. }
  eexists _, _, _. split; [reflexivity|].
  split; [|split; [|split; [|split; [|split; [|split; [|split]]]]]].
  - simpl. apply (Hlook a na Ha).
  - destruct (decide (a = a)); [|done].
    destruct (decide (a = b)) as [E|E]; [|reflexivity].
    by rewrite <- (Hab E).
  - simpl. apply (Hlook b nb Hb).
  - destruct (decide (b = b)); [|done]. reflexivity.
  - unfold get_node. rewrite (bind_ok get_program _ _ _ _) by reflexivity. simpl.
    destruct (decide (node_id na = node_id nb)) as [E|E].
    + assert (a = b) as -> by (rewrite E in Hx; congruence).
      by rewrite E, lookup_insert_eq.
    + rewrite lookup_insert_ne by done. by rewrite lookup_insert_eq.
  - unfold get_node. rewrite (bind_ok get_program _ _ _ _) by reflexivity. simpl.
    by rewrite lookup_insert_eq.
  - intros x nx Hnx. eexists. split; [apply (Hlook x nx Hnx)|].
    by repeat case_decide.
  - intros Hwn i ptr. simpl. rewrite !lookup_insert.
    destruct (decide (node_id nb = i)) as [<-|Hib].
    + intros [= <-]. rewrite (Hlook a na Ha). simpl. f_equal.
      destruct (decide (a = a)); [|done].
      destruct (decide (a = b)) as [E|E]; [|reflexivity].
      by rewrite <- (Hab E).
    + destruct (decide (node_id na = i)) as [<-|Hia].
      * intros [= <-]. rewrite (Hlook b nb Hb). simpl.
        by destruct (decide (b = b)).
      * intros Hi. pose proof (Hwn i ptr Hi) as Hid.
        destruct (nodes p !! ptr) as [nx|] eqn:Hnx; [|done].
        rewrite (Hlook ptr nx Hnx). simpl in *.
        injection Hid as Hid.
        destruct (decide (ptr = b)) as [->|Hpb];
          [assert (nx = nb) by congruence; congruence|].
        destruct (decide (ptr = a)) as [->|Hpa];
          [assert (nx = na) by congruence; congruence|].
        by rewrite Hid.
Qed.

(** X12: [swap_names] throws [out_of_range], before any write, when the id of
    one of the two nodes is not bound in the id-map. *)
Theorem swap_names_unbound (p : program) (a b : node_ptr) (na nb : program_node) :
  nodes p !! a = Some na →
  nodes p !! b = Some nb →
  nodes_map p !! node_id na = None ∨ nodes_map p !! node_id nb = None →
  swap_names a b p = (Throw out_of_range, p).
Proof.
  intros Ha Hb Hnone. unfold swap_names.
  rewrite (bind_ok _ _ _ _ _ (read_node_ok _ _ _ Ha)).
  rewrite (bind_ok _ _ _ _ _ (read_node_ok _ _ _ Hb)).
  rewrite (bind_ok get_program _ p p p) by reflexivity.
  destruct Hnone as [-> | ->]; [done|]. by destruct (nodes_map p !! node_id na).
Qed.

(** ** Reversing an edge *)

(** X13: [reverse_connection(dep, user)] throws a [runtime_error] and leaves
    the program alone when [user] is not among the users of [dep]. *)
Theorem reverse_connection_not_connected (p : program) (dep_node user_node : node_ptr)
    (d : program_node) :
  nodes p !! dep_node = Some d →
  user_node ∉ users d →
  reverse_connection dep_node user_node p =
    (Throw (runtime_error
       "Trying to reverse connection, but nodes are wrongly or not connected."), p).
Proof.
  intros Hd Hnot. unfold reverse_connection.
  rewrite (bind_ok _ _ _ _ _ (read_node_ok _ _ _ Hd)).
  by rewrite bool_decide_eq_false_2.
Qed.

(** X14: [reverse_connection(dep, user)] on two distinct connected nodes
    replaces the edges dep -> user, however many there are, by the single
    edge user -> dep: [user] leaves the users of [dep] and [dep] the
    dependencies of [user]; [dep] is appended to the users of [user] and
    [user] to the dependencies of [dep]. *)
Theorem reverse_connection_reverses (p : program) (dep_node user_node : node_ptr)
    (d u : program_node) :
  nodes p !! dep_node = Some d →
  nodes p !! user_node = Some u →
  dep_node ≠ user_node →
  user_node ∈ users d →
  ∃ p' d' u',
    reverse_connection dep_node user_node p = (Ok tt, p') ∧
    nodes p' !! dep_node = Some d' ∧
    users d' = remove_all user_node (users d) ∧
    dependencies d' = dependencies d ++ [user_node] ∧
    nodes p' !! user_node = Some u' ∧
    users u' = users u ++ [dep_node] ∧
    dependencies u' = remove_all dep_node (dependencies u) ∧
    (∀ x, x ≠ dep_node → x ≠ user_node → nodes p' !! x = nodes p !! x).
Proof.
  intros Hd Hu Hne Hin. unfold reverse_connection.
  rewrite (bind_ok _ _ _ _ _ (read_node_ok _ _ _ Hd)).
  rewrite bool_decide_eq_true_2 by done.
  rewrite (bind_ok _ _ _ _ _ (remove_connection_run p dep_node user_node)).
  rewrite add_connection_run. simpl.
  eexists _, _, _. split; [reflexivity|]. simpl.
  split; [|split; [|split; [|split; [|split; [|split]]]]].
  - rewrite lookup_alter_eq, lookup_alter_ne, lookup_alter_ne, lookup_alter_eq, Hd
      by done. reflexivity.
  - reflexivity.
  - reflexivity.
  - rewrite lookup_alter_ne, lookup_alter_eq, lookup_alter_eq, lookup_alter_ne, Hu
      by done. reflexivity.
  - reflexivity.
  - reflexivity.
  - intros x Hx1 Hx2. by rewrite !lookup_alter_ne.
Qed.

(** ** Creating nodes *)

(** X15: [get_or_create] is idempotent and only ever adds: the node it
    returns is bound to the id of the primitive, so that a second call and
    [get_node] return the same node without changing the program; every
    node and every binding that existed is kept as it was; and when the id
    was bound already the program is not changed at all. *)
Theorem get_or_create_idempotent (create_node : primitive → program_node)
    (p : program) (prim : primitive) :
  ∃ ptr p',
    get_or_create create_node prim p = (Ok ptr, p') ∧
    get_or_create create_node prim p' = (Ok ptr, p') ∧
    get_node (id prim) p' = (Ok ptr, p') ∧
    (∀ x nx, nodes p !! x = Some nx → nodes p' !! x = Some nx) ∧
    (∀ i q, nodes_map p !! i = Some q → nodes_map p' !! i = Some q) ∧
    (is_Some (nodes_map p !! id prim) → p' = p) ∧
    (nodes_map p !! id prim = None →
       nodes p !! ptr = None ∧ nodes p' !! ptr = Some (create_node prim)).
Proof.
  unfold get_or_create, get_node.
  destruct (nodes_map p !! id prim) as [ptr|] eqn:Hid.
  - exists ptr, p. rewrite !(bind_ok get_program _ p p p) by reflexivity.
    rewrite Hid. repeat split; try done.
  - set (new_node := fresh (dom (nodes p))).
    assert (Hfresh : nodes p !! new_node = None).
    { apply not_elem_of_dom. apply is_fresh. }
    eexists new_node, _.
    rewrite (bind_ok get_program _ p p p) by reflexivity. rewrite Hid.
    split; [reflexivity|].
    rewrite !(bind_ok get_program _ _ _ _) by reflexivity. simpl.
    rewrite lookup_insert_eq. repeat split; try done.
    + intros x nx Hx. rewrite lookup_insert_ne; [done|].
      fold new_node. intros <-. congruence.
    + intros i q Hi. rewrite lookup_insert_ne; [done|]. intros <-. congruence.
    + fold new_node. by rewrite lookup_insert_eq.
Qed.

(** ** Constant and data-flow marks *)

Lemma set_nodes_set_nodes m1 m2 p : set_nodes m1 (set_nodes m2 p) = set_nodes m1 p.
Proof. reflexivity. Qed.

Lemma mark_if_constant_loop_run (node : node_ptr) (deps : list node_ptr) (p : program) :
  (∀ d, d ∈ deps → is_Some (nodes p !! d)) →
  mark_if_constant_loop node deps p =
  (Ok tt, if forallb (is_constant p) deps then p
          else set_nodes (alter (set_constant false) node (nodes p)) p).
Proof.
  induction deps as [|d deps IH]; intros Hlive; simpl; [done|].
  destruct (Hlive d) as [nd Hnd]; [constructor|].
  rewrite (bind_ok _ _ _ _ _ (read_node_ok _ _ _ Hnd)).
  unfold is_constant at 1. rewrite Hnd.
  destruct (constant nd); simpl; [|done].
  apply IH. intros d' Hd'. apply Hlive. by constructor.
Qed.

Lemma forallb_ext_in {A} (f g : A → bool) (l : list A) :
  (∀ x, x ∈ l → f x = g x) → forallb f l = forallb g l.
Proof.
  induction l as [|x l IH]; intros H; simpl; [done|].
  rewrite (H x) by constructor. f_equal. apply IH. intros y Hy. apply H. by constructor.
Qed.

Lemma existsb_ext_in {A} (f g : A → bool) (l : list A) :
  (∀ x, x ∈ l → f x = g x) → existsb f l = existsb g l.
Proof.
  induction l as [|x l IH]; intros H; simpl; [done|].
  rewrite (H x) by constructor. f_equal. apply IH. intros y Hy. apply H. by constructor.
Qed.

(** X16: [mark_if_constant] on a node that is not its own dependency.  A node
    without dependencies, a prior_box, an assign and a read_value keep the
    flag they have; any other node becomes constant exactly when every one
    of its dependencies is constant.  Nothing else in the program
    changes. *)
Theorem mark_if_constant_spec (p : program) (node : node_ptr) (n : program_node) :
  nodes p !! node = Some n →
  node ∉ dependencies n →
  (∀ d, d ∈ dependencies n → is_Some (nodes p !! d)) →
  ∃ flag,
    mark_if_constant node p =
      (Ok tt, set_nodes (<[node := set_constant flag n]> (nodes p)) p) ∧
    (dependencies n = [] ∨ type (desc n) ∈ [t_prior_box; t_assign; t_read_value] →
       flag = constant n) ∧
    (dependencies n ≠ [] → type (desc n) ∉ [t_prior_box; t_assign; t_read_value] →
       (flag = true ↔
        ∀ d nd, d ∈ dependencies n → nodes p !! d = Some nd → constant nd = true)).
Proof.
  intros Hn Hself Hlive. unfold mark_if_constant.
  rewrite (bind_ok _ _ _ _ _ (read_node_ok _ _ _ Hn)).
  assert (Hkinds : type (desc n) ∈ [t_prior_box; t_assign; t_read_value] ↔
            is_type t_prior_box (desc n) || is_type t_assign (desc n)
            || is_type t_read_value (desc n) = true).
  { unfold is_type. rewrite !orb_true_iff, !bool_decide_eq_true.
    rewrite !elem_of_cons, elem_of_nil. tauto. }
  destruct (decide (dependencies n = [])) as [Hd|Hd].
  { rewrite (bool_decide_eq_true_2 _ Hd). simpl. exists (constant n).
    split; [|split; [done|by intros ?]].
    f_equal. rewrite <- (set_nodes_id p) at 1. f_equal.
    rewrite insert_id; [done|]. rewrite Hn. f_equal. by destruct n. }
  rewrite (bool_decide_eq_false_2 _ Hd). simpl.
  destruct (is_type t_prior_box (desc n) || is_type t_assign (desc n)
            || is_type t_read_value (desc n)) eqn:Hk.
  { exists (constant n). split; [|split; [done|]].
    - f_equal. rewrite <- (set_nodes_id p) at 1. f_equal.
      rewrite insert_id; [done|]. rewrite Hn. f_equal. by destruct n.
    - intros _ Hnot. exfalso. apply Hnot. by apply Hkinds. }
  rewrite (bind_ok _ _ _ _ _ (update_node_run _ _ _)).
  set (p1 := set_nodes (alter (set_constant true) node (nodes p)) p).
  assert (Hp1 : ∀ d, d ≠ node → nodes p1 !! d = nodes p !! d).
  { intros d Hne. subst p1. simpl. by rewrite lookup_alter_ne. }
  rewrite mark_if_constant_loop_run.
  2:{ intros d Hd'. rewrite Hp1; [by apply Hlive|]. intros ->. done. }
  rewrite (forallb_ext_in (is_constant p1) (is_constant p)).
  2:{ intros d Hd'. unfold is_constant. rewrite Hp1; [done|]. intros ->. done. }
  exists (forallb (is_constant p) (dependencies n)). split; [|split].
  - f_equal. destruct (forallb (is_constant p) (dependencies n)).
    + subst p1. f_equal. apply map_eq. intros x.
      destruct (decide (x = node)) as [->|Hne].
      * by rewrite lookup_alter_eq, lookup_insert_eq, Hn.
      * by rewrite lookup_alter_ne, lookup_insert_ne.
    + subst p1. rewrite set_nodes_set_nodes. f_equal. apply map_eq. intros x.
      destruct (decide (x = node)) as [->|Hne].
      * simpl. by rewrite !lookup_alter_eq, lookup_insert_eq, Hn.
      * simpl. by rewrite !lookup_alter_ne, lookup_insert_ne.
  - intros [Hd'|Hk']; [done|]. apply Hkinds in Hk'. congruence.
  - intros _ _. rewrite forallb_forall. split.
    + intros Hall d nd Hin Hnd. apply list_elem_of_In in Hin.
      specialize (Hall d Hin). unfold is_constant in Hall. by rewrite Hnd in Hall.
    + intros Hall d Hin. apply list_elem_of_In in Hin.
      destruct (Hlive d Hin) as [nd Hnd]. unfold is_constant. rewrite Hnd.
      by apply (Hall d nd).
Qed.

Lemma mark_if_data_flow_loop_run (node : node_ptr) (n : program_node) (p : program) :
  nodes p !! node = Some n →
  (∀ d, d ∈ dependencies n → is_Some (nodes p !! d)) →
  ∀ remaining idx,
    (idx ≤ length (dependencies n))%nat →
    mark_if_data_flow_loop node idx remaining p =
    if existsb (is_in_data_flow p) (take remaining (drop idx (dependencies n)))
    then (Ok tt, set_nodes (alter (set_data_flow true) node (nodes p)) p)
    else if (idx + remaining <=? length (dependencies n))%nat then (Ok tt, p)
    else (Throw out_of_range, p).
Proof.
  intros Hn Hlive. induction remaining as [|r IH]; intros idx Hidx.
  - simpl. by rewrite (proj2 (Nat.leb_le _ _)) by lia.
  - cbn [mark_if_data_flow_loop]. unfold get_dependency, mbind, M_bind, read_node.
    rewrite Hn.
    destruct (dependencies n !! idx) as [d|] eqn:Hd.
    + pose proof (lookup_lt_Some _ _ _ Hd) as Hlt.
      rewrite (drop_S _ _ _ Hd). cbn [take existsb].
      destruct (Hlive d) as [nd Hnd]; [by eapply list_elem_of_lookup_2|].
      unfold mret, M_ret. rewrite Hnd.
      unfold is_in_data_flow at 1. rewrite Hnd.
      destruct (data_flow nd); simpl; [done|].
      rewrite (IH (S idx)) by lia.
      by replace (S idx + r)%nat with (idx + S r)%nat by lia.
    + apply lookup_ge_None in Hd. rewrite drop_ge by lia. simpl.
      unfold throw. by rewrite (proj2 (Nat.leb_gt _ _)) by lia.
Qed.

(** X17: [mark_if_data_flow] on a node that is not its own dependency.  A
    mutable_data and an input_layout are in the data flow; any other node is
    in the data flow exactly when one of the inputs that count is: the first
    two for a detection_output and a proposal, all of them otherwise.  For a
    detection_output or a proposal with fewer than two dependencies, none of
    them in the data flow, the call throws [out_of_range] after it has
    cleared the flag. *)
Theorem mark_if_data_flow_spec (p : program) (node : node_ptr) (n : program_node) :
  let source := is_type t_mutable_data (desc n) || is_type t_input_layout (desc n) in
  let two := is_type t_detection_output (desc n) || is_type t_proposal (desc n) in
  let considered := if two then take 2 (dependencies n) else dependencies n in
  let flag := source || existsb (is_in_data_flow p) considered in
  nodes p !! node = Some n →
  node ∉ dependencies n →
  (∀ d, d ∈ dependencies n → is_Some (nodes p !! d)) →
  mark_if_data_flow node p =
    (if negb flag && two && (length (dependencies n) <? 2)%nat
     then Throw out_of_range else Ok tt,
     set_nodes (<[node := set_data_flow flag n]> (nodes p)) p).
Proof.
  intros source two considered flag Hn Hself Hlive. unfold mark_if_data_flow.
  rewrite (bind_ok _ _ _ _ _ (read_node_ok _ _ _ Hn)).
  fold source. fold two.
  assert (Hins : ∀ f : program_node → program_node,
            alter f node (nodes p) = <[node := f n]> (nodes p)).
  { intros f. apply map_eq. intros x. destruct (decide (x = node)) as [->|Hne].
    - by rewrite lookup_alter_eq, lookup_insert_eq, Hn.
    - by rewrite lookup_alter_ne, lookup_insert_ne. }
  destruct source eqn:Hsource.
  { subst flag. simpl. rewrite update_node_run. by rewrite Hins. }
  rewrite (bind_ok _ _ _ _ _ (update_node_run _ _ _)).
  set (p1 := set_nodes (alter (set_data_flow false) node (nodes p)) p).
  assert (Hn1 : nodes p1 !! node = Some (set_data_flow false n)).
  { subst p1. simpl. by rewrite lookup_alter_eq, Hn. }
  assert (Hp1 : ∀ d, d ≠ node → nodes p1 !! d = nodes p !! d).
  { intros d Hne. subst p1. simpl. by rewrite lookup_alter_ne. }
  rewrite (mark_if_data_flow_loop_run node (set_data_flow false n) p1 Hn1).
  2:{ simpl. intros d Hd. rewrite Hp1; [by apply Hlive|]. by intros ->. }
  2:{ lia. }
  simpl. rewrite drop_0.
  assert (Hcons : take (if two then 2%nat else length (dependencies n)) (dependencies n)
                  = considered).
  { subst considered. destruct two; [done|]. by rewrite firstn_all. }
  rewrite Hcons.
  rewrite (existsb_ext_in (is_in_data_flow p1) (is_in_data_flow p)).
  2:{ intros d Hd. unfold is_in_data_flow. rewrite Hp1; [done|]. intros ->.
      apply Hself. subst considered. destruct two; [|done].
      apply elem_of_take in Hd as (i & Hi & _). by eapply list_elem_of_lookup_2. }
  subst flag. simpl.
  destruct (existsb (is_in_data_flow p) considered); simpl.
  - f_equal. subst p1. rewrite set_nodes_set_nodes. f_equal.
    rewrite <- Hins. apply map_eq. intros x.
    destruct (decide (x = node)) as [->|Hne].
    + rewrite !lookup_alter_eq. by destruct (nodes p !! node).
    + by rewrite !lookup_alter_ne.
  - subst p1. rewrite <- Hins. destruct two; simpl.
    + by destruct (length (dependencies n)) as [|[|k]].
    + by rewrite Nat.leb_refl.
Qed.

(** ** The end of the build *)

Lemma filter_ext_elem {A} (P Q : A → Prop) `{∀ x, Decision (P x)} `{∀ x, Decision (Q x)}
    (l : list A) :
  (∀ x, x ∈ l → P x ↔ Q x) → filter P l = filter Q l.
Proof.
  induction l as [|x l IH]; intros Hext; [done|].
  rewrite !filter_cons.
  assert (P x ↔ Q x) as Hx by (apply Hext; constructor).
  rewrite IH by (intros y Hy; apply Hext; by constructor).
  destruct (decide (P x)), (decide (Q x)); tauto.
Qed.

Lemma cleanup_layouts_run (calc_output_layout : node_ptr → M layout)
    (order : list node_ptr) (p : program) :
  (∀ node, node ∈ order →
     ∃ n, nodes p !! node = Some n ∧ valid_output_layout n = true) →
  for_each order (λ node, get_output_layout calc_output_layout node;; mret tt) p
  = (Ok tt, p).
Proof.
  induction order as [|node order IH]; intros Hvalid; simpl; [done|].
  destruct (Hvalid node) as (n & Hn & Hv); [constructor|].
  rewrite (bind_ok _ _ p tt p).
  2:{ by rewrite (bind_ok _ _ _ _ _ (get_output_layout_valid _ _ _ _ Hn Hv)). }
  apply IH. intros node' Hin. apply Hvalid. by constructor.
Qed.

Lemma cleanup_outputs_run (order : list node_ptr) : ∀ p,
  NoDup order →
  (∀ node, node ∈ order → is_Some (nodes p !! node)) →
  ∃ p',
    for_each order (λ node,
      n ← read_node node;
      when_ (negb (output n)) (
        update_node node (set_output true);;
        modify (λ p, set_outputs (outputs p ++ [node]) p))) p = (Ok tt, p') ∧
    outputs p' = outputs p ++ filter (λ x, is_output p x = false) order ∧
    (∀ x, nodes p' !! x =
          (if bool_decide (x ∈ order) then set_output true else λ y, y) <$> nodes p !! x) ∧
    p' = set_outputs (outputs p') (set_nodes (nodes p') p).
Proof.
  induction order as [|node order IH]; intros p Hnd Hlive.
  - exists p. simpl. split; [done|]. split; [by rewrite app_nil_r|]. split.
    + intros x. by destruct (nodes p !! x).
    + by destruct p.
  - apply NoDup_cons in Hnd as [Hnotin Hnd].
    destruct (Hlive node) as [n Hn]; [constructor|].
    set (p1 := if output n then p
               else set_outputs (outputs p ++ [node])
                      (set_nodes (alter (set_output true) node (nodes p)) p)).
    assert (Hp1 : ∀ x, x ≠ node → nodes p1 !! x = nodes p !! x).
    { intros x Hne. subst p1. destruct (output n); [done|]. simpl.
      by rewrite lookup_alter_ne. }
    assert (Hn1 : nodes p1 !! node = Some (set_output true n)).
    { subst p1. destruct (output n) eqn:Ho.
      - rewrite Hn. f_equal. destruct n. simpl in Ho. by rewrite Ho.
      - simpl. by rewrite lookup_alter_eq, Hn. }
    destruct (IH p1 Hnd) as (p' & Hrun & Houts & Hnodes & Hshape).
    { intros x Hx. rewrite Hp1; [apply Hlive; by constructor|]. by intros ->. }
    exists p'. split; [|split; [|split]].
    + cbn [for_each]. rewrite (bind_ok _ _ p tt p1); [exact Hrun|].
      rewrite (bind_ok _ _ _ _ _ (read_node_ok _ _ _ Hn)).
      subst p1. by destruct (output n).
    + rewrite Houts, filter_cons.
      assert (Hout : is_output p node = output n)
        by (unfold is_output; by rewrite Hn).
      rewrite Hout.
      rewrite (filter_ext_elem (λ x, is_output p1 x = false)
                 (λ x, is_output p x = false)).
      2:{ intros x Hx. unfold is_output. rewrite Hp1; [done|]. by intros ->. }
      subst p1. destruct (output n) eqn:Ho.
      * by rewrite decide_False by done.
      * rewrite decide_True by done. simpl. by rewrite <- app_assoc.
    + intros x. rewrite Hnodes. destruct (decide (x = node)) as [->|Hne].
      * rewrite Hn1, Hn. rewrite (bool_decide_eq_false_2 _ Hnotin).
        rewrite bool_decide_eq_true_2 by constructor. done.
      * rewrite (Hp1 x Hne). destruct (nodes p !! x) as [nx|]; [|done]. simpl.
        f_equal. destruct (decide (x ∈ order)) as [Hin|Hin].
        -- rewrite !bool_decide_eq_true_2; [done| |done]. by constructor.
        -- rewrite !bool_decide_eq_false_2; [done| |done].
           rewrite not_elem_of_cons. done.
    + rewrite Hshape at 1. subst p1. destruct (output n); [done|]. reflexivity.
Qed.

(** X18: [cleanup] on a program whose processing order has no repetition and
    whose nodes all have a valid layout.  In a release build the program is
    left as it is.  In a debug build every node of the processing order ends
    as an output: those that were not outputs are appended to [outputs], in
    processing order and once each; only the output flags and the list of
    outputs change. *)
Theorem cleanup_spec (calc_output_layout : node_ptr → M layout)
    (is_debug_build : bool) (p : program) :
  NoDup (processing_order p) →
  (∀ node, node ∈ processing_order p →
     ∃ n, nodes p !! node = Some n ∧ valid_output_layout n = true) →
  ∃ p',
    cleanup calc_output_layout is_debug_build p = (Ok tt, p') ∧
    (is_debug_build = false → p' = p) ∧
    (is_debug_build = true →
       outputs p' =
         outputs p ++ filter (λ x, is_output p x = false) (processing_order p) ∧
       (∀ node, node ∈ processing_order p → is_output p' node = true) ∧
       (∀ x nx', nodes p' !! x = Some nx' →
          ∃ nx, nodes p !! x = Some nx ∧ nx' = set_output (output nx') nx) ∧
       (∀ x, x ∉ processing_order p → nodes p' !! x = nodes p !! x) ∧
       p' = set_outputs (outputs p') (set_nodes (nodes p') p)).
Proof.
  intros Hnd Hvalid. unfold cleanup.
  rewrite (bind_ok get_program _ p p p) by reflexivity.
  rewrite (bind_ok _ _ _ _ _
             (cleanup_layouts_run calc_output_layout (processing_order p) p Hvalid)).
  destruct is_debug_build; simpl.
  - rewrite (bind_ok get_program _ p p p) by reflexivity.
    destruct (cleanup_outputs_run (processing_order p) p Hnd)
      as (p' & Hrun & Houts & Hnodes & Hshape).
    { intros node Hin. destruct (Hvalid node Hin) as (n & -> & _). eauto. }
    exists p'. split; [exact Hrun|]. split; [done|]. intros _.
    split; [exact Houts|]. split; [|split; [|split; [|exact Hshape]]].
    + intros node Hin. unfold is_output. rewrite Hnodes.
      destruct (Hvalid node Hin) as (n & -> & _).
      by rewrite bool_decide_eq_true_2.
    + intros x nx' Hx. rewrite Hnodes in Hx.
      destruct (nodes p !! x) as [nx|]; [|done]. exists nx. split; [done|].
      simpl in Hx. injection Hx as <-. case_bool_decide; [done|]. by destruct nx.
    + intros x Hx. rewrite Hnodes, bool_decide_eq_false_2 by done.
      by destruct (nodes p !! x).
  - exists p. split; [done|]. split; [done|]. intros ?. done.
Qed.

(** ** Copying the dependencies of a foreign node *)

Lemma copy_step_run (dest_node dest_dep : node_ptr) (p : program) :
  (update_node dest_node (λ n, set_dependencies (dependencies n ++ [dest_dep]) n);;
   update_node dest_dep (λ n, set_users (users n ++ [dest_node]) n)) p
  = add_connection dest_dep dest_node p.
Proof.
  rewrite add_connection_run.
  rewrite (bind_ok _ _ _ _ _ (update_node_run _ _ _)), update_node_run.
  rewrite set_nodes_set_nodes. f_equal. f_equal. apply map_eq. intros x.
  cbn [nodes set_nodes]. rewrite !lookup_alter.
  repeat case_decide; subst; try done; by destruct (nodes p !! _).
Qed.

Lemma copy_loop_run (dest_node : node_ptr) (src_id : primitive_id)
    (src_deps : list primitive_id) : ∀ p,
  for_each src_deps (λ src_dep,
    p ← get_program;
    match nodes_map p !! src_dep with
    | None => mret tt
    | Some _ =>
        match nodes_map p !! src_dep with
        | Some dest_dep =>
            update_node dest_node
              (λ n, set_dependencies (dependencies n ++ [dest_dep]) n);;
            update_node dest_dep (λ n, set_users (users n ++ [dest_node]) n)
        | None =>
            throw (runtime_error
              ("Program doesn't contain primitive: " +:+ src_dep +:+
               " that is input to: " +:+ src_id))
        end
    end) p =
  (Ok tt, foldl (λ p d, (add_connection d dest_node p).2) p
            (bound_dependencies p src_deps)).
Proof.
  induction src_deps as [|i src_deps IH]; intros p; [done|].
  cbn [for_each].
  destruct (nodes_map p !! i) as [d|] eqn:Hi.
  - rewrite (bind_ok _ _ p tt (add_connection d dest_node p).2).
    2:{ rewrite (bind_ok get_program _ p p p) by reflexivity. rewrite Hi.
        rewrite copy_step_run. by rewrite add_connection_run. }
    rewrite IH. unfold bound_dependencies. simpl. by rewrite Hi.
  - rewrite (bind_ok _ _ p tt p).
    2:{ rewrite (bind_ok get_program _ p p p) by reflexivity. by rewrite Hi. }
    rewrite IH. unfold bound_dependencies. simpl. by rewrite Hi.
Qed.

Lemma foldl_add_connection (dest_node : node_ptr) (ds : list node_ptr) : ∀ p n,
  nodes p !! dest_node = Some n →
  let p' := foldl (λ p d, (add_connection d dest_node p).2) p ds in
  (∃ n', nodes p' !! dest_node = Some n' ∧ dependencies n' = dependencies n ++ ds) ∧
  nodes_map p' = nodes_map p ∧
  (edge_symmetric p → edge_symmetric p').
Proof.
  induction ds as [|d ds IH]; intros p n Hn; cbn [foldl].
  - split; [exists n; by rewrite app_nil_r|]. done.
  - set (p1 := (add_connection d dest_node p).2).
    assert (Hn1 : ∃ n1, nodes p1 !! dest_node = Some n1
                        ∧ dependencies n1 = dependencies n ++ [d]).
    { subst p1. rewrite add_connection_run. cbn [snd nodes set_nodes].
      rewrite lookup_alter_eq.
      destruct (decide (dest_node = d)) as [->|Hne].
      - rewrite lookup_alter_eq, Hn. eexists. split; [reflexivity|]. reflexivity.
      - rewrite lookup_alter_ne, Hn by done. eexists. split; [reflexivity|].
        reflexivity. }
    destruct Hn1 as (n1 & Hn1 & Hd1).
    destruct (IH p1 n1 Hn1) as ((n' & Hn' & Hd') & Hmap & Hsym).
    split; [|split].
    + exists n'. split; [exact Hn'|]. by rewrite Hd', Hd1, <- app_assoc.
    + rewrite Hmap. subst p1. by rewrite add_connection_run.
    + intros Hs. apply Hsym. subst p1. by apply add_connection_symmetric.
Qed.

(** X19: [copy_node_dependencies] refuses, with a [runtime_error] and no
    change, a source node whose id differs from that of the destination.
    When the ids agree it never throws: the destination gets, appended in
    order, the nodes that the ids of the source's dependencies are bound to
    in this program, unbound ids being skipped; the id-map is untouched and
    symmetric edges stay symmetric. *)
Theorem copy_node_dependencies_spec (p : program) (dest_node : node_ptr)
    (dest : program_node) (src_id : primitive_id) (src_deps : list primitive_id) :
  nodes p !! dest_node = Some dest →
  (node_id dest ≠ src_id →
     copy_node_dependencies dest_node src_id src_deps p =
       (Throw (runtime_error
          ("Node " +:+ src_id +:+ " and its copy " +:+ node_id dest +:+
           " do not match.")), p)) ∧
  (node_id dest = src_id →
     ∃ p' dest',
       copy_node_dependencies dest_node src_id src_deps p = (Ok tt, p') ∧
       nodes p' !! dest_node = Some dest' ∧
       dependencies dest' = dependencies dest ++ bound_dependencies p src_deps ∧
       nodes_map p' = nodes_map p ∧
       (edge_symmetric p → edge_symmetric p')).
Proof.
  intros Hn. unfold copy_node_dependencies.
  rewrite (bind_ok _ _ _ _ _ (read_node_ok _ _ _ Hn)). split.
  - intros Hne. by rewrite bool_decide_eq_false_2.
  - intros Heq. rewrite bool_decide_eq_true_2 by done. simpl.
    rewrite copy_loop_run.
    destruct (foldl_add_connection dest_node (bound_dependencies p src_deps) p dest Hn)
      as ((dest' & Hd' & Hdeps) & Hmap & Hsym).
    eexists _, dest'. split; [reflexivity|]. done.
Qed.

(** ** Removing a list of nodes *)

Lemma remove_all_subseteq x y (l : list node_ptr) : x ∉ l → x ∉ remove_all y l.
Proof. unfold remove_all. rewrite list_elem_of_filter. tauto. Qed.

Lemma remove_all_elem x y (l : list node_ptr) : x ∈ l → x ≠ y → x ∈ remove_all y l.
Proof. unfold remove_all. rewrite list_elem_of_filter. tauto. Qed.

(** One round of [remove_nodes]. *)
Lemma remove_nodes_step (node : node_ptr) (n : program_node) (p : program) :
  nodes p !! node = Some n →
  node ∈ processing_order p →
  ∃ p1,
    remove_nodes [node] p = (Ok tt, p1) ∧
    (∀ x, ∃ g : program_node → program_node,
       nodes p1 !! x = g <$> nodes p !! x ∧
       ∀ nx, desc (g nx) = desc nx ∧
         (users (g nx) = users nx ∨ users (g nx) = remove_all node (users nx)) ∧
         (dependencies (g nx) = dependencies nx
          ∨ dependencies (g nx) = remove_all node (dependencies nx)) ∧
         (x ∈ dependencies n → users (g nx) = remove_all node (users nx)) ∧
         (x ∈ users n → x ≠ node →
            dependencies (g nx) = remove_all node (dependencies nx))) ∧
    nodes_map p1 = delete (node_id n) (nodes_map p) ∧
    optimized_out p1 = optimized_out p ++ [node_id n] ∧
    processing_order p1 = nodes_ordering.erase_node node (processing_order p) ∧
    inputs p1 = (if is_input n then remove_all node (inputs p) else inputs p).
Proof.
  intros Hn Hord. unfold remove_nodes. cbn [for_each].
  set (fu := λ x, set_users (remove_all node (users x)) x).
  set (fd := λ x, set_dependencies (remove_all node (dependencies x)) x).
  assert (Hfd : ∀ x, fd (fd x) = fd x).
  { intros x. unfold fd, set_dependencies. simpl. by rewrite remove_all_idemp. }
  assert (Hfu : ∀ x, fu (fu x) = fu x).
  { intros x. unfold fu, set_users. simpl. by rewrite remove_all_idemp. }
  set (m1 := foldl (λ m e, alter fu e m) (nodes p) (dependencies n)).
  set (pa := set_inputs (if is_input n then remove_all node (inputs p) else inputs p)
               (set_nodes m1 p)).
  set (n1 := if decide (node ∈ dependencies n) then fu n else n).
  set (m2 := foldl (λ m e, alter fd e m) m1 (users n1)).
  assert (Hm1 : ∀ x, m1 !! x =
            (if decide (x ∈ dependencies n) then fu else λ y, y) <$> nodes p !! x).
  { intros x. subst m1. rewrite (foldl_alter_lookup fu _ Hfu).
    case_decide; by destruct (nodes p !! x). }
  assert (Hn1 : m1 !! node = Some n1).
  { rewrite Hm1, Hn. subst n1. by case_decide. }
  assert (Hm2 : ∀ x, m2 !! x =
            (if decide (x ∈ users n1) then fd else λ y, y) <$> m1 !! x).
  { intros x. subst m2. rewrite (foldl_alter_lookup fd _ Hfd).
    case_decide; by destruct (m1 !! x). }
  set (pf := set_nodes_map (delete (node_id n) (nodes_map p))
            (set_optimized_out (optimized_out p ++ [node_id n])
               (set_processing_order
                  (nodes_ordering.erase_node node (processing_order p))
                  (set_nodes m2 pa)))).
  exists pf. split.
  { rewrite (bind_ok _ _ p tt pf); [reflexivity|].
    rewrite (bind_ok _ _ _ _ _ (read_node_ok _ _ _ Hn)).
    rewrite (bind_ok _ _ p tt pa).
    2:{ subst pa. unfold is_input. case_bool_decide as Hd.
        - unfold modify. f_equal. subst m1. rewrite Hd. simpl. by destruct p.
        - rewrite for_each_update_run. by destruct p. }
    rewrite (bind_ok _ _ pa n1 pa) by (by apply read_node_ok).
    rewrite (bind_ok _ _ _ _ _ (for_each_update_run fd (users n1) pa)).
    rewrite (bind_ok _ _ _ tt
               (set_processing_order
                  (nodes_ordering.erase_node node (processing_order p))
                  (set_nodes m2 pa))).
    2:{ unfold nodes_ordering.erase. cbn [processing_order set_nodes set_inputs pa].
        by rewrite (bool_decide_eq_true_2 _ Hord). }
    assert (node_id n1 = node_id n) as -> by (subst n1; by case_decide).
    reflexivity. }
  split; [|by destruct (is_input n)].
  intros x.
  exists (λ nx, (if decide (x ∈ users n1) then fd else λ y, y)
                  ((if decide (x ∈ dependencies n) then fu else λ y, y) nx)).
  split.
  { cbn [nodes set_nodes_map set_optimized_out set_processing_order set_nodes].
    rewrite Hm2, Hm1. by destruct (nodes p !! x). }
  intros nx. split; [by repeat case_decide|]. split; [by repeat case_decide; auto|].
  split; [by repeat case_decide; auto|]. split.
  - intros Hin. rewrite (decide_True (P := x ∈ dependencies n)) by done.
    by case_decide.
  - intros Hin Hne.
    assert (x ∈ users n1) as Hin1.
    { subst n1. case_decide; [|done]. simpl. by apply remove_all_elem. }
    rewrite (decide_True (P := x ∈ users n1)) by done. by case_decide.
Qed.

Lemma for_each_cons_run {A} (x : A) (l : list A) (body : A → M unit) (p p1 : program) :
  for_each [x] body p = (Ok tt, p1) →
  for_each (x :: l) body p = for_each l body p1.
Proof.
  cbn [for_each]. unfold mbind, M_bind.
  destruct (body x p) as [[[]|e] p2]; [|done].
  unfold mret, M_ret. by intros [= ->].
Qed.

Lemma remove_nodes_cons (node : node_ptr) (l : list node_ptr) (p p1 : program) :
  remove_nodes [node] p = (Ok tt, p1) →
  remove_nodes (node :: l) p = remove_nodes l p1.
Proof. apply for_each_cons_run. Qed.

Lemma omap_ext_elem {A B} (f g : A → option B) (l : list A) :
  (∀ x, f x = g x) → omap f l = omap g l.
Proof.
  intros H. induction l as [|x l IH]; [done|]. cbn [omap list_omap].
  by rewrite H, IH.
Qed.

Lemma remove_nodes_invariant (l : list node_ptr) : ∀ (p : program) (R : list node_ptr),
  edge_symmetric_among (λ x, x ∉ R) p →
  (∀ x nx r, x ∉ R → r ∈ R → nodes p !! x = Some nx →
     (r ∉ dependencies nx) ∧ (r ∉ users nx)) →
  (∀ a, a ∈ l → is_Some (nodes p !! a)) →
  (∀ a, a ∈ l → a ∈ processing_order p) →
  NoDup l →
  ∃ p',
    remove_nodes l p = (Ok tt, p') ∧
    edge_symmetric_among (λ x, x ∉ (R ++ l)) p' ∧
    (∀ x nx r, x ∉ (R ++ l) → r ∈ (R ++ l) → nodes p' !! x = Some nx →
       (r ∉ dependencies nx) ∧ (r ∉ users nx)) ∧
    (∀ x, id_at p' x = id_at p x) ∧
    optimized_out p' = optimized_out p ++ omap (id_at p) l ∧
    processing_order p' = filter (λ x, x ∉ l) (processing_order p) ∧
    (∀ i, nodes_map p' !! i =
          if decide (i ∈ omap (id_at p) l) then None else nodes_map p !! i).
Proof.
  induction l as [|a l IH]; intros p R Hsym Hclean Hlive Hord Hnd.
  - exists p. rewrite app_nil_r. split; [done|]. split; [done|]. split; [done|].
    split; [done|]. split; [by rewrite app_nil_r|]. split.
    + clear Hord. induction (processing_order p) as [|x o IHo]; [done|].
      rewrite filter_cons_True by apply not_elem_of_nil. by f_equal.
    + intros i. destruct (decide (i ∈ omap (id_at p) [])) as [Hin|]; [|done].
      by apply elem_of_nil in Hin.
  - destruct (Hlive a) as [n Hn]; [constructor|].
    apply NoDup_cons in Hnd as [Hnotin Hnd].
    destruct (remove_nodes_step a n p Hn (Hord a ltac:(constructor)))
      as (p1 & Hrun & Hnodes & Hmap & Hout & Hord1 & _).
    assert (Hid1 : ∀ x, id_at p1 x = id_at p x).
    { intros x. unfold id_at. destruct (Hnodes x) as (g & -> & Hg).
      destruct (nodes p !! x) as [nx|]; [|done]. simpl. unfold node_id.
      by rewrite (proj1 (Hg nx)). }
    assert (Hsym1 : edge_symmetric_among (λ x, x ∉ (R ++ [a])) p1).
    { intros u v nu' nv' Hu Hv Hnu Hnv.
      rewrite not_elem_of_app, list_elem_of_singleton in Hu, Hv.
      destruct Hu as [HuR Hua], Hv as [HvR Hva].
      destruct (Hnodes u) as (gu & Hgu & Hgu'). rewrite Hgu in Hnu.
      destruct (Hnodes v) as (gv & Hgv & Hgv'). rewrite Hgv in Hnv.
      destruct (nodes p !! u) as [nu|] eqn:Hnu0; [|done].
      destruct (nodes p !! v) as [nv|] eqn:Hnv0; [|done].
      injection Hnu as <-. injection Hnv as <-.
      destruct (Hgu' nu) as (_ & [-> | ->] & _), (Hgv' nv) as (_ & _ & [-> | ->] & _);
        rewrite ?occurrences_remove_all, ?decide_False by done;
        by apply Hsym. }
    assert (Hclean1 : ∀ x nx r, x ∉ (R ++ [a]) → r ∈ (R ++ [a]) →
              nodes p1 !! x = Some nx → (r ∉ dependencies nx) ∧ (r ∉ users nx)).
    { intros x nx' r Hx Hr Hnx.
      rewrite not_elem_of_app, list_elem_of_singleton in Hx.
      destruct Hx as [HxR Hxa].
      destruct (Hnodes x) as (g & Hg & Hg'). rewrite Hg in Hnx.
      destruct (nodes p !! x) as [nx|] eqn:Hnx0; [|done].
      injection Hnx as <-. destruct (Hg' nx) as (_ & Hu & Hd & Hdep & Husr).
      assert (Hold : r ∈ R → (r ∉ dependencies (g nx)) ∧ (r ∉ users (g nx))).
      { intros HrR. destruct (Hclean x nx r HxR HrR Hnx0) as [H1 H2].
        split.
        - destruct Hd as [-> | ->]; [done|]. by apply remove_all_subseteq.
        - destruct Hu as [-> | ->]; [done|]. by apply remove_all_subseteq. }
      apply elem_of_app in Hr as [HrR|Hr]; [by apply Hold|].
      apply list_elem_of_singleton in Hr as ->.
      destruct (decide (a ∈ R)) as [HaR|HaR]; [by apply Hold|].
      pose proof (Hsym a x n nx HaR HxR Hn Hnx0) as Hs1.
      pose proof (Hsym x a nx n HxR HaR Hnx0 Hn) as Hs2.
      split.
      - destruct (decide (x ∈ users n)) as [Hin|Hin].
        + rewrite (Husr Hin Hxa). apply remove_all_not_elem.
        + apply occurrences_zero in Hin. rewrite Hs1 in Hin.
          apply occurrences_zero in Hin.
          destruct Hd as [-> | ->]; [done|]. by apply remove_all_subseteq.
      - destruct (decide (x ∈ dependencies n)) as [Hin|Hin].
        + rewrite (Hdep Hin). apply remove_all_not_elem.
        + apply occurrences_zero in Hin. rewrite <- Hs2 in Hin.
          apply occurrences_zero in Hin.
          destruct Hu as [-> | ->]; [done|]. by apply remove_all_subseteq. }
    destruct (IH p1 (R ++ [a]) Hsym1 Hclean1)
      as (p' & Hrun' & Hsym' & Hclean' & Hid' & Hout' & Hord' & Hmap').
    { intros x Hx. destruct (Hnodes x) as (g & -> & _).
      destruct (Hlive x) as [nx ->]; [by constructor|]. simpl. eauto. }
    { intros x Hx. rewrite Hord1. unfold nodes_ordering.erase_node.
      apply list_elem_of_filter. split; [by intros ->|].
      apply Hord. by constructor. }
    { exact Hnd. }
    rewrite <- app_assoc in Hsym', Hclean'. simpl in Hsym', Hclean'.
    assert (Hida : id_at p a = Some (node_id n)) by (unfold id_at; by rewrite Hn).
    exists p'. split; [by rewrite (remove_nodes_cons a l p p1 Hrun)|].
    split; [exact Hsym'|]. split; [exact Hclean'|].
    split; [intros x; by rewrite Hid', Hid1|]. split; [|split].
    + rewrite Hout', Hout, <- app_assoc. simpl. rewrite Hida.
      by rewrite (omap_ext_elem (id_at p1) (id_at p)).
    + rewrite Hord', Hord1. unfold nodes_ordering.erase_node.
      rewrite list_filter_filter. apply list_filter_iff.
      intros x. rewrite not_elem_of_cons. tauto.
    + intros i. rewrite Hmap', Hmap. simpl. rewrite Hida.
      rewrite (omap_ext_elem (id_at p1) (id_at p)) by done.
      destruct (decide (i = node_id n)) as [->|Hne].
      * rewrite (decide_True (P := node_id n ∈ node_id n :: _)) by constructor.
        rewrite lookup_delete_eq. by case_decide.
      * rewrite lookup_delete_ne by done.
        destruct (decide (i ∈ omap (id_at p) l)) as [Hin|Hin].
        -- rewrite decide_True; [done|]. by constructor.
        -- rewrite decide_False; [done|]. rewrite not_elem_of_cons. done.
Qed.

(** X20: [remove_nodes] leaves no edge into a removed node.  On a graph
    with symmetric edges, for a list of nodes of the processing order
    without repetition, [remove_nodes(to_remove)] returns, and afterwards no
    node outside the list has a removed node among its dependencies or its
    users, and the edges among the nodes outside the list are still
    symmetric.  The ids of the removed nodes are appended to [optimized_out]
    in the order of the list and are not bound any more, and the removed
    nodes have left the processing order. *)
Theorem remove_nodes_leaves_no_edge (p : program) (to_remove : list node_ptr) :
  edge_symmetric p →
  (∀ a, a ∈ to_remove → is_Some (nodes p !! a)) →
  (∀ a, a ∈ to_remove → a ∈ processing_order p) →
  NoDup to_remove →
  ∃ p',
    remove_nodes to_remove p = (Ok tt, p') ∧
    (∀ x nx r, x ∉ to_remove → r ∈ to_remove → nodes p' !! x = Some nx →
       (r ∉ dependencies nx) ∧ (r ∉ users nx)) ∧
    edge_symmetric_among (λ x, x ∉ to_remove) p' ∧
    optimized_out p' = optimized_out p ++ omap (id_at p) to_remove ∧
    processing_order p' = filter (λ x, x ∉ to_remove) (processing_order p) ∧
    (∀ i, nodes_map p' !! i =
          if decide (i ∈ omap (id_at p) to_remove) then None else nodes_map p !! i).
Proof.
  intros Hsym Hlive Hord Hnd.
  destruct (remove_nodes_invariant to_remove p []) as
    (p' & Hrun & Hsym' & Hclean' & _ & Hout & Hordp & Hmap).
  - intros u v nu nv _ _. apply Hsym.
  - intros x nx r _ Hr. by apply elem_of_nil in Hr.
  - exact Hlive.
  - exact Hord.
  - exact Hnd.
  - exists p'. done.
Qed.

(** ** The optimized-out log on lists without repetition *)

(** X21: on a log whose survivor lists have no repetition, one call of
    [add_optimized_primitive_info(x, repl)] with [x] not among [repl] leaves
    a log in which no entry lists [x]: the keys are the old keys, in order,
    followed by [x]; an entry that did not list [x] is kept as it was; and
    nothing but the log changes. *)
Theorem add_optimized_primitive_info_log (p : program) (x : primitive_id)
    (repl : list primitive_id) :
  (∀ e, e ∈ optimized p → NoDup e.2) →
  x ∉ repl →
  ∃ p',
    add_optimized_primitive_info x repl p = (Ok tt, p') ∧
    (optimized p').*1 = (optimized p).*1 ++ [x] ∧
    (∀ e, e ∈ optimized p' → x ∉ e.2) ∧
    (∀ e, e ∈ optimized p → x ∉ e.2 → e ∈ optimized p') ∧
    set_optimized (optimized p) p' = p.
Proof.
  intros Hnd Hx. rewrite add_optimized_primitive_info_run.
  eexists. split; [reflexivity|]. simpl. split; [|split; [|split]].
  - rewrite fmap_app. simpl. f_equal. clear Hnd.
    induction (optimized p) as [|e l IH]; [done|]. simpl. f_equal; [|exact IH].
    unfold update_optimized_entry. by destruct (erase_first x e.2).
  - intros e He. apply elem_of_app in He as [He|He].
    + by apply (add_optimized_primitive_info_clears p x repl e).
    + apply list_elem_of_singleton in He as ->. done.
  - intros e He Hxe. apply elem_of_app. left.
    apply list_elem_of_fmap. exists e. split; [|done].
    unfold update_optimized_entry. apply erase_first_None in Hxe. by rewrite Hxe.
  - by destruct p.
Qed.

(** ** Refusals of [replace] *)

(** X22: [replace] refuses a replacement node that is attached, and a
    detached one that is an output, with an [invalid_argument] each; in both
    cases the program is left as it was and no layout is computed, whatever
    the old node is. *)
Theorem replace_refuses (calc_output_layout : node_ptr → M layout) (p : program)
    (old_node new_node : node_ptr) (new : program_node) :
  nodes p !! new_node = Some new →
  (dependencies new ≠ [] ∨ users new ≠ [] →
     replace calc_output_layout old_node new_node p =
       (Throw (invalid_argument
          "Node which is about to replace other node should be detached"), p)) ∧
  (dependencies new = [] → users new = [] → output new = true →
     replace calc_output_layout old_node new_node p =
       (Throw (invalid_argument
          "Replacement node shouldn't be marked as an output since it's impossible to rename such node."),
        p)).
Proof.
  intros Hnew. split.
  - by apply replace_requires_detached.
  - intros Hd Hu Ho. unfold replace.
    rewrite (bind_ok _ _ _ _ _ (read_node_ok _ _ _ Hnew)).
    rewrite !bool_decide_eq_true_2 by done. simpl. by rewrite Ho.
Qed.

(** ** When the inference precision cannot be told *)

Section precision_errors.

Variable max_type : data_types → data_types → data_types.
Variable is_quantized : data_types → bool.
Variable get_output_layout_const : program_node → outcome layout.

Hypothesis get_output_layout_const_valid : ∀ n,
  valid_output_layout n = true → get_output_layout_const n = Ok (output_layout n).

(** X23: on a node whose layout and whose dependencies' layouts are all
    valid, [get_inference_precision] throws in one case only: a
    convolution, deconvolution, fully_connected or gemm with exactly one
    dependency, for which it reports an invalid inputs count.  In every
    other case it returns a type; in particular the read of the first input
    type never fails. *)
Theorem get_inference_precision_throws (p : program) (node : node_ptr)
    (n : program_node) :
  nodes p !! node = Some n →
  valid_output_layout n = true →
  (∀ d, d ∈ dependencies n →
     ∃ nd, nodes p !! d = Some nd ∧ valid_output_layout nd = true) →
  let weighted :=
    type (desc n) ∈ [t_convolution; t_deconvolution; t_fully_connected; t_gemm] in
  (weighted ∧ length (dependencies n) = 1%nat →
     get_inference_precision max_type is_quantized get_output_layout_const p node =
       Throw (runtime_error
         ("[clDNN] Invalid inputs count in node " +:+ node_id n +:+
          " during stage info collection. Expected >= 2 inputs"))) ∧
  (¬ (weighted ∧ length (dependencies n) = 1%nat) →
     ∃ dt, get_inference_precision max_type is_quantized get_output_layout_const
             p node = Ok dt).
Proof.
  intros Hn Hv Hdeps weighted.
  assert (Hw : weighted ↔
            is_type t_convolution (desc n) || is_type t_deconvolution (desc n)
            || is_type t_fully_connected (desc n) || is_type t_gemm (desc n) = true).
  { subst weighted. unfold is_type. rewrite !orb_true_iff, !bool_decide_eq_true.
    rewrite !elem_of_cons, elem_of_nil. tauto. }
  assert (Hother : weighted →
            is_type t_reorder (desc n) = false ∧ is_type t_quantize (desc n) = false
            ∧ is_type t_eltwise (desc n) = false).
  { subst weighted. unfold is_type. rewrite !elem_of_cons, elem_of_nil.
    intros [E|[E|[E|[E|[]]]]]; rewrite E; by repeat split. }
  unfold get_inference_precision. rewrite Hn. unfold is_input.
  destruct (decide (dependencies n = [])) as [Hd|Hd].
  { rewrite (bool_decide_eq_true_2 _ Hd).
    rewrite (get_output_layout_const_valid n Hv). split.
    - intros [_ Hl]. rewrite Hd in Hl. done.
    - intros _. eauto. }
  rewrite (bool_decide_eq_false_2 _ Hd).
  destruct (valid_input_types_length p (dependencies n))
    as (dts & Hdts & _ & Hall & _).
  { intros d Hin. destruct (Hdeps d Hin) as (nd & -> & _). eauto. }
  assert (Hlen : length dts = length (dependencies n)).
  { apply Hall. intros d nd Hin Hnd. destruct (Hdeps d Hin) as (nd' & Hnd' & Hv').
    congruence. }
  rewrite Hdts, Hlen, Nat.eqb_refl, Hv. simpl.
  rewrite (get_output_layout_const_valid n Hv). unfold precision_by_kind.
  destruct dts as [|dt0 others].
  { destruct (dependencies n); [done|discriminate Hlen]. }
  split.
  - intros [Hweighted Hone]. destruct (Hother Hweighted) as (-> & -> & ->).
    rewrite (proj1 Hw Hweighted).
    destruct others as [|dt1 others]; [done|]. rewrite Hone in Hlen. discriminate Hlen.
  - intros Hnot.
    destruct (is_type t_reorder (desc n)); [eauto|].
    destruct (is_type t_quantize (desc n)); [destruct (is_quantized _); eauto|].
    destruct (is_type t_eltwise (desc n)); [eauto|].
    destruct (is_type t_convolution (desc n) || is_type t_deconvolution (desc n)
              || is_type t_fully_connected (desc n) || is_type t_gemm (desc n)) eqn:E;
      [|eauto].
    destruct others as [|dt1 others].
    + exfalso. apply Hnot. split; [by apply Hw|]. by rewrite <- Hlen.
    + destruct (is_quantized dt0 && is_quantized dt1); eauto.
Qed.

End precision_errors.

(** ** The copy loop of [replace] on dependencies without repetition *)

Lemma add_connection_nodes (p : program) (u v x : node_ptr) (nx : program_node) :
  nodes p !! x = Some nx →
  ∃ nx', nodes (add_connection u v p).2 !! x = Some nx' ∧
    users nx' = users nx ++ (if decide (x = u) then [v] else []) ∧
    dependencies nx' = dependencies nx ++ (if decide (x = v) then [u] else []) ∧
    desc nx' = desc nx.
Proof.
  intros Hx. rewrite add_connection_run. cbn [snd nodes set_nodes].
  destruct (alter _ v (alter _ u (nodes p)) !! x) as [nx'|] eqn:E.
  - pose proof E as E'.
    apply add_connection_lookup in E as (nx0 & Hx0 & Hu & Hd & Hrec).
    assert (nx0 = nx) as -> by congruence. exists nx'. split; [done|].
    split; [done|]. split; [done|]. by rewrite Hrec.
  - do 2 apply lookup_alter_None in E. congruence.
Qed.

Lemma remove_connection_nodes (p : program) (u v x : node_ptr) (nx : program_node) :
  nodes p !! x = Some nx →
  ∃ nx', nodes (remove_connection u v p).2 !! x = Some nx' ∧
    users nx' = (if decide (x = u) then remove_all v (users nx) else users nx) ∧
    dependencies nx' =
      (if decide (x = v) then remove_all u (dependencies nx) else dependencies nx) ∧
    desc nx' = desc nx.
Proof.
  intros Hx. rewrite remove_connection_run. cbn [snd nodes set_nodes].
  destruct (alter _ v (alter _ u (nodes p)) !! x) as [nx'|] eqn:E.
  - pose proof E as E'.
    apply remove_connection_lookup in E as (nx0 & Hx0 & Hu & Hd & Hrec).
    assert (nx0 = nx) as -> by congruence. exists nx'. split; [done|].
    split; [done|]. split; [done|]. by rewrite Hrec.
  - do 2 apply lookup_alter_None in E. congruence.
Qed.

Lemma copy_round_nodes (old_node new_node : node_ptr) (p : program) (dep : node_ptr)
    (old new : program_node) :
  old_node ≠ new_node →
  nodes p !! old_node = Some old →
  nodes p !! new_node = Some new →
  ∃ old' new',
    nodes (copy_round old_node new_node p dep) !! old_node = Some old' ∧
    dependencies old' = remove_all dep (dependencies old) ∧
    nodes (copy_round old_node new_node p dep) !! new_node = Some new' ∧
    dependencies new' = dependencies new ++ [dep].
Proof.
  intros Hne Hold Hnew. unfold copy_round.
  destruct (add_connection_nodes p dep new_node old_node old Hold)
    as (old1 & Hold1 & _ & Hd1 & _).
  destruct (add_connection_nodes p dep new_node new_node new Hnew)
    as (new1 & Hnew1 & _ & Hdn1 & _).
  destruct (remove_connection_nodes _ dep old_node old_node old1 Hold1)
    as (old2 & Hold2 & _ & Hd2 & _).
  destruct (remove_connection_nodes _ dep old_node new_node new1 Hnew1)
    as (new2 & Hnew2 & _ & Hdn2 & _).
  exists old2, new2. split; [done|]. split.
  - rewrite Hd2, Hd1. rewrite decide_True by done.
    rewrite decide_False by done. by rewrite app_nil_r.
  - split; [done|]. rewrite Hdn2, Hdn1. rewrite decide_False by done.
    by rewrite decide_True.
Qed.

Lemma copy_dependencies_run (old_node new_node : node_ptr) (ds : list node_ptr) :
  old_node ≠ new_node →
  ∀ fuel p old new,
    nodes p !! old_node = Some old →
    nodes p !! new_node = Some new →
    dependencies old = ds →
    NoDup ds →
    (length ds ≤ fuel)%nat →
    copy_dependencies fuel old_node new_node p =
      (Ok tt, foldl (copy_round old_node new_node) p ds).
Proof.
  intros Hne. induction ds as [|dep rest IH]; intros fuel p old new Hold Hnew Hds Hnd Hlen.
  - destruct fuel; simpl;
      rewrite (bind_ok _ _ _ _ _ (read_node_ok _ _ _ Hold)); by rewrite Hds.
  - destruct fuel as [|fuel]; [simpl in Hlen; lia|].
    cbn [copy_dependencies].
    rewrite (bind_ok _ _ _ _ _ (read_node_ok _ _ _ Hold)). rewrite Hds.
    rewrite (bind_ok _ _ _ _ _ (add_connection_run p dep new_node)).
    rewrite (bind_ok _ _ _ _ _ (remove_connection_run _ dep old_node)).
    apply NoDup_cons in Hnd as [Hnotin Hnd].
    destruct (copy_round_nodes old_node new_node p dep old new Hne Hold Hnew)
      as (old' & new' & Hold' & Hd' & Hnew' & _).
    cbn [foldl].
    apply (IH fuel _ old' new' Hold' Hnew'); [|done|simpl in Hlen; lia].
    rewrite Hd', Hds. unfold remove_all.
    rewrite filter_cons, decide_False by (intros H; by apply H).
    by apply remove_all_absent.
Qed.

Lemma foldl_copy_round (old_node new_node : node_ptr) (ds : list node_ptr) :
  old_node ≠ new_node →
  ∀ p old new,
    nodes p !! old_node = Some old →
    nodes p !! new_node = Some new →
    ∃ new',
      nodes (foldl (copy_round old_node new_node) p ds) !! new_node = Some new' ∧
      dependencies new' = dependencies new ++ ds ∧
      (edge_symmetric p → edge_symmetric (foldl (copy_round old_node new_node) p ds)).
Proof.
  intros Hne. induction ds as [|dep rest IH]; intros p old new Hold Hnew.
  - exists new. by rewrite app_nil_r.
  - destruct (copy_round_nodes old_node new_node p dep old new Hne Hold Hnew)
      as (old' & new' & Hold' & _ & Hnew' & Hdn').
    destruct (IH _ old' new' Hold' Hnew') as (new2 & Hnew2 & Hd2 & Hsym).
    exists new2. split; [exact Hnew2|]. split.
    + by rewrite Hd2, Hdn', <- app_assoc.
    + intros Hs. apply Hsym. unfold copy_round.
      by apply remove_connection_symmetric, add_connection_symmetric.
Qed.

(** X24: the copy loop of [replace] on a node whose dependencies are pairwise
    distinct moves them all: it returns within [old.dependencies.size()]
    rounds, [old] is left without dependencies, [new] gets the dependencies
    of [old] appended in order, and symmetric edges stay symmetric. *)
Theorem copy_dependencies_transfers (p : program) (old_node new_node : node_ptr)
    (old new : program_node) :
  nodes p !! old_node = Some old →
  nodes p !! new_node = Some new →
  old_node ≠ new_node →
  NoDup (dependencies old) →
  ∃ p' old' new',
    copy_dependencies (length (dependencies old)) old_node new_node p = (Ok tt, p') ∧
    nodes p' !! old_node = Some old' ∧ dependencies old' = [] ∧
    nodes p' !! new_node = Some new' ∧
    dependencies new' = dependencies new ++ dependencies old ∧
    (edge_symmetric p → edge_symmetric p').
Proof.
  intros Hold Hnew Hne Hnd.
  pose proof (copy_dependencies_run old_node new_node (dependencies old) Hne
                (length (dependencies old)) p old new Hold Hnew eq_refl Hnd
                (Nat.le_refl _)) as Hrun.
  destruct (copy_dependencies_returns old_node new_node Hne
              (length (dependencies old)) p old Hold (Nat.le_refl _))
    as (p' & old' & Hrun' & Hold' & Hd').
  rewrite Hrun in Hrun'. injection Hrun' as <-.
  destruct (foldl_copy_round old_node new_node (dependencies old) Hne p old new
              Hold Hnew) as (new' & Hnew' & Hdn' & Hsym).
  eexists _, old', new'. split; [exact Hrun|]. done.
Qed.

(** ** The dependency loop of [fuse_nodes], for any peer *)

Lemma bind_assoc_run {B} (m1 m2 : M unit) (k : M B) (p : program) :
  (m1;; m2;; k) p = ((m1;; m2);; k) p.
Proof.
  unfold mbind, M_bind. destruct (m1 p) as [[[]|e] p1]; [|done].
  by destruct (m2 p1) as [[[]|e] p2].
Qed.

Lemma add_peer_dependencies_steps (fused_node : node_ptr) (peer : program_node)
    (deps : list node_ptr) :
  ∀ i p local_deps deps_idx,
    is_Some (nodes p !! fused_node) →
    (∀ d, d ∈ deps → is_Some (nodes p !! d)) →
    ∃ r kept,
      add_peer_dependencies fused_node peer i deps local_deps deps_idx p =
        (Ok r, foldl (λ p d, (add_connection d fused_node p).2) p kept) ∧
      sublist kept deps ∧
      length r.1 = (length local_deps + length kept)%nat ∧
      (r.2 ≤ deps_idx + length deps)%nat.
Proof.
  induction deps as [|d deps IH]; intros i p local_deps deps_idx Hf Hlive.
  - exists (local_deps, deps_idx), []. simpl. split; [done|]. split; [constructor|].
    split; lia.
  - destruct (Hlive d) as [nd Hnd]; [constructor|]. destruct Hf as [nf Hnf].
    assert (Hlive' : ∀ d', d' ∈ deps → is_Some (nodes p !! d')).
    { intros d' Hd'. apply Hlive. by constructor. }
    cbn [add_peer_dependencies].
    rewrite (bind_ok _ _ _ _ _ (read_node_ok _ _ _ Hnd)).
    rewrite (bind_ok _ _ _ _ _ (read_node_ok _ _ _ Hnf)).
    case_bool_decide.
    + destruct (IH (S i) p local_deps (S deps_idx)) as (r & kept & Hrun & Hsub & Hl & Hr);
        [eauto|done|].
      exists r, kept. split; [done|]. split; [by constructor|]. split; [done|].
      simpl. lia.
    + destruct (quantize_drops peer i).
      * destruct (IH (S i) p local_deps deps_idx) as (r & kept & Hrun & Hsub & Hl & Hr);
          [eauto|done|].
        exists r, kept. split; [done|]. split; [by constructor|]. split; [done|].
        simpl. lia.
      * set (p1 := (add_connection d fused_node p).2).
        destruct (IH (S i) p1 (local_deps ++ [(node_id nd, deps_idx)]) (S deps_idx))
          as (r & kept & Hrun & Hsub & Hl & Hr).
        { destruct (add_connection_nodes p d fused_node fused_node nf Hnf)
            as (nf' & Hnf' & _). subst p1. eauto. }
        { intros d' Hd'. destruct (Hlive' d' Hd') as [nd' Hnd'].
          destruct (add_connection_nodes p d fused_node d' nd' Hnd')
            as (nd2 & Hnd2 & _). subst p1. eauto. }
        exists r, (d :: kept). split; [|split; [by constructor|split]].
        -- cbn [foldl]. fold p1. rewrite <- Hrun.
           assert (Hstep :
             (update_node fused_node
                (λ n, set_dependencies (dependencies n ++ [d]) n);;
              update_node d (λ n, set_users (users n ++ [fused_node]) n)) p
             = (Ok tt, p1)).
           { rewrite copy_step_run. by rewrite add_connection_run. }
           rewrite bind_assoc_run. by rewrite (bind_ok _ _ _ _ _ Hstep).
        -- rewrite Hl, length_app. simpl. lia.
        -- simpl. lia.
Qed.

(** X25: the loop of [fuse_nodes] over the peer's dependencies, for any peer
    of any kind: the dependencies the host receives are a subsequence of the
    peer's, appended to the host's in order; one entry of [local_desc.deps]
    is recorded for each; the recorded total does not exceed the number of
    the peer's dependencies; the id-map is untouched and symmetric edges
    stay symmetric. *)
Theorem fuse_nodes_add_dependencies_symmetric (p : program)
    (fused_node peer_node : node_ptr) (nf np : program_node) :
  nodes p !! fused_node = Some nf →
  nodes p !! peer_node = Some np →
  (∀ d, d ∈ dependencies np → is_Some (nodes p !! d)) →
  ∃ r p' nf' kept,
    fuse_nodes_add_dependencies fused_node peer_node p = (Ok r, p') ∧
    sublist kept (dependencies np) ∧
    nodes p' !! fused_node = Some nf' ∧
    dependencies nf' = dependencies nf ++ kept ∧
    length r.1 = length kept ∧
    (r.2 ≤ length (dependencies np))%nat ∧
    nodes_map p' = nodes_map p ∧
    (edge_symmetric p → edge_symmetric p').
Proof.
  intros Hnf Hnp Hlive. unfold fuse_nodes_add_dependencies.
  rewrite (bind_ok _ _ _ _ _ (read_node_ok _ _ _ Hnp)).
  destruct (add_peer_dependencies_steps fused_node np (dependencies np) 0%nat p []
              0%nat) as ([local_deps deps_idx] & kept & Hrun & Hsub & Hl & _);
    [eauto|done|].
  rewrite (bind_ok _ _ _ _ _ Hrun).
  destruct (foldl_add_connection fused_node kept p nf Hnf)
    as ((nf' & Hnf' & Hd') & Hmap & Hsym).
  eexists _, _, nf', kept. split; [reflexivity|]. split; [done|].
  split; [done|]. split; [done|]. split; [done|]. split; [apply Nat.le_min_l|].
  done.
Qed.

(** ** What the attribute scan never does *)

Section attribute_facts.

Variable calc_output_layout : node_ptr → M layout.
Variable lo_tables : Type.
Variable set_implementation_forcing : lo_tables → lo_tables.
Variable update_formats_map : layout_optimizer lo_tables → program → node_ptr → lo_tables.
Variable is_format_optimized : layout_optimizer lo_tables → program → node_ptr → format → bool.
Variable is_format_supported : layout_optimizer lo_tables → program → node_ptr → format → bool.
Variable get_total_conv_count : lo_tables → Z.
Variable get_optimized_conv_count : lo_tables → format * bool → Z.
Variable onednn_available : bool.

#[local] Abbreviation attribute := (optimization_attributes lo_tables).

(** [lo'] has every attribute as [lo] has it, or set to 1. *)
#[local] Abbreviation raised lo lo' :=
  (∀ a, attribute lo' a = attribute lo a ∨ attribute lo' a = 1).

Lemma raised_trans (lo1 lo2 lo3 : layout_optimizer lo_tables) :
  raised lo1 lo2 → raised lo2 lo3 → raised lo1 lo3.
Proof.
  intros H12 H23 a. destruct (H23 a) as [Ha | Ha]; rewrite Ha; [apply H12|by right].
Qed.

Lemma raised_set_attribute_if c a0 (lo : layout_optimizer lo_tables) :
  raised lo (set_attribute_if lo_tables c a0 lo).
Proof.
  intros a. unfold set_attribute_if. destruct c; [|by left]. simpl.
  case_decide; [by right|by left].
Qed.

Lemma raised_after_node p (lo : layout_optimizer lo_tables) node :
  raised lo (optimizer_after_node lo_tables update_formats_map p lo node).
Proof.
  unfold optimizer_after_node. destruct (nodes p !! node) as [n|]; [|by left].
  eapply raised_trans; [|apply raised_set_attribute_if].
  destruct (as_convolution (desc n)) as [conv|]; [|by left].
  unfold convolution_attributes.
  eapply raised_trans; [apply raised_set_attribute_if|].
  eapply raised_trans; [apply raised_set_attribute_if|].
  eapply raised_trans; [apply raised_set_attribute_if|]. by left.
Qed.

Lemma optimizer_before_cons p (lo : layout_optimizer lo_tables) node order :
  optimizer_before lo_tables update_formats_map p lo (node :: order) =
  optimizer_before lo_tables update_formats_map p
    (optimizer_after_node lo_tables update_formats_map p lo node) order.
Proof. reflexivity. Qed.

Lemma raised_before p order : ∀ lo : layout_optimizer lo_tables,
  raised lo (optimizer_before lo_tables update_formats_map p lo order).
Proof.
  induction order as [|node order IH]; intros lo; [by left|].
  rewrite optimizer_before_cons.
  eapply raised_trans; [apply raised_after_node|apply IH].
Qed.

Lemma raised_apply_decisions (lo : layout_optimizer lo_tables) c :
  raised lo (apply_decisions lo_tables get_total_conv_count get_optimized_conv_count
               onednn_available lo c).
Proof.
  unfold apply_decisions.
  repeat (eapply raised_trans; [|apply raised_set_attribute_if]). by left.
Qed.

(** X26: [set_layout_optimizer_attributes] only ever raises attributes: on a
    program whose read layouts are valid it returns, the program unchanged,
    and every attribute of the optimizer has the value it had or the
    value 1.  No attribute that was set is cleared. *)
Theorem set_layout_optimizer_attributes_only_raises (p : program)
    (lo : layout_optimizer lo_tables) :
  (∀ node, node ∈ processing_order p →
     ∃ n, nodes p !! node = Some n ∧ layouts_readable p n) →
  ∃ lo',
    set_layout_optimizer_attributes calc_output_layout lo_tables
      set_implementation_forcing update_formats_map is_format_optimized
      is_format_supported get_total_conv_count get_optimized_conv_count
      onednn_available lo p = (Ok lo', p) ∧
    ∀ a, optimization_attributes lo_tables lo' a = optimization_attributes lo_tables lo a
         ∨ optimization_attributes lo_tables lo' a = 1.
Proof.
  intros Hread. unfold set_layout_optimizer_attributes.
  set (lo0 := set_tables lo_tables (set_implementation_forcing (tables lo_tables lo)) lo).
  rewrite (bind_ok get_program _ p p p) by reflexivity.
  rewrite (bind_ok _ _ _ _ _
             (scan_nodes_run calc_output_layout lo_tables update_formats_map
                is_format_optimized is_format_supported p (processing_order p)
                (lo0, initial_counters) Hread)).
  destruct (foldl _ (lo0, initial_counters) (processing_order p)) as [lo1 c1] eqn:Hfold.
  assert (Hlo1 : lo1 = optimizer_before lo_tables update_formats_map p lo0
                         (processing_order p)).
  { pose proof (scan_optimizer lo_tables update_formats_map is_format_optimized
                  is_format_supported p (processing_order p) lo0 initial_counters) as H.
    by rewrite Hfold in H. }
  eexists. split; [reflexivity|].
  eapply raised_trans; [|apply raised_apply_decisions].
  rewrite Hlo1. eapply raised_trans; [|apply raised_before]. by left.
Qed.

Lemma after_node_bfyx_only p (lo : layout_optimizer lo_tables) node :
  attribute (optimizer_after_node lo_tables update_formats_map p lo node) bfyx_only_layer
  = match nodes p !! node with
    | Some n => if bool_decide (type (desc n) ∈ bfyx_only_kinds) then 1
                else attribute lo bfyx_only_layer
    | None => attribute lo bfyx_only_layer
    end.
Proof.
  unfold optimizer_after_node. destruct (nodes p !! node) as [n|]; [|done].
  assert (Hk : negb (type_is_none_of bfyx_only_kinds (desc n))
               = bool_decide (type (desc n) ∈ bfyx_only_kinds)).
  { destruct (type_is_none_of bfyx_only_kinds (desc n)) eqn:E; simpl; symmetry.
    - apply bool_decide_eq_false_2. by apply type_is_none_of_spec.
    - apply bool_decide_eq_true_2.
      destruct (decide (type (desc n) ∈ bfyx_only_kinds)) as [|Hn]; [done|].
      apply type_is_none_of_spec in Hn. congruence. }
  rewrite Hk. unfold set_attribute_if at 1.
  case_bool_decide; [reflexivity|].
  destruct (as_convolution (desc n)) as [conv|]; [|done].
  unfold convolution_attributes, set_attribute_if.
  repeat match goal with |- context [if ?b then _ else _] => destruct b end;
    reflexivity.
Qed.

Lemma before_bfyx_only p order : ∀ lo : layout_optimizer lo_tables,
  attribute (optimizer_before lo_tables update_formats_map p lo order) bfyx_only_layer = 1
  ↔ attribute lo bfyx_only_layer = 1
    ∨ ∃ node n, node ∈ order ∧ nodes p !! node = Some n
                ∧ type (desc n) ∈ bfyx_only_kinds.
Proof.
  induction order as [|node order IH]; intros lo.
  - simpl. split; [by left|]. intros [H|(node & n & Hin & _)]; [done|].
    by apply elem_of_nil in Hin.
  - rewrite optimizer_before_cons, IH, after_node_bfyx_only. split.
    + intros [H|(node' & n & Hin & Hn & Hk)].
      * destruct (nodes p !! node) as [n|] eqn:Hn; [|by left].
        case_bool_decide; [|by left]. right. exists node, n.
        split; [constructor|done].
      * right. exists node', n. split; [by constructor|done].
    + intros [H|(node' & n & Hin & Hn & Hk)].
      * left. destruct (nodes p !! node) as [n|]; [|done]. by case_bool_decide.
      * apply elem_of_cons in Hin as [->|Hin].
        -- left. rewrite Hn. by rewrite bool_decide_eq_true_2.
        -- right. exists node', n. done.
Qed.

(** X27: after [set_layout_optimizer_attributes], on a program whose read
    layouts are valid, the attribute bfyx_only_layer is set if and only if
    it was set before or the processing order holds a detection_output,
    proposal, roi_pooling, deconvolution, resample or reorg_yolo node; and
    use_onednn_impls is set if and only if it was set before or oneDNN is
    available. *)
Theorem set_layout_optimizer_attributes_bfyx_only_layer (p : program)
    (lo : layout_optimizer lo_tables) :
  (∀ node, node ∈ processing_order p →
     ∃ n, nodes p !! node = Some n ∧ layouts_readable p n) →
  ∃ lo',
    set_layout_optimizer_attributes calc_output_layout lo_tables
      set_implementation_forcing update_formats_map is_format_optimized
      is_format_supported get_total_conv_count get_optimized_conv_count
      onednn_available lo p = (Ok lo', p) ∧
    (optimization_attributes lo_tables lo' bfyx_only_layer = 1 ↔
       optimization_attributes lo_tables lo bfyx_only_layer = 1
       ∨ ∃ node n, node ∈ processing_order p ∧ nodes p !! node = Some n
                   ∧ type (desc n) ∈ [t_detection_output; t_proposal; t_roi_pooling;
                                      t_deconvolution; t_resample; t_reorg_yolo]) ∧
    (optimization_attributes lo_tables lo' use_onednn_impls = 1 ↔
       optimization_attributes lo_tables lo use_onednn_impls = 1
       ∨ onednn_available = true).
Proof.
  intros Hread. unfold set_layout_optimizer_attributes.
  set (lo0 := set_tables lo_tables (set_implementation_forcing (tables lo_tables lo)) lo).
  rewrite (bind_ok get_program _ p p p) by reflexivity.
  rewrite (bind_ok _ _ _ _ _
             (scan_nodes_run calc_output_layout lo_tables update_formats_map
                is_format_optimized is_format_supported p (processing_order p)
                (lo0, initial_counters) Hread)).
  destruct (foldl _ (lo0, initial_counters) (processing_order p)) as [lo1 c1] eqn:Hfold.
  assert (Hlo1 : lo1 = optimizer_before lo_tables update_formats_map p lo0
                         (processing_order p)).
  { pose proof (scan_optimizer lo_tables update_formats_map is_format_optimized
                  is_format_supported p (processing_order p) lo0 initial_counters) as H.
    by rewrite Hfold in H. }
  eexists. split; [reflexivity|]. split.
  - assert (Hfinal : attribute (apply_decisions lo_tables get_total_conv_count
                        get_optimized_conv_count onednn_available lo1 c1) bfyx_only_layer
                     = attribute lo1 bfyx_only_layer).
    { unfold apply_decisions, set_attribute_if.
      repeat match goal with |- context [if ?b then _ else _] => destruct b end;
        reflexivity. }
    rewrite Hfinal, Hlo1. apply (before_bfyx_only p (processing_order p) lo0).
  - assert (Hfinal : attribute (apply_decisions lo_tables get_total_conv_count
                        get_optimized_conv_count onednn_available lo1 c1) use_onednn_impls
                     = if onednn_available then 1 else attribute lo1 use_onednn_impls).
    { unfold apply_decisions, set_attribute_if.
      repeat match goal with |- context [if ?b then _ else _] => destruct b end;
        reflexivity. }
    assert (Hscan : ∀ order (l : layout_optimizer lo_tables),
              attribute (optimizer_before lo_tables update_formats_map p l order)
                use_onednn_impls = attribute l use_onednn_impls).
    { induction order as [|node order IH]; intros l; [done|].
      rewrite optimizer_before_cons, IH.
      unfold optimizer_after_node. destruct (nodes p !! node) as [n|]; [|done].
      unfold set_attribute_if, convolution_attributes, set_attribute_if.
      destruct (as_convolution (desc n)) as [conv|];
        repeat match goal with |- context [if ?b then _ else _] => destruct b end;
        reflexivity. }
    rewrite Hfinal, Hlo1, Hscan. simpl.
    destruct onednn_available; [tauto|].
    split; [by left|]. by intros [?|?].
Qed.

End attribute_facts.

(** ** Deciding the invariants on a listed store *)

Lemma edge_symmetric_listed (ns : list (node_ptr * program_node))
    (order outs : list node_ptr) (pool : bool) :
  edge_symmetric_b ns = true → edge_symmetric (program_of ns order outs pool).
Proof.
  intros Hb u v nu nv Hu Hv. simpl in Hu, Hv.
  apply elem_of_list_to_map_2, list_elem_of_In in Hu.
  apply elem_of_list_to_map_2, list_elem_of_In in Hv.
  unfold edge_symmetric_b in Hb. rewrite forallb_forall in Hb.
  specialize (Hb _ Hu). rewrite forallb_forall in Hb. specialize (Hb _ Hv).
  by apply Nat.eqb_eq in Hb.
Qed.

Lemma topological_reaches (ns : list (node_ptr * program_node))
    (order outs : list node_ptr) (pool : bool) :
  topological_b ns = true →
  ∀ a b, reaches (program_of ns order outs pool) a b → (a ≤ b)%positive.
Proof.
  intros Hb a b Hreach. induction Hreach as [a|a b c na Ha Hin _ IH]; [lia|].
  simpl in Ha. apply elem_of_list_to_map_2, list_elem_of_In in Ha.
  unfold topological_b in Hb. rewrite forallb_forall in Hb. specialize (Hb _ Ha).
  rewrite forallb_forall in Hb. apply list_elem_of_In in Hin.
  specialize (Hb _ Hin). apply Pos.ltb_lt in Hb. simpl in Hb. lia.
Qed.

Lemma topological_acyclic (ns : list (node_ptr * program_node))
    (order outs : list node_ptr) (pool : bool) :
  topological_b ns = true →
  ¬ has_cycle (program_of ns order outs pool) ∧
  ∀ u v, (u < v)%positive → ¬ would_create_cycle (program_of ns order outs pool) u v.
Proof.
  intros Hb. split.
  - intros (a & b & na & Ha & Hin & Hreach).
    pose proof (topological_reaches ns order outs pool Hb b a Hreach) as H2.
    simpl in Ha. apply elem_of_list_to_map_2, list_elem_of_In in Ha.
    unfold topological_b in Hb. rewrite forallb_forall in Hb. specialize (Hb _ Ha).
    rewrite forallb_forall in Hb. apply list_elem_of_In in Hin.
    specialize (Hb _ Hin). apply Pos.ltb_lt in Hb. simpl in Hb. lia.
  - intros u v Hlt Hreach. unfold would_create_cycle in Hreach.
    pose proof (topological_reaches ns order outs pool Hb v u Hreach). lia.
Qed.
(** ** The b_fs_yx_fsv16 decision on a wide graph *)

































(** On the same kind of graph with 13 convolutions, 7 of them optimizable,
    the attribute is enabled. *)
Example set_layout_optimizer_attributes_small_majority :
  ∃ lo',
    counting_set_layout_optimizer_attributes (sample_optimizer 0 0) (star_program 7 6)
      = (Ok lo', star_program 7 6) ∧
    optimization_attributes sample_tables lo' b_fs_yx_fsv16_network = 1 ∧
    tables sample_tables lo' = {| sample_total_conv := 13; sample_fsv16_conv := 7 |}.
Proof. eexists. split; [vm_compute; reflexivity|]. split; reflexivity. Qed.

(** ** The theorems at work on small graphs *)

Lemma edge_program_symmetric : edge_symmetric edge_program.
Proof. by apply edge_symmetric_listed. Qed.

Lemma add_connection_edge_symmetric_witness :
  edge_symmetric edge_program ∧
  edge_symmetric (add_connection 1%positive 2%positive edge_program).2.
Proof.
  split; [exact edge_program_symmetric|].
  apply (add_connection_edge_symmetric edge_program _ 1%positive 2%positive).
  - exact edge_program_symmetric.
  - reflexivity.
Defined.

Lemma remove_connection_edge_symmetric_witness :
  edge_symmetric (remove_connection 1%positive 2%positive double_edge_program).2 ∧
  (∀ nu', nodes (remove_connection 1%positive 2%positive double_edge_program).2
            !! 1%positive = Some nu' → 2%positive ∉ users nu') ∧
  (∀ nv', nodes (remove_connection 1%positive 2%positive double_edge_program).2
            !! 2%positive = Some nv' → 1%positive ∉ dependencies nv').
Proof.
  apply (remove_connection_edge_symmetric double_edge_program _ 1%positive 2%positive).
  - by apply edge_symmetric_listed.
  - reflexivity.
Defined.

Lemma add_then_remove_connection_witness :
  (add_connection 3%positive 1%positive;; remove_connection 3%positive 1%positive)
    double_edge_program = (Ok tt, double_edge_program).
Proof.
  apply (add_then_remove_connection double_edge_program 3%positive 1%positive
           (plain_node (eltwise_desc "new") [] [] false true f32)
           (plain_node (data_desc "a") [] [2%positive; 2%positive] false true f32)
           eq_refl eq_refl).
  - apply not_elem_of_nil.
  - apply not_elem_of_nil.
Defined.

Lemma add_connection_keeps_acyclic_witness :
  ¬ has_cycle edge_program ∧
  ¬ has_cycle (add_connection 1%positive 2%positive edge_program).2.
Proof.
  assert (Hrank : ¬ has_cycle edge_program ∧
            ∀ u v, (u < v)%positive → ¬ would_create_cycle edge_program u v)
    by (by apply topological_acyclic).
  destruct Hrank as [Hacyclic Hnew].
  split; [exact Hacyclic|].
  apply (add_connection_keeps_acyclic edge_program _ 1%positive 2%positive).
  - exact Hacyclic.
  - apply Hnew. reflexivity.
  - reflexivity.
Defined.

Lemma remove_all_connections_isolates_witness :
  ∃ p' n',
    remove_all_connections 2%positive edge_program = (Ok tt, p') ∧
    nodes p' !! 2%positive = Some n' ∧
    dependencies n' = [] ∧ users n' = [] ∧
    (remove_if_dangling false 2%positive p').1 = Ok true.
Proof.
  destruct (remove_all_connections_isolates false edge_program 2%positive
              (plain_node (eltwise_desc "b") [1%positive] [] false true f32) eq_refl)
    as (p' & n' & Hrun & Hn' & Hd & Hu & _ & _ & _ & Hdangling).
  exists p', n'. repeat split; assumption.
Defined.

Lemma rename_refuses_witness :
  rename 1%positive "b" edge_program = (Throw (rename_exists_error "b"), edge_program).
Proof.
  apply (rename_refuses edge_program 1%positive
           (plain_node (eltwise_desc "a") [] [2%positive] false true f32) "b" eq_refl).
  exists 2%positive. reflexivity.
Defined.

Lemma rename_moves_binding_witness :
  ∃ p',
    rename 1%positive "c" edge_program = (Ok tt, p') ∧
    get_node "c" p' = (Ok 1%positive, p') ∧
    get_node "a" p' =
      (Throw (runtime_error ("Program doesn't contain primitive node: " +:+ "a")), p').
Proof.
  destruct (rename_moves_binding edge_program 1%positive
              (plain_node (eltwise_desc "a") [] [2%positive] false true f32) "c"
              eq_refl eq_refl eq_refl eq_refl)
    as (p' & n' & Hrun & Hnew & Hold & _).
  exists p'. repeat split; assumption.
Defined.

Lemma rename_twice_witness :
  (rename 1%positive "c";; rename 1%positive "d") edge_program
  = rename 1%positive "d" edge_program.
Proof.
  apply (rename_twice edge_program 1%positive
           (plain_node (eltwise_desc "a") [] [2%positive] false true f32) "c" "d"
           eq_refl eq_refl).
  - exists 1%positive. reflexivity.
  - reflexivity.
  - reflexivity.
  - discriminate.
Defined.

Lemma rename_unbound_is_silent_witness :
  rename 1%positive "z" unnamed_edge_program = (Ok tt, unnamed_edge_program).
Proof.
  exact (rename_unbound_is_silent unnamed_edge_program 1%positive
           (plain_node (eltwise_desc "a") [] [2%positive] false true f32) "z"
           eq_refl eq_refl eq_refl eq_refl).
Defined.

Lemma swap_names_exchanges_witness :
  ∃ p',
    swap_names 1%positive 2%positive edge_program = (Ok tt, p') ∧
    get_node "a" p' = (Ok 2%positive, p') ∧
    get_node "b" p' = (Ok 1%positive, p').
Proof.
  destruct (swap_names_exchanges edge_program 1%positive 2%positive
              (plain_node (eltwise_desc "a") [] [2%positive] false true f32)
              (plain_node (eltwise_desc "b") [1%positive] [] false true f32)
              eq_refl eq_refl eq_refl eq_refl)
    as (p' & na' & nb' & Hrun & _ & _ & _ & _ & Ha & Hb & _).
  exists p'. repeat split; assumption.
Defined.

Lemma swap_names_unbound_witness :
  swap_names 1%positive 2%positive unnamed_edge_program
  = (Throw out_of_range, unnamed_edge_program).
Proof.
  apply (swap_names_unbound unnamed_edge_program 1%positive 2%positive
           (plain_node (eltwise_desc "a") [] [2%positive] false true f32)
           (plain_node (eltwise_desc "b") [1%positive] [] false true f32)
           eq_refl eq_refl).
  left. reflexivity.
Defined.

Lemma reverse_connection_not_connected_witness :
  reverse_connection 2%positive 1%positive edge_program =
    (Throw (runtime_error
       "Trying to reverse connection, but nodes are wrongly or not connected."),
     edge_program).
Proof.
  apply (reverse_connection_not_connected edge_program 2%positive 1%positive
           (plain_node (eltwise_desc "b") [1%positive] [] false true f32) eq_refl).
  apply not_elem_of_nil.
Defined.

Lemma reverse_connection_reverses_witness :
  ∃ p' d' u',
    reverse_connection 1%positive 2%positive edge_program = (Ok tt, p') ∧
    nodes p' !! 1%positive = Some d' ∧
    users d' = [] ∧ dependencies d' = [2%positive] ∧
    nodes p' !! 2%positive = Some u' ∧
    users u' = [1%positive] ∧ dependencies u' = [].
Proof.
  destruct (reverse_connection_reverses edge_program 1%positive 2%positive
              (plain_node (eltwise_desc "a") [] [2%positive] false true f32)
              (plain_node (eltwise_desc "b") [1%positive] [] false true f32)
              eq_refl eq_refl)
    as (p' & d' & u' & Hrun & Hd & Hud & Hdd & Hu & Huu & Hdu & _).
  - discriminate.
  - constructor.
  - exists p', d', u'. repeat split; assumption.
Defined.

Lemma mark_if_constant_spec_witness :
  ∃ flag,
    mark_if_constant 3%positive marks_program =
      (Ok tt,
       set_nodes
         (<[3%positive :=
              set_constant flag
                (plain_node (eltwise_desc "sum") [1%positive; 2%positive] [] false
                   true f32)]> (nodes marks_program)) marks_program) ∧
    (flag = true ↔
     ∀ d nd, d ∈ [1%positive; 2%positive] → nodes marks_program !! d = Some nd →
             constant nd = true).
Proof.
  destruct (mark_if_constant_spec marks_program 3%positive
              (plain_node (eltwise_desc "sum") [1%positive; 2%positive] [] false true f32)
              eq_refl)
    as (flag & Hrun & _ & Hflag).
  - simpl. rewrite !not_elem_of_cons. repeat split; try discriminate.
    apply not_elem_of_nil.
  - intros d Hd. simpl in Hd.
    apply elem_of_cons in Hd as [->|Hd]; [eexists; reflexivity|].
    apply elem_of_cons in Hd as [->|Hd]; [eexists; reflexivity|].
    by apply elem_of_nil in Hd.
  - exists flag. split; [exact Hrun|]. apply Hflag.
    + discriminate.
    + simpl. rewrite !not_elem_of_cons. repeat split; try discriminate.
      apply not_elem_of_nil.
Defined.

Lemma mark_if_data_flow_spec_witness :
  mark_if_data_flow 3%positive marks_program =
    (Ok tt,
     set_nodes
       (<[3%positive :=
            set_data_flow true
              (plain_node (eltwise_desc "sum") [1%positive; 2%positive] [] false
                 true f32)]> (nodes marks_program)) marks_program).
Proof.
  apply (mark_if_data_flow_spec marks_program 3%positive
           (plain_node (eltwise_desc "sum") [1%positive; 2%positive] [] false true f32)
           eq_refl).
  - simpl. rewrite !not_elem_of_cons. repeat split; try discriminate.
    apply not_elem_of_nil.
  - intros d Hd. simpl in Hd.
    apply elem_of_cons in Hd as [->|Hd]; [eexists; reflexivity|].
    apply elem_of_cons in Hd as [->|Hd]; [eexists; reflexivity|].
    by apply elem_of_nil in Hd.
Defined.

Lemma cleanup_spec_witness :
  ∃ p',
    cleanup no_calc_output_layout true edge_program = (Ok tt, p') ∧
    outputs p' = [1%positive; 2%positive] ∧
    is_output p' 1%positive = true ∧ is_output p' 2%positive = true.
Proof.
  destruct (cleanup_spec no_calc_output_layout true edge_program)
    as (p' & Hrun & _ & Hdebug).
  - simpl. apply NoDup_cons. split; [by apply not_elem_of_cons; split;
      [discriminate|apply not_elem_of_nil]|].
    apply NoDup_cons. split; [apply not_elem_of_nil|apply NoDup_nil_2].
  - intros node Hin. simpl in Hin.
    apply elem_of_cons in Hin as [->|Hin]; [eexists; split; reflexivity|].
    apply elem_of_cons in Hin as [->|Hin]; [eexists; split; reflexivity|].
    by apply elem_of_nil in Hin.
  - destruct (Hdebug eq_refl) as (Houts & Hall & _).
    exists p'. split; [exact Hrun|]. split; [exact Houts|]. split.
    + apply Hall. simpl. constructor.
    + apply Hall. simpl. do 2 constructor.
Defined.

Lemma copy_node_dependencies_spec_witness :
  ∃ p' dest',
    copy_node_dependencies 2%positive "b" ["a"; "elsewhere"] edge_program = (Ok tt, p') ∧
    nodes p' !! 2%positive = Some dest' ∧
    dependencies dest' = [1%positive; 1%positive].
Proof.
  destruct (copy_node_dependencies_spec edge_program 2%positive
              (plain_node (eltwise_desc "b") [1%positive] [] false true f32)
              "b" ["a"; "elsewhere"] eq_refl) as [_ Hcopy].
  destruct (Hcopy eq_refl) as (p' & dest' & Hrun & Hdest & Hdeps & _).
  exists p', dest'. repeat split; assumption.
Defined.

Lemma remove_nodes_leaves_no_edge_witness :
  ∃ p',
    remove_nodes [1%positive] edge_program = (Ok tt, p') ∧
    (∀ nx, nodes p' !! 2%positive = Some nx →
       (1%positive ∉ dependencies nx) ∧ (1%positive ∉ users nx)) ∧
    optimized_out p' = ["a"] ∧
    processing_order p' = [2%positive].
Proof.
  destruct (remove_nodes_leaves_no_edge edge_program [1%positive])
    as (p' & Hrun & Hclean & _ & Hout & Hord & _).
  - exact edge_program_symmetric.
  - intros a Ha. apply list_elem_of_singleton in Ha as ->. eexists; reflexivity.
  - intros a Ha. apply list_elem_of_singleton in Ha as ->. simpl. constructor.
  - apply NoDup_cons. split; [apply not_elem_of_nil|apply NoDup_nil_2].
  - exists p'. split; [exact Hrun|]. split; [|split; [exact Hout|exact Hord]].
    intros nx Hnx. apply (Hclean 2%positive nx 1%positive); [|constructor|exact Hnx].
    rewrite list_elem_of_singleton. discriminate.
Defined.

Lemma add_optimized_primitive_info_log_witness :
  ∃ p',
    add_optimized_primitive_info "X" ["Z"] logged_program = (Ok tt, p') ∧
    (optimized p').*1 = ["A"; "X"] ∧
    (∀ e, e ∈ optimized p' → "X" ∉ e.2).
Proof.
  destruct (add_optimized_primitive_info_log logged_program "X" ["Z"])
    as (p' & Hrun & Hkeys & Hclear & _).
  - intros e He. simpl in He. apply list_elem_of_singleton in He as ->. simpl.
    apply NoDup_cons. split; [by apply not_elem_of_cons; split;
      [discriminate|apply not_elem_of_nil]|].
    apply NoDup_cons. split; [apply not_elem_of_nil|apply NoDup_nil_2].
  - rewrite list_elem_of_singleton. discriminate.
  - exists p'. repeat split; assumption.
Defined.

Lemma replace_refuses_witness :
  replace no_calc_output_layout 1%positive 2%positive edge_program =
    (Throw (invalid_argument
       "Node which is about to replace other node should be detached"), edge_program).
Proof.
  apply (replace_refuses no_calc_output_layout edge_program 1%positive 2%positive
           (plain_node (eltwise_desc "b") [1%positive] [] false true f32) eq_refl).
  left. discriminate.
Defined.

Lemma get_inference_precision_throws_witness :
  get_inference_precision sample_max_type sample_is_quantized checked_output_layout
    single_input_conv_program 2%positive =
  Throw (runtime_error
    ("[clDNN] Invalid inputs count in node " +:+ "conv" +:+
     " during stage info collection. Expected >= 2 inputs")).
Proof.
  apply (get_inference_precision_throws sample_max_type sample_is_quantized
           checked_output_layout checked_output_layout_valid
           single_input_conv_program 2%positive
           (plain_node (mk_primitive "conv" t_convolution declared_conv "" "")
              [1%positive] [] true true f32) eq_refl eq_refl).
  - intros d Hd. simpl in Hd. apply list_elem_of_singleton in Hd as ->.
    eexists. split; reflexivity.
  - split; [simpl; constructor|reflexivity].
Defined.

Lemma copy_dependencies_transfers_witness :
  ∃ p' old' new',
    copy_dependencies 1 2%positive 3%positive single_edge_program = (Ok tt, p') ∧
    nodes p' !! 2%positive = Some old' ∧ dependencies old' = [] ∧
    nodes p' !! 3%positive = Some new' ∧ dependencies new' = [1%positive].
Proof.
  destruct (copy_dependencies_transfers single_edge_program 2%positive 3%positive
              (plain_node (eltwise_desc "old") [1%positive] [] false true f32)
              (plain_node (eltwise_desc "new") [] [] false true f32)
              eq_refl eq_refl)
    as (p' & old' & new' & Hrun & Hold & Hdo & Hnew & Hdn & _).
  - discriminate.
  - simpl. apply NoDup_cons. split; [apply not_elem_of_nil|apply NoDup_nil_2].
  - exists p', old', new'. repeat split; assumption.
Defined.

Lemma fuse_nodes_add_dependencies_symmetric_witness :
  ∃ r p' nf' kept,
    fuse_nodes_add_dependencies 1%positive 2%positive quantize_peer_program = (Ok r, p') ∧
    sublist kept [1; 3; 4; 5; 6; 7; 8; 9; 10]%positive ∧
    nodes p' !! 1%positive = Some nf' ∧
    dependencies nf' = [] ++ kept ∧
    length r.1 = length kept.
Proof.
  destruct (fuse_nodes_add_dependencies_symmetric quantize_peer_program
              1%positive 2%positive
              (plain_node (eltwise_desc "host") [] [2%positive] false true f32)
              (plain_node (mk_primitive "q" t_quantize sample_quantize "" "")
                 [1; 3; 4; 5; 6; 7; 8; 9; 10]%positive [] true true u8)
              eq_refl eq_refl)
    as (r & p' & nf' & kept & Hrun & Hsub & Hnf & Hdeps & Hlen & _).
  - intros d Hd. simpl in Hd.
    repeat (apply elem_of_cons in Hd as [->|Hd]; [eexists; reflexivity|]).
    by apply elem_of_nil in Hd.
  - exists r, p', nf', kept. repeat split; assumption.
Defined.

Lemma conv_program_readable :
  ∀ node, node ∈ processing_order conv_program →
    ∃ n, nodes conv_program !! node = Some n ∧ layouts_readable conv_program n.
Proof.
  intros node Hin. simpl in Hin.
  apply elem_of_cons in Hin as [->|Hin];
    [eexists; split; [reflexivity|]; repeat split; intros Hd; discriminate Hd|].
  apply elem_of_cons in Hin as [->|Hin];
    [eexists; split; [reflexivity|]; repeat split; intros Hd; discriminate Hd|].
  apply elem_of_cons in Hin as [->|Hin];
    [eexists; split; [reflexivity|]; repeat split;
     [intros _; eexists; reflexivity|intros Hd; discriminate Hd..]|].
  by apply elem_of_nil in Hin.
Qed.

Lemma set_layout_optimizer_attributes_only_raises_witness :
  ∃ lo',
    sample_set_layout_optimizer_attributes (sample_optimizer 0 0) conv_program
      = (Ok lo', conv_program) ∧
    ∀ a, optimization_attributes sample_tables lo' a = 0
         ∨ optimization_attributes sample_tables lo' a = 1.
Proof.
  exact (set_layout_optimizer_attributes_only_raises no_calc_output_layout
           sample_tables (λ t, t) sample_update_formats_map sample_format_query
           sample_format_query sample_total_conv sample_optimized_conv_count false
           conv_program (sample_optimizer 0 0) conv_program_readable).
Defined.

Lemma set_layout_optimizer_attributes_bfyx_only_layer_witness :
  ∃ lo',
    sample_set_layout_optimizer_attributes (sample_optimizer 0 0) conv_program
      = (Ok lo', conv_program) ∧
    (optimization_attributes sample_tables lo' bfyx_only_layer = 1 ↔
       0 = 1
       ∨ ∃ node n, node ∈ processing_order conv_program
                   ∧ nodes conv_program !! node = Some n
                   ∧ type (desc n) ∈ [t_detection_output; t_proposal; t_roi_pooling;
                                      t_deconvolution; t_resample; t_reorg_yolo]) ∧
    (optimization_attributes sample_tables lo' use_onednn_impls = 1 ↔
       0 = 1 ∨ false = true).
Proof.
  exact (set_layout_optimizer_attributes_bfyx_only_layer no_calc_output_layout
           sample_tables (λ t, t) sample_update_formats_map sample_format_query
           sample_format_query sample_total_conv sample_optimized_conv_count false
           conv_program (sample_optimizer 0 0) conv_program_readable).
Defined.
